(** * WebScrapeMaster-AI: the chunking, parsing and merging pipeline

    A shallow embedding of [scrapemaster_colab.py].  Python [str] values are
    sequences of Unicode code points; the built-in string methods the script
    calls ([split], [strip], [join], [find], [rfind], [in], slicing) are
    written out below with the behaviour CPython gives them. *)

From Stdlib Require Import List Bool Arith ZArith NArith Lia.
From Stdlib Require String Ascii DecimalFacts DecimalPos.
Import ListNotations String.StringSyntax.
Local Open Scope string_scope.

(** ** Python strings *)

Module Py.

(** A character is a code point, a [str] a list of them. *)
Definition char := N.
Definition str := list char.

Definition chr (a : Ascii.ascii) : char := Ascii.N_of_ascii a.

(** [txt "abc"] is the Python literal ['abc']. *)
Definition txt (s : String.string) : str :=
  map chr (String.list_ascii_of_string s).

(** [qtxt] reads a literal in which an apostrophe stands for a double
    quote, so that [qtxt "{'a':'1'}"] is the seven-character JSON text with
    double quotes around [a] and [1]. *)
Definition qtxt (s : String.string) : str :=
  map (fun c => if N.eqb c 39 then 34%N else c) (txt s).

Definition str_eqb (a b : str) : bool :=
  if list_eq_dec N.eq_dec a b then true else false.

(** Truthiness of a sequence: [if s:] holds when [s] is not empty. *)
Definition truthy {A} (l : list A) : bool :=
  match l with [] => false | _ :: _ => true end.

(** [str.isspace] on one character, the table of [_PyUnicode_IsWhitespace]. *)
Definition isspace (c : char) : bool :=
  ((9 <=? c) && (c <=? 13) || (28 <=? c) && (c <=? 32)
   || (c =? 133) || (c =? 160) || (c =? 5760)
   || (8192 <=? c) && (c <=? 8202)
   || (c =? 8232) || (c =? 8233) || (c =? 8239) || (c =? 8287)
   || (c =? 12288))%N.

Fixpoint lstrip (s : str) : str :=
  match s with
  | [] => []
  | c :: s' => if isspace c then lstrip s' else s
  end.

Definition rstrip (s : str) : str := rev (lstrip (rev s)).

(** [s.strip()] *)
Definition strip (s : str) : str := rstrip (lstrip s).

(** [s.startswith(p)] *)
Fixpoint startswith (p s : str) : bool :=
  match p, s with
  | [], _ => true
  | _ :: _, [] => false
  | a :: p', b :: s' => N.eqb a b && startswith p' s'
  end.

(** [sub in s] *)
Fixpoint contains (sub s : str) : bool :=
  startswith sub s ||
  match s with
  | [] => false
  | _ :: s' => contains sub s'
  end.

(** [s.split(sep)] for a non-empty separator: the pieces between the
    occurrences of [sep], found left to right without overlap.  [skip]
    counts the characters of a matched separator still to be passed. *)
Fixpoint split_go (sep : str) (skip : nat) (s : str) : list str :=
  match s with
  | [] => [[]]
  | c :: s' =>
      match skip with
      | S k => split_go sep k s'
      | O =>
          if startswith sep s then [] :: split_go sep (length sep - 1) s'
          else
            match split_go sep 0 s' with
            | p :: ps => (c :: p) :: ps
            | [] => [[c]]
            end
      end
  end.

Definition split (sep s : str) : list str := split_go sep 0 s.

(** [s.split(sep, 1)]: at most one cut, at the first occurrence. *)
Fixpoint split1 (sep s : str) : list str :=
  match s with
  | [] => [[]]
  | c :: s' =>
      if startswith sep s then [[]; skipn (length sep) s]
      else
        match split1 sep s' with
        | p :: ps => (c :: p) :: ps
        | [] => [[c]]
        end
  end.

(** [s.split()]: the maximal runs of non-whitespace characters. *)
Fixpoint split_ws (s : str) : list str :=
  match s with
  | [] => []
  | c :: s' =>
      if isspace c then split_ws s'
      else
        match s' with
        | [] => [[c]]
        | d :: _ =>
            if isspace d then [c] :: split_ws s'
            else
              match split_ws s' with
              | w :: ws => (c :: w) :: ws
              | [] => [[c]]
              end
        end
  end.

(** [sep.join(parts)] *)
Fixpoint join (sep : str) (parts : list str) : str :=
  match parts with
  | [] => []
  | [p] => p
  | p :: ps => p ++ sep ++ join sep ps
  end.

(** [s.replace(old, new)] for a non-empty [old]. *)
Definition replace (old new s : str) : str := join new (split old s).

(** [s.find(c)] for a one-character [c]: the first index, or [-1]. *)
Fixpoint find_from (c : char) (i : Z) (s : str) : Z :=
  match s with
  | [] => (-1)%Z
  | d :: s' => if N.eqb d c then i else find_from c (i + 1) s'
  end.

Definition find (c : char) (s : str) : Z := find_from c 0 s.

(** [s.rfind(c)]: the last index, or [-1]. *)
Fixpoint rfind_from (c : char) (i : Z) (s : str) : Z :=
  match s with
  | [] => (-1)%Z
  | d :: s' =>
      let r := rfind_from c (i + 1) s' in
      if (0 <=? r)%Z then r else if N.eqb d c then i else (-1)%Z
  end.

Definition rfind (c : char) (s : str) : Z := rfind_from c 0 s.

(** [s[a:b]] for indices that are not negative. *)
Definition slice (a b : Z) (s : str) : str :=
  firstn (Z.to_nat b - Z.to_nat a) (skipn (Z.to_nat a) s).

End Py.

Import Py.

(** ** Configuration *)

Definition TOGETHER_MODEL : str := txt "meta-llama/Meta-Llama-3.1-70B-Instruct-Turbo".
Definition GROQ_MODEL : str := txt "llama-3.1-70b-versatile".
Definition MAX_TOKENS_TOGETHER : Z := 131072.
Definition MAX_TOKENS_GROQ : Z := 128000.
Definition MAX_OUTPUT_TOKENS_GROQ : Z := 8000.
Definition DEFAULT_CHUNK_SIZE : Z := 30000.

(** The attributes of a [Config] object, but for the user-agent generator,
    which only the page fetcher reads. *)
Record Config := mkConfig {
  api_provider : str;
  model : str;
  together_api_key : str;
  groq_api_key : str;
  chunk_size : Z;
  max_tokens : Z;
  max_output_tokens : Z;
  urls : list str;
  fields : list str
}.

(** ** The text chunker *)

(** [chunk_content] estimates sizes in floating point: [n * 1.3], a running
    sum, and a comparison with the integer [chunk_size].  The embedding
    fixes the interface of that arithmetic and nothing else, so whatever is
    proved of the chunker holds for every way of computing these operations,
    rounding included. *)
Record arith := mkArith {
  num : Type;
  zero : num;                       (* the initial [current_size = 0] *)
  times_1_3 : nat -> num;           (* [n * 1.3] *)
  plus : num -> num -> num;         (* [a + b] *)
  gt : num -> Z -> bool             (* [a > k] for an integer [k] *)
}.

(** Exact decimal arithmetic, a number being counted in tenths. *)
Definition decimal : arith :=
  {| num := Z;
     zero := 0%Z;
     times_1_3 := fun n => (13 * Z.of_nat n)%Z;
     plus := Z.add;
     gt := fun a k => (10 * k <? a)%Z |}.

Module Chunker.

(** ['. '.join(current_chunk) + '.'] *)
Definition close_chunk (units : list str) : str :=
  join (txt ". ") units ++ txt ".".

(** The sentence-like units of a text: its pieces between periods, trimmed,
    the empty ones left out. *)
Definition units_of (text : str) : list str :=
  filter (fun u => truthy u) (map strip (split (txt ".") text)).

(** A unit as the loop keeps it: not empty, trimmed, without a period. *)
Definition clean (u : str) : Prop :=
  truthy u = true /\ strip u = u /\ ~ In 46%N u.

(** The units that make one chunk. *)
Definition group (g : list str) : Prop := g <> [] /\ Forall clean g.

Section WithArith.
Variable A : arith.

(** The three variables the loop of [chunk_content] updates. *)
Record state := mkState {
  chunks : list str;
  current_chunk : list str;
  current_size : num A
}.

Definition init : state :=
  {| chunks := []; current_chunk := []; current_size := zero A |}.

(** [len(sentence.split()) * 1.3] *)
Definition size_of (sentence : str) : num A :=
  times_1_3 A (length (split_ws sentence)).

(** One round of the [for sentence in sentences] loop. *)
Definition step (config : Config) (st : state) (sentence : str) : state :=
  let sentence := strip sentence in
  if negb (truthy sentence) then st
  else
    let sentence_size := size_of sentence in
    if gt A (plus A (current_size st) sentence_size) (chunk_size config) then
      {| chunks :=
           if truthy (current_chunk st)
           then chunks st ++ [close_chunk (current_chunk st)]
           else chunks st;
         current_chunk := [sentence];
         current_size := sentence_size |}
    else
      {| chunks := chunks st;
         current_chunk := current_chunk st ++ [sentence];
         current_size := plus A (current_size st) sentence_size |}.

Definition chunk_content (content : str) (config : Config) : list str :=
  let sentences := split (txt ".") (replace [10%N] (txt " ") content) in
  let st := fold_left (step config) sentences init in
  if truthy (current_chunk st)
  then chunks st ++ [close_chunk (current_chunk st)]
  else chunks st.

(** The size estimate of a sequence of units, summed in the order the loop
    adds them. *)
Definition estimate (units : list str) : num A :=
  fold_left (fun acc u => plus A acc (size_of u)) units (zero A).

(** The size estimate of a chunk: that of the units it is made of. *)
Definition chunk_estimate (chunk : str) : num A := estimate (units_of chunk).

(** A chunk's units stay within the budget unless there is only one. *)
Definition within (k : Z) (g : list str) : Prop :=
  (exists u, g = [u]) \/ gt A (estimate g) k = false.

End WithArith.

Arguments chunks {A} _.
Arguments current_chunk {A} _.
Arguments current_size {A} _.

End Chunker.

(** ** Exceptions *)

(** The exceptions the script can meet, all of them subclasses of
    [Exception]. *)
Inductive exn :=
| JSONDecodeError
| AttributeError
| TypeError
| KeyError
| IndexError
| ValueError
| FileNotFoundError
| OtherError.

(** A computation returns a value or raises. *)
Inductive result (A : Type) :=
| Ok (a : A)
| Raise (e : exn).

Arguments Ok {A} a.
Arguments Raise {A} e.

Definition bind {A B} (r : result A) (k : A -> result B) : result B :=
  match r with
  | Ok a => k a
  | Raise e => Raise e
  end.

Notation "x <- r ;; k" := (bind r (fun x => k))
  (at level 61, r at next level, right associativity).

(** [try: body except E: handler] for one exception class. *)
Definition try_except {A} (body : result A) (E : exn -> bool) (handler : result A)
  : result A :=
  match body with
  | Ok a => Ok a
  | Raise e => if E e then handler else Raise e
  end.

Definition is_JSONDecodeError (e : exn) : bool :=
  match e with JSONDecodeError => true | _ => false end.

Definition is_FileNotFoundError (e : exn) : bool :=
  match e with FileNotFoundError => true | _ => false end.

(** [except Exception] catches every exception of the model. *)
Definition is_Exception (e : exn) : bool := true.

(** ** JSON *)

(** What the script needs of Python's floats to read and write JSON:
    [float(literal)], the three named constants, the text [json.dump]
    writes for a float, and [bool(x)].  The floats themselves are left to
    the interpreter: the development holds for every such codec. *)
Record float_codec := mkCodec {
  float : Type;
  parse_float : str -> float;
  NaN : float;
  PosInf : float;
  NegInf : float;
  float_repr : float -> str;
  float_bool : float -> bool
}.

(** A codec that keeps a number as the literal it was read from, the way
    a decoder does that is given [parse_float=str]; a literal is true when
    a digit of its mantissa is not zero, or when it is a named constant. *)
Definition literal_floats : float_codec :=
  {| float := str;
     parse_float := fun lit => lit;
     NaN := txt "NaN";
     PosInf := txt "Infinity";
     NegInf := txt "-Infinity";
     float_repr := fun lit => lit;
     float_bool := fun lit =>
       (fix mantissa (l : str) : bool :=
          match l with
          | [] => false
          | c :: l' =>
              if ((c =? 101) || (c =? 69))%N then false
              else ((49 <=? c) && (c <=? 57) || (c =? 78) || (c =? 73))%N
                   || mantissa l'
          end) lit |}.

Module Json.

(** *** Dictionaries, in insertion order *)

Section Dict.
Context {V : Type}.

Definition dict := list (str * V).

(** [d[k] = v]: an existing key keeps its place. *)
Fixpoint dict_set (k : str) (v : V) (d : dict) : dict :=
  match d with
  | [] => [(k, v)]
  | (k', v') :: d' =>
      if str_eqb k k' then (k', v) :: d' else (k', v') :: dict_set k v d'
  end.

(** [d.get(k)] *)
Fixpoint dict_get (k : str) (d : dict) : option V :=
  match d with
  | [] => None
  | (k', v') :: d' => if str_eqb k k' then Some v' else dict_get k d'
  end.

(** [k in d] *)
Definition has_key (k : str) (d : dict) : bool :=
  match dict_get k d with Some _ => true | None => false end.

(** [dict(pairs)] *)
Definition dict_of_pairs (pairs : list (str * V)) : dict :=
  fold_left (fun d kv => dict_set (fst kv) (snd kv) d) pairs [].

End Dict.

Section WithFloats.
Variable F : float_codec.

(** *** Values *)

(** What [json.loads] returns: [None], [bool], [int], [float], [str],
    [list] and [dict] with string keys. *)
#[warnings="-register-all"]
Inductive value :=
| JNull
| JBool (b : bool)
| JInt (z : Z)
| JFloat (f : float F)
| JStr (s : str)
| JList (l : list value)
| JDict (d : list (str * value)).

(** *** Decoding: [json.loads] *)

(** The whitespace of JSON: space, tab, line feed, carriage return. *)
Definition is_ws (c : char) : bool :=
  ((c =? 32) || (c =? 9) || (c =? 10) || (c =? 13))%N.

Fixpoint skip_ws (s : str) : str :=
  match s with
  | [] => []
  | c :: s' => if is_ws c then skip_ws s' else s
  end.

Definition isdigit (c : char) : bool := ((48 <=? c) && (c <=? 57))%N.

Fixpoint span_digits (s : str) : str * str :=
  match s with
  | [] => ([], [])
  | c :: s' =>
      if isdigit c then let (d, r) := span_digits s' in (c :: d, r)
      else ([], s)
  end.

(** The number at the head of [s]: whether it is a float, its text and
    what follows.  An optional minus sign; then a zero, or a digit that is
    not zero and any digits; then, if present, a point and one digit or
    more; then, if present, [e] or [E], an optional sign and one digit or
    more. *)
Definition take_sign (s : str) : str * str :=
  match s with
  | c :: s' => if (c =? 45)%N then ([c], s') else ([], s)
  | [] => ([], s)
  end.

Definition take_int (s : str) : option (str * str) :=
  match s with
  | [] => None
  | c :: s' =>
      if ((49 <=? c) && (c <=? 57))%N
      then let (d, r) := span_digits s' in Some (c :: d, r)
      else if (c =? 48)%N then Some ([c], s')
      else None
  end.

Definition take_frac (s : str) : str * str :=
  match s with
  | p :: d :: r =>
      if (p =? 46)%N && isdigit d
      then let (ds, r') := span_digits r in (p :: d :: ds, r')
      else ([], s)
  | _ => ([], s)
  end.

Definition take_exp (s : str) : str * str :=
  match s with
  | e :: r =>
      if ((e =? 101) || (e =? 69))%N then
        let (esign, r1) :=
          match r with
          | sg :: r' =>
              if ((sg =? 45) || (sg =? 43))%N then ([sg], r') else ([], r)
          | [] => ([], r)
          end in
        let (ds, r2) := span_digits r1 in
        if truthy ds then (e :: esign ++ ds, r2) else ([], s)
      else ([], s)
  | [] => ([], s)
  end.

Definition match_number (s : str) : option (bool * str * str) :=
  let (sign, s1) := take_sign s in
  match take_int s1 with
  | None => None
  | Some (ip, s3) =>
      let (frac, s4) := take_frac s3 in
      let (exp, s5) := take_exp s4 in
      Some (truthy frac || truthy exp, sign ++ ip ++ frac ++ exp, s5)
  end.

(** [int(text)] for the text of an integer matched above. *)
Definition digits_value (ds : str) : N :=
  fold_left (fun acc c => (10 * acc + (c - 48))%N) ds 0%N.

Definition parse_int (text : str) : Z :=
  match text with
  | c :: ds =>
      if (c =? 45)%N then (- Z.of_N (digits_value ds))%Z
      else Z.of_N (digits_value text)
  | [] => 0%Z
  end.

Definition hex_value (c : char) : option N :=
  if ((48 <=? c) && (c <=? 57))%N then Some (c - 48)%N
  else if ((97 <=? c) && (c <=? 102))%N then Some (c - 87)%N
  else if ((65 <=? c) && (c <=? 70))%N then Some (c - 55)%N
  else None.

Definition hex4 (a b c d : char) : option N :=
  match hex_value a, hex_value b, hex_value c, hex_value d with
  | Some x, Some y, Some z, Some w => Some (((x * 16 + y) * 16 + z) * 16 + w)%N
  | _, _, _, _ => None
  end.

Definition is_high_surrogate (c : N) : bool := ((55296 <=? c) && (c <=? 56319))%N.
Definition is_low_surrogate (c : N) : bool := ((56320 <=? c) && (c <=? 57343))%N.
Definition join_surrogates (hi lo : N) : N :=
  (65536 + (hi - 55296) * 1024 + (lo - 56320))%N.

(** The character a one-letter escape stands for. *)
Definition unescape (c : char) : option char :=
  if (c =? 34)%N then Some 34%N          (* a double quote *)
  else if (c =? 92)%N then Some 92%N     (* a backslash *)
  else if (c =? 47)%N then Some 47%N     (* a slash *)
  else if (c =? 98)%N then Some 8%N      (* b: backspace *)
  else if (c =? 102)%N then Some 12%N    (* f: form feed *)
  else if (c =? 110)%N then Some 10%N    (* n: line feed *)
  else if (c =? 114)%N then Some 13%N    (* r: carriage return *)
  else if (c =? 116)%N then Some 9%N     (* t: tab *)
  else None.

Definition cons_char (c : char) (r : option (str * str)) : option (str * str) :=
  match r with
  | Some (s, rest) => Some (c :: s, rest)
  | None => None
  end.

(** Whether the text begins with the character [c]. *)
Definition head_is (c : char) (s : str) : bool :=
  match s with
  | d :: _ => (d =? c)%N
  | [] => false
  end.

(** The string whose opening quote has just been read, and what follows
    its closing quote; in strict mode, so that a control character ends
    the decoding. *)
Fixpoint scanstring (s : str) : option (str * str) :=
  match s with
  | [] => None
  | c :: s1 =>
      if (c =? 34)%N then Some ([], s1)
      else if (c =? 92)%N then
        match s1 with
        | [] => None
        | e :: s2 =>
            if (e =? 117)%N then
              match s2 with
              | h1 :: h2 :: h3 :: h4 :: s3 =>
                  match hex4 h1 h2 h3 h4 with
                  | None => None
                  | Some u1 =>
                      if is_high_surrogate u1 then
                        match s3 with
                        | b :: u :: g1 :: g2 :: g3 :: g4 :: s4 =>
                            if ((b =? 92) && (u =? 117))%N then
                              match hex4 g1 g2 g3 g4 with
                              | None => None
                              | Some u2 =>
                                  if is_low_surrogate u2
                                  then cons_char (join_surrogates u1 u2)
                                                 (scanstring s4)
                                  else cons_char u1 (scanstring s3)
                              end
                            else cons_char u1 (scanstring s3)
                        | _ => cons_char u1 (scanstring s3)
                        end
                      else cons_char u1 (scanstring s3)
                  end
              | _ => None
              end
            else
              match unescape e with
              | Some x => cons_char x (scanstring s2)
              | None => None
              end
        end
      else if (c <=? 31)%N then None
      else cons_char c (scanstring s1)
  end.

(** The outcome of scanning one construct: what was read and the rest of
    the text, or a decoding error, or too little fuel to tell. *)
Inductive scan (A : Type) :=
| Scanned (a : A) (rest : str)
| Invalid
| NoFuel.

Arguments Scanned {A} a rest.
Arguments Invalid {A}.
Arguments NoFuel {A}.

(** The value at the head of a text that begins with none of a quote, a
    brace and a bracket: a name or a number. *)
Definition scan_atom (s : str) : scan value :=
  if startswith (txt "null") s then Scanned JNull (skipn 4 s)
  else if startswith (txt "true") s then Scanned (JBool true) (skipn 4 s)
  else if startswith (txt "false") s then Scanned (JBool false) (skipn 5 s)
  else if startswith (txt "NaN") s then Scanned (JFloat (NaN F)) (skipn 3 s)
  else if startswith (txt "Infinity") s
       then Scanned (JFloat (PosInf F)) (skipn 8 s)
  else if startswith (txt "-Infinity") s
       then Scanned (JFloat (NegInf F)) (skipn 9 s)
  else
    match match_number s with
    | Some (true, text, r) => Scanned (JFloat (parse_float F text)) r
    | Some (false, text, r) => Scanned (JInt (parse_int text)) r
    | None => Invalid
    end.

(** [scan_once] reads the value at the head of the text, [parse_items] the
    items of an array after its bracket and [parse_members] the members of
    an object after its brace.  The recursion is on [fuel], one unit for
    each value and each item. *)
Fixpoint scan_once (fuel : nat) (s : str) {struct fuel} : scan value :=
  match fuel with
  | O => NoFuel
  | S fuel' =>
      if head_is 34%N s then
        match scanstring (tl s) with
        | Some (x, r) => Scanned (JStr x) r
        | None => Invalid
        end
      else if head_is 123%N s then
        let s1 := skip_ws (tl s) in
        if head_is 125%N s1 then Scanned (JDict []) (tl s1)
        else
          match parse_members fuel' s1 with
          | Scanned pairs r => Scanned (JDict (dict_of_pairs pairs)) r
          | Invalid => Invalid
          | NoFuel => NoFuel
          end
      else if head_is 91%N s then
        let s1 := skip_ws (tl s) in
        if head_is 93%N s1 then Scanned (JList []) (tl s1)
        else
          match parse_items fuel' s1 with
          | Scanned items r => Scanned (JList items) r
          | Invalid => Invalid
          | NoFuel => NoFuel
          end
      else scan_atom s
  end

with parse_items (fuel : nat) (s : str) {struct fuel} : scan (list value) :=
  match fuel with
  | O => NoFuel
  | S fuel' =>
      match scan_once fuel' s with
      | Scanned v r =>
          let r1 := skip_ws r in
          if head_is 93%N r1 then Scanned [v] (tl r1)
          else if head_is 44%N r1 then
            match parse_items fuel' (skip_ws (tl r1)) with
            | Scanned vs r2 => Scanned (v :: vs) r2
            | Invalid => Invalid
            | NoFuel => NoFuel
            end
          else Invalid
      | Invalid => Invalid
      | NoFuel => NoFuel
      end
  end

with parse_members (fuel : nat) (s : str) {struct fuel}
  : scan (list (str * value)) :=
  match fuel with
  | O => NoFuel
  | S fuel' =>
      if head_is 34%N s then
        match scanstring (tl s) with
        | None => Invalid
        | Some (key, r) =>
            let r1 := skip_ws r in
            if head_is 58%N r1 then
              match scan_once fuel' (skip_ws (tl r1)) with
              | Scanned v r2 =>
                  let r3 := skip_ws r2 in
                  if head_is 125%N r3 then Scanned [(key, v)] (tl r3)
                  else if head_is 44%N r3 then
                    match parse_members fuel' (skip_ws (tl r3)) with
                    | Scanned kvs r4 => Scanned ((key, v) :: kvs) r4
                    | Invalid => Invalid
                    | NoFuel => NoFuel
                    end
                  else Invalid
              | Invalid => Invalid
              | NoFuel => NoFuel
              end
            else Invalid
        end
      else Invalid
  end.

(** [json.loads(s)]: one value, whitespace allowed around it and nothing
    else.  The fuel given here is always enough.  The limits of the
    interpreter are not described: CPython's decoder also raises
    [ValueError] on an integer of more than 4300 digits and
    [RecursionError] on a nesting too deep for its stack, where [loads]
    decodes; what is proved of [loads] holds of the texts within those
    limits. *)
Definition loads (s : str) : result value :=
  if startswith [65279%N] s then Raise JSONDecodeError
  else
    match scan_once (S (2 * length s)) (skip_ws s) with
    | Scanned v r =>
        match skip_ws r with
        | [] => Ok v
        | _ :: _ => Raise JSONDecodeError
        end
    | Invalid => Raise JSONDecodeError
    | NoFuel => Raise JSONDecodeError
    end.

(** *** Encoding: [json.dump(data, f, indent=2, ensure_ascii=False)] *)

(** [repr] of an integer. *)
Fixpoint digits_of_uint (d : Decimal.uint) : str :=
  match d with
  | Decimal.Nil => []
  | Decimal.D0 d' => 48%N :: digits_of_uint d'
  | Decimal.D1 d' => 49%N :: digits_of_uint d'
  | Decimal.D2 d' => 50%N :: digits_of_uint d'
  | Decimal.D3 d' => 51%N :: digits_of_uint d'
  | Decimal.D4 d' => 52%N :: digits_of_uint d'
  | Decimal.D5 d' => 53%N :: digits_of_uint d'
  | Decimal.D6 d' => 54%N :: digits_of_uint d'
  | Decimal.D7 d' => 55%N :: digits_of_uint d'
  | Decimal.D8 d' => 56%N :: digits_of_uint d'
  | Decimal.D9 d' => 57%N :: digits_of_uint d'
  end.

Definition int_repr (z : Z) : str :=
  match z with
  | Z0 => [48%N]
  | Zpos p => digits_of_uint (Pos.to_uint p)
  | Zneg p => 45%N :: digits_of_uint (Pos.to_uint p)
  end.

(** One hexadecimal digit, in lower case. *)
Definition hex_digit (n : N) : char :=
  (if n <? 10 then 48 + n else 87 + n)%N.

(** The text written for one character of a string: the quote, the
    backslash and the control characters are escaped, every other
    character is written as it is. *)
Definition escape_char (c : char) : str :=
  if (c =? 34)%N then [92; 34]%N
  else if (c =? 92)%N then [92; 92]%N
  else if (c =? 10)%N then [92; 110]%N
  else if (c =? 13)%N then [92; 114]%N
  else if (c =? 9)%N then [92; 116]%N
  else if (c =? 8)%N then [92; 98]%N
  else if (c =? 12)%N then [92; 102]%N
  else if (c <? 32)%N
       then [92; 117; 48; 48; hex_digit (c / 16); hex_digit (c mod 16)]%N
  else [c].

Definition encode_basestring (s : str) : str :=
  34%N :: flat_map escape_char s ++ [34%N].

(** A line break and the indentation of a nesting level. *)
Definition newline_indent (indent level : nat) : str :=
  10%N :: repeat 32%N (indent * level).

Fixpoint encode (indent level : nat) (v : value) : str :=
  match v with
  | JNull => txt "null"
  | JBool true => txt "true"
  | JBool false => txt "false"
  | JInt z => int_repr z
  | JFloat f => float_repr F f
  | JStr s => encode_basestring s
  | JList [] => txt "[]"
  | JList l =>
      txt "[" ++ newline_indent indent (S level)
      ++ join (txt "," ++ newline_indent indent (S level))
              (map (encode indent (S level)) l)
      ++ newline_indent indent level ++ txt "]"
  | JDict [] => txt "{}"
  | JDict d =>
      txt "{" ++ newline_indent indent (S level)
      ++ join (txt "," ++ newline_indent indent (S level))
              (map (fun kv : str * value =>
                      let (k, x) := kv in
                      encode_basestring k ++ txt ": "
                      ++ encode indent (S level) x) d)
      ++ newline_indent indent level ++ txt "}"
  end.

(** The text [json.dump] writes with [indent=2]. *)
Definition dumps (v : value) : str := encode 2 0 v.

(** *** Values that are written and read back *)

(** The text of a float: what [match_number] reads whole, as a float. *)
Definition float_literal (text : str) : Prop :=
  match_number text = Some (true, text, []).

(** The text written for [f] is read back as [f]: it is a literal whose
    float is [f], or the name of the constant that [f] is. *)
Definition reads_back (f : float F) : Prop :=
  (float_literal (float_repr F f) /\ parse_float F (float_repr F f) = f)
  \/ (float_repr F f = txt "NaN" /\ f = NaN F)
  \/ (float_repr F f = txt "Infinity" /\ f = PosInf F)
  \/ (float_repr F f = txt "-Infinity" /\ f = NegInf F).

(** The law of a codec: the text written for a float that was read from a
    literal, or for a constant, is read back as that float.  For Python's
    floats this is the round trip of [repr]. *)
Definition lawful : Prop :=
  (forall text, float_literal text -> reads_back (parse_float F text))
  /\ reads_back (NaN F) /\ reads_back (PosInf F) /\ reads_back (NegInf F).

(** The values a decoder can return: their floats are read back and no
    dictionary has a key twice. *)
Fixpoint wf (v : value) : Prop :=
  match v with
  | JFloat f => reads_back f
  | JList l => fold_right (fun x acc => wf x /\ acc) True l
  | JDict d =>
      NoDup (map fst d)
      /\ fold_right (fun (kv : str * value) acc =>
                       (let (_, x) := kv in wf x) /\ acc) True d
  | _ => True
  end.

(** Fuel enough to read a value back from its text. *)
Fixpoint need (v : value) : nat :=
  match v with
  | JList l => S (fold_right (fun x acc => S (need x + acc)) 0 l)
  | JDict d =>
      S (fold_right (fun (kv : str * value) acc =>
                       S ((let (_, x) := kv in need x) + acc)) 0 d)
  | _ => 1
  end.

(** A text that does not begin with a digit. *)
Definition notdigit (t : str) : bool :=
  match t with
  | [] => true
  | c :: _ => negb (isdigit c)
  end.

(** A text that ends a number: empty, or one that begins with neither a
    digit, a point nor an exponent mark. *)
Definition stops (t : str) : bool :=
  match t with
  | [] => true
  | c :: _ => negb (isdigit c || (c =? 46) || (c =? 101) || (c =? 69))%N
  end.

(** The fuel for the items of a list and for the members of a
    dictionary. *)
Definition items_need (l : list value) : nat :=
  fold_right (fun x acc => S (need x + acc)) 0 l.

Definition members_need (d : list (str * value)) : nat :=
  fold_right (fun (kv : str * value) acc =>
                S ((let (_, x) := kv in need x) + acc)) 0 d.

(** The text of a member: its key, a colon and a space, its value. *)
Definition member_text (indent level : nat) (kv : str * value) : str :=
  let (k, x) := kv in
  encode_basestring k ++ txt ": " ++ encode indent (S level) x.

(** A text that can follow a value in the text of an enclosing value:
    empty, or one that begins with a comma or a line feed. *)
Definition follows (t : str) : bool :=
  match t with
  | [] => true
  | c :: _ => ((c =? 44) || (c =? 10))%N
  end.


(** Reading a value back from its text, whatever follows it at whatever
    nesting level. *)
Definition read_back (indent : nat) (v : value) : Prop :=
  forall level rest fuel,
    follows rest = true -> need v <= fuel ->
    scan_once fuel (encode indent level v ++ rest) = Scanned v rest.

End WithFloats.

Arguments Scanned {A} a rest.
Arguments Invalid {A}.
Arguments NoFuel {A}.
Arguments JNull {F}.
Arguments JBool {F} b.
Arguments JInt {F} z.
Arguments JFloat {F} f.
Arguments JStr {F} s.
Arguments JList {F} l.
Arguments JDict {F} d.

End Json.

(** ** The scraper *)

Definition SYSTEM_MESSAGE : str :=
  txt "You are an intelligent text extraction and conversion assistant. Your task is to extract structured information "
  ++ [10%N]
  ++ txt "from the given text and convert it into a pure JSON format. The JSON should contain only the structured data extracted from the text, "
  ++ [10%N]
  ++ txt "with no additional commentary, explanations, or extraneous information.".

(** The keyword arguments of [requests.post]: the endpoint, the bearer
    token of the [Authorization] header, and the JSON body.  The content
    type, the temperature [0.1], the response format [json_object] and the
    timeout of 60 seconds are the same in every request. *)
Record request := mkRequest {
  api_url : str;
  bearer : str;
  req_model : str;
  system_content : str;
  user_content : str;
  req_max_tokens : Z
}.

(** What [requests.post] does: it returns a response, of which the script
    reads the status code and the body, or it raises. *)
Inductive http_outcome :=
| Responded (status_code : Z) (text : str)
| PostRaised (e : exn).

Module Scraper.
Import Json.

Section WithFloats.
Variable F : float_codec.

Local Abbreviation value := (Json.value F).

(** *** Python objects *)

(** [bool(x)] *)
Definition truth (v : value) : bool :=
  match v with
  | JNull => false
  | JBool b => b
  | JInt z => negb (z =? 0)%Z
  | JFloat f => float_bool F f
  | JStr s => truthy s
  | JList l => truthy l
  | JDict d => truthy d
  end.

(** [isinstance(x, dict)] *)
Definition is_dict (v : value) : bool :=
  match v with JDict _ => true | _ => false end.

(** [k in x] for a dictionary [x]; the script makes this test on nothing
    else. *)
Definition key_in (k : str) (v : value) : bool :=
  match v with JDict d => has_key k d | _ => false end.

(** [x.get(k)]; a missing key gives [None]. *)
Definition get (k : str) (v : value) : result value :=
  match v with
  | JDict d => Ok (match dict_get k d with Some x => x | None => JNull end)
  | _ => Raise AttributeError
  end.

(** [x[k]] for a string [k] *)
Definition subscript (v : value) (k : str) : result value :=
  match v with
  | JDict d =>
      match dict_get k d with
      | Some x => Ok x
      | None => Raise KeyError
      end
  | _ => Raise TypeError
  end.

(** [x[i]] for an index [i] that is not negative; a decoded dictionary has
    no integer key. *)
Definition item (v : value) (i : nat) : result value :=
  match v with
  | JList l =>
      match nth_error l i with
      | Some x => Ok x
      | None => Raise IndexError
      end
  | JStr s =>
      match nth_error s i with
      | Some c => Ok (JStr [c])
      | None => Raise IndexError
      end
  | JDict _ => Raise KeyError
  | _ => Raise TypeError
  end.

(** [x.strip()]: only a string has the method. *)
Definition strip_method (v : value) : result str :=
  match v with
  | JStr s => Ok (strip s)
  | _ => Raise AttributeError
  end.

(** [s.split(sep)], as the list object it returns. *)
Definition split_method (sep : str) (v : value) : result value :=
  match v with
  | JStr s => Ok (JList (map JStr (split sep s)))
  | _ => Raise AttributeError
  end.

(** [x[k] = y] for a string [k] *)
Definition setitem (v : value) (k : str) (y : value) : result value :=
  match v with
  | JDict d => Ok (JDict (dict_set k y d))
  | _ => Raise TypeError
  end.

(** [list(x)], the items [for] and [extend] take from [x]. *)
Definition iterate (v : value) : result (list value) :=
  match v with
  | JList l => Ok l
  | JStr s => Ok (map (fun c => JStr [c]) s)
  | JDict d => Ok (map (fun kv => JStr (fst kv)) d)
  | _ => Raise TypeError
  end.

(** *** [parse_api_response] *)

Definition empty_listings : value := JDict [(txt "listings", JList [])].

(** The text handed to [json.loads]: the [try] block down to the
    assignment of [json_text]. *)
Definition select_json_text (response_text : str) : result str :=
  if contains (txt "```json") response_text then
    tail <- item (JList (map JStr (split (txt "```json") response_text))) 1 ;;
    pieces <- split_method (txt "```") tail ;;
    strip_method pieces
  else if contains (txt "```") response_text then
    piece <- item (JList (map JStr (split (txt "```") response_text))) 1 ;;
    strip_method piece
  else
    let start_idx := find 123%N response_text in
    let end_idx := (rfind 125%N response_text + 1)%Z in
    Ok (if negb (start_idx =? -1)%Z && (end_idx >? start_idx)%Z
        then slice start_idx end_idx response_text
        else response_text).

(** The two [if] statements after the decoding. *)
Definition normalise (result : value) : value :=
  if negb (is_dict result) then empty_listings
  else if negb (key_in (txt "listings") result) then
    if is_dict result then JDict [(txt "listings", JList [result])]
    else empty_listings
  else result.

Definition parse_api_response (response_text : str) : result value :=
  try_except
    (json_text <- select_json_text response_text ;;
     result <- loads F json_text ;;
     Ok (normalise result))
    is_JSONDecodeError
    (Ok empty_listings).

(** *** [process_with_api] *)

(** [len(s.split())] *)
Definition word_count (s : str) : Z := Z.of_nat (length (split_ws s)).

Definition user_prompt (content : str) (fields : list str) : str :=
  txt "Extract the following fields from the content: "
  ++ join (txt ", ") fields ++ [10%N]
  ++ txt "        Format the output EXACTLY as:" ++ [10%N]
  ++ txt "        {" ++ [10%N]
  ++ txt "            " ++ [34%N] ++ txt "listings" ++ [34%N] ++ txt ": [" ++ [10%N]
  ++ txt "                {"
  ++ join (txt ", ")
       (map (fun field => [34%N] ++ field ++ [34%N] ++ txt ": "
                          ++ [34%N] ++ txt "value" ++ [34%N]) fields)
  ++ txt "}" ++ [10%N]
  ++ txt "            ]" ++ [10%N]
  ++ txt "        }" ++ [10%N]
  ++ txt "        " ++ [10%N]
  ++ txt "        Content: " ++ content.

(** The request the function builds before it calls the endpoint. *)
Definition build_request (content : str) (fields : list str) (config : Config)
  : request :=
  let system_prompt := SYSTEM_MESSAGE in
  let user_prompt := user_prompt content fields in
  let (api_url, key) :=
    if str_eqb (api_provider config) (txt "together")
    then (txt "https://api.together.xyz/v1/chat/completions",
          together_api_key config)
    else (txt "https://api.groq.com/openai/v1/chat/completions",
          groq_api_key config) in
  let prompt_tokens := (word_count system_prompt + word_count user_prompt)%Z in
  let max_output :=
    Z.min (max_output_tokens config) (max_tokens config - prompt_tokens) in
  {| api_url := api_url;
     bearer := key;
     req_model := model config;
     system_content := system_prompt;
     user_content := user_prompt;
     req_max_tokens := max_output |}.

(** What the function does with the outcome of the call. *)
Definition handle_outcome (outcome : http_outcome) : result value :=
  match outcome with
  | PostRaised e => Raise e
  | Responded status_code text =>
      if (status_code =? 200)%Z then
        response_data <- loads F text ;;
        choices <- subscript response_data (txt "choices") ;;
        choice <- item choices 0 ;;
        message <- subscript choice (txt "message") ;;
        content <- subscript message (txt "content") ;;
        response_text <- strip_method content ;;
        parse_api_response response_text
      else Ok empty_listings
  end.

(** [process_with_api], the endpoint being the function [post]. *)
Definition process_with_api (post : request -> http_outcome)
  (content : str) (fields : list str) (config : Config) : result value :=
  try_except
    (handle_outcome (post (build_request content fields config)))
    is_Exception
    (Ok empty_listings).

(** *** The world outside the script *)

(** What the script is given by the files it opens, the libraries it calls
    and the network.  [read_file] is the text of a file that is opened and
    read to its end, or [None] when [open] raises [FileNotFoundError] (a
    file that is there but cannot be opened or decoded is not described);
    [lower] and [int_of] are the built-ins [str.lower] and [int];
    [new_user_agent] is the construction of the user-agent generator;
    [netloc] is [urlparse(url).netloc]; [fetch_page_content] and
    [html_to_markdown] are the two functions of that name, which only drive
    the browser and the HTML libraries; [post] is [requests.post];
    [data_frame] is the construction of the [pandas] table of the listings;
    [write_file] is what becomes of a file that [save_results] writes, with
    [json.dump], [to_csv] or [to_excel]: the call returns, or it raises, as
    [json.dump] does on a text that cannot be encoded and [to_excel] on a
    character that a sheet cannot hold.  The fetcher, the endpoint and the
    writers may answer the same question differently as the run goes on:
    they are given the number of events the run has made so far. *)
Record env := mkEnv {
  read_file : str -> option str;
  lower : str -> str;
  int_of : str -> result Z;
  new_user_agent : result unit;
  netloc : str -> result str;
  fetch_page_content : nat -> str -> result str;
  html_to_markdown : str -> result str;
  post : nat -> request -> http_outcome;
  data_frame : nat -> result unit;
  write_file : nat -> str -> result unit
}.

(** The messages [Config], [main] and [save_results] print. *)
Inductive message :=
| ConfigFileNotFound                   (* Config file not found. Using default values. *)
| UrlsFileNotFound                     (* URLs file not found. *)
| FieldsFileNotFound                   (* Fields file not found. *)
| NoUrlsOrFields                       (* No URLs or fields found. ... *)
| Processing (url domain : str)        (* Processing url (Domain: domain)... *)
| ContentLength (n : nat)              (* Content length: n characters *)
| SplitInto (n : nat)                  (* Split into n chunks *)
| ProcessingChunk (i n : nat)          (* Processing chunk i/n *)
| ResultsSaved (domain : str)          (* Results saved for domain: domain *)
| ErrorSaving (domain : str) (e : exn) (* Error saving results for domain: ... *)
| Completed (domain : str)             (* Completed processing domain: domain *)
| TotalItems (n : nat)                 (* Total items extracted: n *)
| AnErrorOccurred (e : exn).           (* An error occurred: ... *)

(** What a run does to the world, in the order it does it.  The file
    system is taken to accept every directory the script makes.  An event
    [WroteJson], [WroteCsv] or [WroteXlsx] is the statement that writes the
    file being run, with the data it is given: whether the file is written
    whole is what [write_file] says next.  The diagnostics printed inside
    [process_with_api] and [parse_api_response] are not recorded. *)
Inductive event :=
| Printed (m : message)
| MadeDir (path : str)
| Fetched (url : str)
| Posted (r : request)
| Slept (seconds : Z)
| WroteJson (path : str) (data : value)
| WroteCsv (path : str) (rows : value)
| WroteXlsx (path : str) (rows : value).

(** A step of the run: from the events so far to a value or an exception,
    and the events then. *)
Definition M (A : Type) : Type := list event -> result A * list event.

Definition ret {A} (a : A) : M A := fun tr => (Ok a, tr).

Definition bindM {A B} (m : M A) (k : A -> M B) : M B :=
  fun tr =>
    match m tr with
    | (Ok a, tr') => k a tr'
    | (Raise e, tr') => (Raise e, tr')
    end.

Notation "x <~ m ;; k" := (bindM m (fun x => k))
  (at level 61, m at next level, right associativity).
Notation "m ;;; k" := (bindM m (fun _ => k))
  (at level 61, right associativity).

Definition emit (e : event) : M unit := fun tr => (Ok tt, tr ++ [e]).

Definition lift {A} (r : result A) : M A := fun tr => (r, tr).

Definition clock : M nat := fun tr => (Ok (length tr), tr).

(** [try: m except Exception as e: handler e] *)
Definition try_M {A} (m : M A) (handler : exn -> M A) : M A :=
  fun tr =>
    match m tr with
    | (Ok a, tr') => (Ok a, tr')
    | (Raise e, tr') => handler e tr'
    end.

(** [for a in l: s = body a s] *)
Fixpoint for_each {A S} (l : list A) (body : A -> S -> M S) (s : S) : M S :=
  match l with
  | [] => ret s
  | a :: l' => s' <~ body a s ;; for_each l' body s'
  end.

Section WithEnv.
Variable A : arith.
Variable E : env.

(** *** [Config] *)

(** The lines a text file is read by; a line's end is stripped by every
    reader of the script. *)
Definition lines (content : str) : list str := split [10%N] content.

(** One [key=value] line as the pair [dict] makes of it. *)
Definition key_value (line : str) : result (str * str) :=
  match split1 (txt "=") (strip line) with
  | [k; v] => Ok (k, v)
  | _ => Raise ValueError
  end.

Fixpoint key_values (ls : list str) : result (list (str * str)) :=
  match ls with
  | [] => Ok []
  | line :: ls' =>
      if contains (txt "=") line then
        kv <- key_value line ;;
        kvs <- key_values ls' ;;
        Ok (kv :: kvs)
      else key_values ls'
  end.

(** [config.get(key, default)] *)
Definition get_default (key : str) (default : str) (d : list (str * str)) : str :=
  match dict_get key d with Some v => v | None => default end.

(** The part of a [Config] that [load_config] sets. *)
Definition load_config : M Config :=
  match read_file E (txt "config.txt") with
  | Some content =>
      pairs <~ lift (key_values (lines content)) ;;
      let config := dict_of_pairs pairs in
      let api_provider :=
        lower E (get_default (txt "api_provider") (txt "together") config) in
      let is_groq := str_eqb api_provider (txt "groq") in
      let model := if is_groq then GROQ_MODEL else TOGETHER_MODEL in
      let together_api_key := get_default (txt "together_api_key") [] config in
      let groq_api_key := get_default (txt "groq_api_key") [] config in
      chunk_size <~ lift (match dict_get (txt "chunk_size") config with
                          | Some v => int_of E v
                          | None => Ok DEFAULT_CHUNK_SIZE
                          end) ;;
      let max_tokens := if is_groq then MAX_TOKENS_GROQ else MAX_TOKENS_TOGETHER in
      let max_output_tokens := if is_groq then MAX_OUTPUT_TOKENS_GROQ else 4096%Z in
      ret (mkConfig api_provider model together_api_key groq_api_key
                    chunk_size max_tokens max_output_tokens [] [])
  | None =>
      emit (Printed ConfigFileNotFound) ;;;
      ret (mkConfig (txt "together") TOGETHER_MODEL [] []
                    DEFAULT_CHUNK_SIZE MAX_TOKENS_TOGETHER 4096%Z [] [])
  end.

(** [[line.strip() for line in f if line.strip()]] *)
Definition stripped_lines (content : str) : list str :=
  filter (fun l => truthy l) (map strip (lines content)).

Definition load_urls : M (list str) :=
  match read_file E (txt "urls.txt") with
  | Some content => ret (stripped_lines content)
  | None => emit (Printed UrlsFileNotFound) ;;; ret []
  end.

Definition load_fields : M (list str) :=
  match read_file E (txt "fields.txt") with
  | Some content => ret (stripped_lines content)
  | None => emit (Printed FieldsFileNotFound) ;;; ret []
  end.

(** [Config()] *)
Definition new_Config : M Config :=
  c <~ load_config ;;
  urls <~ load_urls ;;
  fields <~ load_fields ;;
  lift (new_user_agent E) ;;;
  ret (mkConfig (api_provider c) (model c) (together_api_key c)
                (groq_api_key c) (chunk_size c) (max_tokens c)
                (max_output_tokens c) urls fields).

(** *** [get_domain_name] *)

Definition get_domain_name (url : str) : str :=
  match netloc E url with
  | Ok domain =>
      if startswith (txt "www.") domain then skipn 4 domain else domain
  | Raise _ => txt "unknown_domain"
  end.

(** *** [save_results] *)

(** [os.path.join(a, b)] *)
Definition path_join (a b : str) : str :=
  if startswith (txt "/") b then b
  else if negb (truthy a) || startswith (txt "/") (rev a) then a ++ b
  else a ++ txt "/" ++ b.

Fixpoint map_result {X Y} (f : X -> result Y) (l : list X) : result (list Y) :=
  match l with
  | [] => Ok []
  | x :: l' =>
      y <- f x ;;
      ys <- map_result f l' ;;
      Ok (y :: ys)
  end.

(** [listing['source_url'] = urls] *)
Definition tag (urls : list str) (listing : value) : result value :=
  setitem listing (txt "source_url") (JList (map JStr urls)).

(** The loop that adds the source URLs: [data] after it, the listings
    being changed in place. *)
Definition add_source_urls (data : value) (urls : list str) : result value :=
  listings <- get (txt "listings") data ;;
  match data, listings with
  | JDict d, JList items =>
      items' <- map_result (tag urls) items ;;
      Ok (JDict (dict_set (txt "listings") (JList items') d))
  | _, _ =>
      items <- iterate (if key_in (txt "listings") data
                        then listings else JList []) ;;
      _ <- map_result (tag urls) items ;;
      Ok data
  end.

(** Writing a file: the statement is run, and the environment says
    whether it returns. *)
Definition write (wrote : event) (path : str) : M unit :=
  emit wrote ;;;
  now <~ clock ;;
  lift (write_file E now path).

Definition save_results (data : value) (domain : str) (urls : list str)
  (output_folder : str) : M unit :=
  emit (MadeDir output_folder) ;;;
  try_M
    (data' <~ lift (add_source_urls data urls) ;;
     let json_path := path_join output_folder (domain ++ txt "_results.json") in
     write (WroteJson json_path data') json_path ;;;
     listings <~ lift (get (txt "listings") data') ;;
     (if truth listings then
        now <~ clock ;;
        lift (data_frame E now) ;;;
        let csv_path := path_join output_folder (domain ++ txt "_results.csv") in
        write (WroteCsv csv_path listings) csv_path ;;;
        let excel_path := path_join output_folder (domain ++ txt "_results.xlsx") in
        write (WroteXlsx excel_path listings) excel_path
      else ret tt) ;;;
     emit (Printed (ResultsSaved domain)))
    (fun e => emit (Printed (ErrorSaving domain e))).

(** *** [main] *)

(** One round of the loop over the chunks of a page. *)
Definition chunk_round (config : Config) (total : nat)
  (numbered : nat * str) (chunk_results : list value) : M (list value) :=
  let (i, chunk) := numbered in
  emit (Printed (ProcessingChunk i total)) ;;;
  now <~ clock ;;
  emit (Posted (build_request chunk (fields config) config)) ;;;
  result <~ lift (process_with_api (post E now) chunk (fields config) config) ;;
  chunk_results' <~
    lift (if truth result then
            listings <- get (txt "listings") result ;;
            if truth listings then
              listings <- subscript result (txt "listings") ;;
              more <- iterate listings ;;
              Ok (chunk_results ++ more)
            else Ok chunk_results
          else Ok chunk_results) ;;
  emit (Slept 1) ;;;
  ret chunk_results'.

(** [enumerate(chunks, 1)] *)
Definition enumerate (chunks : list str) : list (nat * str) :=
  combine (seq 1 (length chunks)) chunks.

Definition base_output_folder : str := txt "scraping_results".

(** One round of the loop over the URLs. *)
Definition url_round (config : Config) (url : str)
  (domain_results : list (str * list value)) : M (list (str * list value)) :=
  let domain := get_domain_name url in
  emit (Printed (Processing url domain)) ;;;
  let output_folder := path_join base_output_folder domain in
  emit (MadeDir output_folder) ;;;
  now <~ clock ;;
  emit (Fetched url) ;;;
  html_content <~ lift (fetch_page_content E now url) ;;
  if negb (truthy html_content) then ret domain_results
  else
    markdown_content <~ lift (html_to_markdown E html_content) ;;
    emit (Printed (ContentLength (length markdown_content))) ;;;
    let chunks := Chunker.chunk_content A markdown_content config in
    emit (Printed (SplitInto (length chunks))) ;;;
    chunk_results <~ for_each (enumerate chunks)
                       (chunk_round config (length chunks)) [] ;;
    if truthy chunk_results then
      let so_far :=
        match dict_get domain domain_results with
        | Some l => l
        | None => []
        end in
      ret (dict_set domain (so_far ++ chunk_results) domain_results)
    else ret domain_results.

(** One round of the loop that saves the results of each domain. *)
Definition save_round (config : Config) (entry : str * list value) (_ : unit)
  : M unit :=
  let (domain, results) := entry in
  let combined_results := JDict [(txt "listings", JList results)] in
  let output_folder := path_join base_output_folder domain in
  save_results combined_results domain (urls config) output_folder ;;;
  emit (Printed (Completed domain)) ;;;
  emit (Printed (TotalItems (length results))).

Definition main_body : M unit :=
  try_M
    (config <~ new_Config ;;
     if negb (truthy (urls config)) || negb (truthy (fields config)) then
       emit (Printed NoUrlsOrFields)
     else
       emit (MadeDir base_output_folder) ;;;
       domain_results <~ for_each (urls config) (url_round config) [] ;;
       for_each domain_results (save_round config) tt)
    (fun e => emit (Printed (AnErrorOccurred e))).

(** The events of a run of [main]. *)
Definition main : list event := snd (main_body []).


End WithEnv.

End WithFloats.

Arguments ret {F A} a _.
Arguments bindM {F A B} m k _.
Arguments emit {F} e _.
Arguments lift {F A} r _.
Arguments clock {F} _.
Arguments try_M {F A} m handler _.
Arguments for_each {F A S} l body s _.
Arguments Printed {F} m.
Arguments MadeDir {F} path.
Arguments Fetched {F} url.
Arguments Posted {F} r.
Arguments Slept {F} seconds.
Arguments WroteJson {F} path data.
Arguments WroteCsv {F} path rows.
Arguments WroteXlsx {F} path rows.

(** What the specification calls a failed call: a status outside 200..299,
    or an exception. *)
Definition failed (outcome : http_outcome) : Prop :=
  match outcome with
  | Responded status_code _ => (status_code < 200 \/ 300 <= status_code)%Z
  | PostRaised _ => True
  end.

(** *** Vocabulary of the properties *)

Section Vocabulary.
Variable F : float_codec.

(** Every listing of [data] is a dictionary whose [source_url] is the list
    [urls]. *)
Definition tagged_with (urls : list str) (data : value F) : Prop :=
  exists records,
    data = JDict [(txt "listings", JList records)] /\
    Forall (fun r => exists d,
                r = JDict d /\
                dict_get (txt "source_url") d = Some (JList (map JStr urls)))
           records.

(** An event that is a file of results, every listing of which carries
    [urls]; any other event. *)
Definition results_tagged_with (urls : list str) (e : event F) : Prop :=
  match e with
  | WroteJson _ data => tagged_with urls data
  | _ => True
  end.

(** An event that is a printed message. *)
Definition is_message (e : event F) : Prop :=
  match e with
  | Printed _ => True
  | _ => False
  end.

(** A step keeps [P] true of every event. *)
Definition preserves {X} (P : event F -> Prop) (m : M F X) : Prop :=
  forall tr, Forall P tr -> Forall P (snd (m tr)).

End Vocabulary.

Arguments tagged_with {F} urls data.
Arguments results_tagged_with {F} urls e.
Arguments is_message {F} e.
Arguments preserves {F X} P m.

End Scraper.

(** ** Runs used as examples *)

Module Examples.
Import Json Scraper.

(** The configuration that [Config] builds when there is no [config.txt],
    with one field to extract. *)
Definition default_config : Config :=
  mkConfig (txt "together") TOGETHER_MODEL [] []
           DEFAULT_CHUNK_SIZE MAX_TOKENS_TOGETHER 4096 [] [txt "name"].

(** A text of 131072 words without a period. *)
Definition long_content : str :=
  concat (repeat (txt "a ") (N.to_nat 131072)).

(** A response fenced and labelled, as the specification describes it. *)
Definition fenced_json : str :=
  txt "```json" ++ [10%N] ++ qtxt "{'listings':[{'a':'1'}]}" ++ [10%N] ++ txt "```".

Definition listings_a1 : value literal_floats :=
  JDict [(txt "listings", JList [JDict [(txt "a", JStr (txt "1"))]])].

(** A response whose only record holds three backquotes, written with
    their escapes. *)
Definition backquotes : str :=
  qtxt "{'listings': [{'a': '\u0060\u0060\u0060'}]}".

Definition listings_backquotes : value literal_floats :=
  JDict [(txt "listings", JList [JDict [(txt "a", JStr (txt "```"))]])].

(** The body of a completion whose message is a listing named [n]. *)
Definition completion : str :=
  qtxt "{'choices':[{'message':{'content':'{\'listings\':[{\'name\':\'n\'}]}'}}]}".

Definition url_a : str := txt "https://a.com/x".
Definition url_b : str := txt "https://www.b.org/y".

(** A run whose [config.txt] sets the chunk size to 2, with two URLs of
    two domains and one field; each page is fetched and is two sentences,
    hence two chunks; the endpoint answers the first call, which is made
    when seven events have happened, with status 500 and the later ones
    with [completion]. *)
Definition two_domains : env :=
  {| read_file := fun path =>
       if str_eqb path (txt "config.txt") then Some (txt "chunk_size=2" ++ [10%N])
       else if str_eqb path (txt "urls.txt")
       then Some (url_a ++ [10%N] ++ url_b ++ [10%N])
       else if str_eqb path (txt "fields.txt") then Some (txt "name" ++ [10%N])
       else None;
     lower := fun s => s;
     int_of := fun s => if str_eqb s (txt "2") then Ok 2%Z else Raise ValueError;
     new_user_agent := Ok tt;
     netloc := fun url =>
       if str_eqb url url_a then Ok (txt "a.com")
       else if str_eqb url url_b then Ok (txt "www.b.org")
       else Raise ValueError;
     fetch_page_content := fun _ _ => Ok (txt "<p>Alpha beta. Gamma delta.</p>");
     html_to_markdown := fun _ => Ok (txt "Alpha beta. Gamma delta.");
     post := fun now _ =>
       if (now =? 7)%nat then Responded 500 (txt "Internal Server Error")
       else Responded 200 completion;
     data_frame := fun _ => Ok tt;
     write_file := fun _ _ => Ok tt |}.

(** The configuration of that run. *)
Definition two_domains_config : Config :=
  mkConfig (txt "together") TOGETHER_MODEL [] [] 2 MAX_TOKENS_TOGETHER 4096
           [url_a; url_b] [txt "name"].

(** A run with no file at all. *)
Definition no_files : env :=
  {| read_file := fun _ => None;
     lower := fun s => s;
     int_of := fun _ => Raise ValueError;
     new_user_agent := Ok tt;
     netloc := fun _ => Raise ValueError;
     fetch_page_content := fun _ _ => Ok [];
     html_to_markdown := fun _ => Ok [];
     post := fun _ _ => PostRaised OtherError;
     data_frame := fun _ => Ok tt;
     write_file := fun _ _ => Ok tt |}.

(** The text of the specification's example of chunking, and a
    configuration of a given chunk size. *)
Definition three_sentences : str :=
  txt "Alpha beta. Gamma delta epsilon zeta. Eta.".

Definition budget (k : Z) : Config :=
  mkConfig (txt "together") TOGETHER_MODEL [] [] k MAX_TOKENS_TOGETHER 4096 [] [].

(** The events of the run [two_domains] before its first chunk. *)
Definition before_first_chunk : list (event literal_floats) :=
  firstn 6 (main literal_floats decimal two_domains).

End Examples.

(** ** Vocabulary of the chunker's properties *)

Module Greedy.
Import Chunker.

Section WithArith.
Variable A : arith.

(** The unit [u] does not fit in a chunk made of the units [g]: the test
    [current_size + sentence_size > config.chunk_size]. *)
Definition full (k : Z) (g : list str) (u : str) : Prop :=
  gt A (plus A (estimate A g) (size_of A u)) k = true.

(** In a sequence of chunks, given by their units, each chunk but the last
    is full for the first unit of the next. *)
Fixpoint chained (k : Z) (gs : list (list str)) : Prop :=
  match gs with
  | g1 :: (g2 :: _) as rest =>
      match g2 with
      | u :: _ => full k g1 u
      | [] => True
      end /\ chained k rest
  | _ => True
  end.

End WithArith.
End Greedy.

(** ** More example answers *)

Module MoreExamples.
Import Json Scraper.

(** The body of a completion whose message is a listing in a fence
    labelled [json]. *)
Definition fenced_completion : str :=
  qtxt "{'choices':[{'message':{'content':'```json\n{\'listings\':[{\'name\':\'n\'}]}\n```'}}]}".

End MoreExamples.

(** ** What [config.txt] sets *)

Module Settings.
Import Json Scraper.

(** The dictionary [load_config] makes of the text of [config.txt]. *)
Definition settings (content : str) : list (str * str) :=
  match key_values (lines content) with
  | Ok pairs => dict_of_pairs pairs
  | Raise _ => []
  end.

(** The endpoints [process_with_api] posts to. *)
Definition TOGETHER_URL : str := txt "https://api.together.xyz/v1/chat/completions".
Definition GROQ_URL : str := txt "https://api.groq.com/openai/v1/chat/completions".

(** A line of [urls.txt] or [fields.txt] as the script keeps it: not
    empty, trimmed, on one line. *)
Definition kept_line (l : str) : Prop :=
  l <> [] /\ strip l = l /\ ~ In 10%N l.

End Settings.

(** ** More example runs *)

Module MoreRuns.
Import Json Scraper Examples.

(** A run whose [config.txt] sets a chunk size that is not a number. *)
Definition bad_chunk_size : env :=
  {| read_file := fun path =>
       if str_eqb path (txt "config.txt") then Some (txt "chunk_size=30k" ++ [10%N])
       else read_file two_domains path;
     lower := fun s => s;
     int_of := fun _ => Raise ValueError;
     new_user_agent := Ok tt;
     netloc := netloc two_domains;
     fetch_page_content := fetch_page_content two_domains;
     html_to_markdown := html_to_markdown two_domains;
     post := post two_domains;
     data_frame := fun _ => Ok tt;
     write_file := fun _ _ => Ok tt |}.

(** A run whose [config.txt] names a provider the script does not know,
    and the key of Groq. *)
Definition openai : env :=
  {| read_file := fun path =>
       if str_eqb path (txt "config.txt")
       then Some (txt "api_provider=openai" ++ [10%N] ++ txt "groq_api_key=gsk" ++ [10%N])
       else read_file two_domains path;
     lower := fun s => s;
     int_of := fun _ => Raise ValueError;
     new_user_agent := Ok tt;
     netloc := netloc two_domains;
     fetch_page_content := fetch_page_content two_domains;
     html_to_markdown := html_to_markdown two_domains;
     post := post two_domains;
     data_frame := fun _ => Ok tt;
     write_file := fun _ _ => Ok tt |}.

(** What [load_config] makes of it. *)
Definition openai_config : Config :=
  mkConfig (txt "openai") TOGETHER_MODEL [] (txt "gsk")
           DEFAULT_CHUNK_SIZE MAX_TOKENS_TOGETHER 4096 [] [].

End MoreRuns.

(** ** Vocabulary of the runs *)

Module Traces.
Import Json Scraper.

Section WithFloats.
Variable F : float_codec.

(** A file of results is written. *)
Definition is_file (e : event F) : Prop :=
  match e with
  | WroteJson _ _ | WroteCsv _ _ | WroteXlsx _ _ => True
  | _ => False
  end.

(** A page is fetched or the endpoint is called. *)
Definition is_network (e : event F) : Prop :=
  match e with
  | Fetched _ | Posted _ => True
  | _ => False
  end.

(** What [Config] can do: print that a file is missing. *)
Definition config_event (e : event F) : Prop :=
  match e with
  | Printed ConfigFileNotFound | Printed UrlsFileNotFound
  | Printed FieldsFileNotFound => True
  | _ => False
  end.

(** What the loop over the URLs can do. *)
Definition page_event (e : event F) : Prop :=
  match e with
  | Printed (Processing _ _) | Printed (ContentLength _)
  | Printed (SplitInto _) | Printed (ProcessingChunk _ _)
  | MadeDir _ | Fetched _ | Posted _ | Slept _ => True
  | _ => False
  end.

(** What the loop over the domains can do. *)
Definition saving_event (e : event F) : Prop :=
  match e with
  | MadeDir _ | WroteJson _ _ | WroteCsv _ _ | WroteXlsx _ _
  | Printed (ResultsSaved _) | Printed (ErrorSaving _ _)
  | Printed (Completed _) | Printed (TotalItems _) => True
  | _ => False
  end.

(** The domains that a run reports as completed, in order. *)
Fixpoint completed (tr : list (event F)) : list str :=
  match tr with
  | [] => []
  | Printed (Completed domain) :: tr' => domain :: completed tr'
  | _ :: tr' => completed tr'
  end.

(** A step only adds events, each of which satisfies [P]. *)
Definition emits {X} (P : event F -> Prop) (m : M F X) : Prop :=
  forall tr, exists new, snd (m tr) = tr ++ new /\ Forall P new.

(** When a step returns, what it returns satisfies [Q]. *)
Definition returns {X} (Q : X -> Prop) (m : M F X) : Prop :=
  forall tr, match fst (m tr) with Ok x => Q x | Raise _ => True end.

(** The event is not the message that a domain is completed. *)
Definition not_completed (e : event F) : Prop := completed [e] = [].

End WithFloats.

Arguments is_file {F} e.
Arguments is_network {F} e.
Arguments config_event {F} e.
Arguments page_event {F} e.
Arguments saving_event {F} e.
Arguments completed {F} tr.
Arguments emits {F X} P m.
Arguments returns {F X} Q m.
Arguments not_completed {F} e.

End Traces.

(** ** Runs in which nothing is saved *)

Module LostRuns.
Import Json Scraper Examples.

(** The body of a completion whose message gives a number for listings. *)
Definition scalar_completion : str :=
  qtxt "{'choices':[{'message':{'content':'{\'listings\': 5}'}}]}".

(** A run of one URL and one field, in which the endpoint answers with
    [scalar_completion]. *)
Definition scalar_listings : env :=
  {| read_file := fun path =>
       if str_eqb path (txt "urls.txt") then Some (url_a ++ [10%N])
       else if str_eqb path (txt "fields.txt") then Some (txt "name" ++ [10%N])
       else None;
     lower := fun s => s;
     int_of := fun _ => Raise ValueError;
     new_user_agent := Ok tt;
     netloc := netloc two_domains;
     fetch_page_content := fun _ _ => Ok (txt "<p>Alpha beta.</p>");
     html_to_markdown := fun _ => Ok (txt "Alpha beta.");
     post := fun _ _ => Responded 200 scalar_completion;
     data_frame := fun _ => Ok tt;
     write_file := fun _ _ => Ok tt |}.

(** The configuration of that run. *)
Definition one_url_config : Config :=
  mkConfig (txt "together") TOGETHER_MODEL [] [] DEFAULT_CHUNK_SIZE
           MAX_TOKENS_TOGETHER 4096 [url_a] [txt "name"].

(** The same run, in which the endpoint is down. *)
Definition endpoint_down : env :=
  {| read_file := read_file scalar_listings;
     lower := fun s => s;
     int_of := fun _ => Raise ValueError;
     new_user_agent := Ok tt;
     netloc := netloc two_domains;
     fetch_page_content := fun _ _ => Ok (txt "<p>Alpha beta.</p>");
     html_to_markdown := fun _ => Ok (txt "Alpha beta.");
     post := fun _ _ => Responded 503 (txt "Service Unavailable");
     data_frame := fun _ => Ok tt;
     write_file := fun _ _ => Ok tt |}.

End LostRuns.

(** ** Runs in which no page is read *)

Module EmptyPages.
Import Json Scraper Examples LostRuns.

(** The endpoint is called. *)
Definition is_call {F} (e : event F) : Prop :=
  match e with
  | Posted _ => True
  | _ => False
  end.

(** What the loop over the URLs does with a page that comes back empty. *)
Definition skipped_page {F} (E : env) (url : str) : list (event F) :=
  [Printed (Processing url (get_domain_name E url));
   MadeDir (path_join base_output_folder (get_domain_name E url));
   Fetched url].

(** The run [scalar_listings], in which no page can be fetched:
    [fetch_page_content] returns the empty text. *)
Definition pages_down : env :=
  {| read_file := read_file scalar_listings;
     lower := fun s => s;
     int_of := fun _ => Raise ValueError;
     new_user_agent := Ok tt;
     netloc := netloc two_domains;
     fetch_page_content := fun _ _ => Ok [];
     html_to_markdown := fun _ => Ok (txt "Alpha beta.");
     post := fun _ _ => Responded 200 completion;
     data_frame := fun _ => Ok tt;
     write_file := fun _ _ => Ok tt |}.

End EmptyPages.

(** ** Vocabulary of the provenance of a record *)

Module Buckets.
Import Json Scraper.




End Buckets.

(* ================================================================== *)
(** * Properties *)

(** ** Facts on Python strings *)

Module PyFacts.

Lemma str_eqb_eq (a b : str) : str_eqb a b = true <-> a = b.
Proof.
  unfold str_eqb. destruct (list_eq_dec N.eq_dec a b); split; congruence.
Qed.

Lemma str_eqb_refl (a : str) : str_eqb a a = true.
Proof. apply str_eqb_eq. reflexivity. Qed.

Lemma truthy_true {A} (l : list A) : truthy l = true <-> l <> [].
Proof. destruct l; simpl; split; congruence. Qed.

(** *** Trimming *)

Lemma lstrip_spaces (w s : str) :
  forallb isspace w = true -> lstrip (w ++ s) = lstrip s.
Proof.
  induction w as [|c w IH]; simpl; intros H; [reflexivity|].
  apply andb_true_iff in H as [Hc Hw]. rewrite Hc. auto.
Qed.

Lemma lstrip_head (s : str) c r : lstrip s = c :: r -> isspace c = false.
Proof.
  induction s as [|d s IH]; simpl; [discriminate|].
  destruct (isspace d) eqn:E; [exact IH|].
  intros H; injection H as -> _. exact E.
Qed.

Lemma lstrip_fixed c (r : str) : isspace c = false -> lstrip (c :: r) = c :: r.
Proof. intros H; simpl; rewrite H; reflexivity. Qed.

Lemma lstrip_idem (s : str) : lstrip (lstrip s) = lstrip s.
Proof.
  destruct (lstrip s) as [|c r] eqn:E; [reflexivity|].
  apply lstrip_fixed. eapply lstrip_head; eassumption.
Qed.

Lemma lstrip_nil_app (l m : str) : lstrip l = [] -> lstrip (l ++ m) = lstrip m.
Proof.
  induction l as [|c l IH]; simpl; [reflexivity|].
  destruct (isspace c); [exact IH|discriminate].
Qed.

Lemma lstrip_cons_app (l m : str) :
  lstrip l <> [] -> lstrip (l ++ m) = lstrip l ++ m.
Proof.
  induction l as [|c l IH]; simpl; [congruence|].
  destruct (isspace c); [exact IH|reflexivity].
Qed.

Lemma lstrip_incl (s : str) x : In x (lstrip s) -> In x s.
Proof.
  induction s as [|c s IH]; simpl; [tauto|].
  destruct (isspace c); simpl; tauto.
Qed.

(** [rstrip] read from the left. *)
Lemma rstrip_cons c (r : str) :
  rstrip (c :: r) =
  if isspace c && negb (truthy (rstrip r)) then [] else c :: rstrip r.
Proof.
  unfold rstrip. simpl rev.
  destruct (lstrip (rev r)) as [|d q] eqn:E.
  - rewrite (lstrip_nil_app _ _ E). simpl.
    destruct (isspace c); reflexivity.
  - rewrite lstrip_cons_app by congruence. rewrite E.
    rewrite rev_app_distr. simpl rev at 1. simpl app.
    assert (truthy (rev (d :: q)) = true) as ->.
    { apply truthy_true. intros H. apply (f_equal (@rev _)) in H.
      rewrite rev_involutive in H. discriminate. }
    rewrite andb_false_r. reflexivity.
Qed.

Lemma rstrip_idem (s : str) : rstrip (rstrip s) = rstrip s.
Proof.
  unfold rstrip. rewrite rev_involutive, lstrip_idem. reflexivity.
Qed.

Lemma rstrip_incl (s : str) x : In x (rstrip s) -> In x s.
Proof.
  unfold rstrip. intros H. apply in_rev in H. apply lstrip_incl in H.
  apply in_rev. exact H.
Qed.

Lemma lstrip_rstrip_fixed (t : str) : lstrip t = t -> lstrip (rstrip t) = rstrip t.
Proof.
  destruct t as [|c r]; intros H; [reflexivity|].
  assert (Hc : isspace c = false) by (eapply lstrip_head; exact H).
  rewrite rstrip_cons, Hc. simpl andb. cbv iota. apply lstrip_fixed, Hc.
Qed.

Lemma strip_idem (s : str) : strip (strip s) = strip s.
Proof.
  unfold strip.
  rewrite lstrip_rstrip_fixed by apply lstrip_idem.
  apply rstrip_idem.
Qed.

Lemma strip_incl (s : str) x : In x (strip s) -> In x s.
Proof. unfold strip. intros H. apply lstrip_incl, rstrip_incl, H. Qed.

Lemma strip_spaces_app (w u : str) :
  forallb isspace w = true -> strip (w ++ u) = strip u.
Proof. intros H. unfold strip. rewrite lstrip_spaces by exact H. reflexivity. Qed.

(** *** Splitting on one character *)

Lemma split_go_nonempty sep k (s : str) : split_go sep k s <> [].
Proof.
  revert k. induction s as [|c s IH]; intros k; simpl; [discriminate|].
  destruct k; [|apply IH].
  destruct (startswith sep (c :: s)); [discriminate|].
  destruct (split_go sep 0 s); discriminate.
Qed.

Lemma split_char_cons d c (s : str) :
  split [d] (c :: s) =
  if N.eqb d c then [] :: split [d] s
  else match split [d] s with
       | p :: ps => (c :: p) :: ps
       | [] => [[c]]
       end.
Proof.
  unfold split. simpl. destruct (N.eqb d c); simpl; reflexivity.
Qed.

Lemma split_char_app d (x y : str) :
  split [d] (x ++ d :: y) = split [d] x ++ split [d] y.
Proof.
  induction x as [|c x IH].
  - simpl app. rewrite split_char_cons, N.eqb_refl. reflexivity.
  - simpl app. rewrite !split_char_cons. destruct (N.eqb d c).
    + rewrite IH. reflexivity.
    + rewrite IH.
      destruct (split [d] x) as [|p ps] eqn:E.
      * exfalso. exact (split_go_nonempty _ _ _ E).
      * reflexivity.
Qed.

Lemma split_char_none d (s : str) : ~ In d s -> split [d] s = [s].
Proof.
  induction s as [|c s IH]; intros H; [reflexivity|].
  rewrite split_char_cons.
  destruct (N.eqb_spec d c) as [->|Hn]; [exfalso; apply H; left; reflexivity|].
  rewrite IH; [reflexivity|]. intros Hin. apply H. right. exact Hin.
Qed.

Lemma split_char_pieces d (s : str) :
  Forall (fun p => ~ In d p) (split [d] s).
Proof.
  induction s as [|c s IH].
  - constructor; [simpl; tauto|constructor].
  - rewrite split_char_cons.
    destruct (N.eqb_spec d c) as [->|Hn].
    + constructor; [simpl; tauto|exact IH].
    + destruct (split [d] s) as [|p ps]; [repeat constructor; simpl; intuition congruence|].
      inversion IH; subst. constructor; [|assumption].
      simpl. intuition congruence.
Qed.

End PyFacts.

(** ** The text chunker *)

Module ChunkerFacts.
Import PyFacts Chunker.

Lemma units_of_nil : units_of [] = [].
Proof. reflexivity. Qed.

Lemma units_of_app_period (x y : str) :
  units_of (x ++ 46%N :: y) = units_of x ++ units_of y.
Proof.
  unfold units_of. change (txt ".") with [46%N].
  rewrite split_char_app, map_app, filter_app. reflexivity.
Qed.

Lemma units_of_clean (w u : str) :
  clean u -> forallb isspace w = true -> ~ In 46%N w ->
  units_of (w ++ u) = [u].
Proof.
  intros (Ht & Hs & Hp) Hw Hwp. unfold units_of. change (txt ".") with [46%N].
  rewrite split_char_none.
  - simpl. rewrite strip_spaces_app, Hs, Ht by exact Hw. reflexivity.
  - intros H. apply in_app_or in H. tauto.
Qed.

Lemma units_of_join (g : list str) :
  g <> [] -> Forall clean g ->
  forall w, forallb isspace w = true -> ~ In 46%N w ->
  units_of (w ++ join (txt ". ") g) = g.
Proof.
  induction g as [|u g IH]; intros Hne Hc w Hw Hwp; [congruence|].
  inversion Hc as [|? ? Hu Hg]; subst.
  destruct g as [|u2 g].
  - simpl join. apply units_of_clean; assumption.
  - change (join (txt ". ") (u :: u2 :: g))
      with (u ++ 46%N :: ([32%N] ++ join (txt ". ") (u2 :: g))).
    rewrite app_assoc, units_of_app_period.
    rewrite units_of_clean by assumption.
    rewrite IH; [reflexivity|discriminate|assumption|reflexivity|].
    simpl. intros [H|[]]. discriminate.
Qed.

Lemma units_of_close (g : list str) (rest : str) :
  group g -> units_of (close_chunk g ++ rest) = g ++ units_of rest.
Proof.
  intros [Hne Hc]. unfold close_chunk. change (txt ".") with [46%N].
  rewrite <- app_assoc. simpl app.
  rewrite units_of_app_period. f_equal.
  apply (units_of_join g Hne Hc []); [reflexivity|simpl; tauto].
Qed.

Lemma units_of_chunk (g : list str) : group g -> units_of (close_chunk g) = g.
Proof.
  intros H. rewrite <- (app_nil_r (close_chunk g)).
  rewrite units_of_close by exact H. rewrite units_of_nil. apply app_nil_r.
Qed.

Lemma units_of_chunks (gs : list (list str)) :
  Forall group gs -> units_of (concat (map close_chunk gs)) = concat gs.
Proof.
  induction 1 as [|g gs Hg _ IH]; [reflexivity|].
  simpl. rewrite units_of_close by exact Hg. rewrite IH. reflexivity.
Qed.

Lemma strip_clean (p : str) :
  ~ In 46%N p -> truthy (strip p) = true -> clean (strip p).
Proof.
  intros Hp Ht. repeat split; [exact Ht|apply strip_idem|].
  intros H. apply Hp. apply strip_incl. exact H.
Qed.

Section WithArith.
Variable A : arith.
Variable config : Config.

Local Abbreviation step := (step A config).
Local Abbreviation estimate := (estimate A).
Local Abbreviation within := (within A (chunk_size config)).

Lemma estimate_snoc (g : list str) u :
  estimate (g ++ [u]) = plus A (estimate g) (size_of A u).
Proof. unfold Chunker.estimate. rewrite fold_left_app. reflexivity. Qed.

(** What the loop keeps true: the finished chunks are the renderings of
    groups of units, the open chunk holds clean units, and no unit met so
    far is lost or moved.  When [0 + x] is [x] for the sizes, the running
    size is the estimate of the open chunk and only one-unit chunks go over
    the budget. *)
Lemma loop_invariant (sentences : list str) :
  Forall (fun p => ~ In 46%N p) sentences ->
  forall (st : state A) (gs : list (list str)),
    chunks st = map close_chunk gs ->
    Forall group gs ->
    Forall clean (current_chunk st) ->
    exists gs',
      let st' := fold_left step sentences st in
      chunks st' = map close_chunk gs' /\
      Forall group gs' /\
      Forall clean (current_chunk st') /\
      concat gs' ++ current_chunk st' =
        (concat gs ++ current_chunk st)
        ++ filter (fun u => truthy u) (map strip sentences) /\
      ((forall n, plus A (zero A) (times_1_3 A n) = times_1_3 A n) ->
       current_size st = estimate (current_chunk st) ->
       Forall within gs ->
       (current_chunk st = [] \/ within (current_chunk st)) ->
       current_size st' = estimate (current_chunk st') /\
       Forall within gs' /\
       (current_chunk st' = [] \/ within (current_chunk st'))).
Proof.
  induction 1 as [|p sentences Hp _ IH]; intros st gs Hch Hgs Hcur.
  - exists gs. simpl. rewrite app_nil_r. tauto.
  - simpl fold_left. simpl map. simpl filter.
    unfold Chunker.step at 2.
    destruct (truthy (strip p)) eqn:Ht; simpl negb; cbv iota.
    2:{ destruct (IH st gs Hch Hgs Hcur) as (gs' & H). exists gs'. exact H. }
    pose proof (strip_clean p Hp Ht) as Hu.
    set (u := strip p) in *.
    destruct (gt A (plus A (current_size st) (size_of A u)) (chunk_size config)) eqn:Hgt.
    + (* the open chunk is closed and [u] opens the next one *)
      destruct (current_chunk st) as [|c cs] eqn:Hcc.
      * simpl truthy. cbv iota.
        match goal with |- context [fold_left _ _ ?s] => set (st1 := s) end.
        destruct (IH st1 gs Hch Hgs) as (gs' & H1 & H2 & H3 & H4 & H5).
        { simpl. constructor; [exact Hu|constructor]. }
        exists gs'. cbv zeta in *. repeat split; try assumption.
        -- rewrite H4. simpl. rewrite app_nil_r, <- app_assoc. reflexivity.
        -- apply H5; try assumption.
           ++ simpl. unfold Chunker.estimate. simpl. symmetry. apply H.
           ++ right. left. exists u. reflexivity.
        -- apply H5; try assumption.
           ++ simpl. unfold Chunker.estimate. simpl. symmetry. apply H.
           ++ right. left. exists u. reflexivity.
        -- apply H5; try assumption.
           ++ simpl. unfold Chunker.estimate. simpl. symmetry. apply H.
           ++ right. left. exists u. reflexivity.
      * simpl truthy. cbv iota.
        match goal with |- context [fold_left _ _ ?s] => set (st1 := s) end.
        destruct (IH st1 (gs ++ [c :: cs])) as (gs' & H1 & H2 & H3 & H4 & H5).
        { simpl. rewrite map_app, Hch. reflexivity. }
        { apply Forall_app. split; [exact Hgs|].
          constructor; [|constructor]. split; [discriminate|exact Hcur]. }
        { simpl. constructor; [exact Hu|constructor]. }
        exists gs'. cbv zeta in *.
        assert (Hsz : (forall n, plus A (zero A) (times_1_3 A n) = times_1_3 A n) ->
                      current_size st = estimate (c :: cs) ->
                      Forall within gs ->
                      (c :: cs = [] \/ within (c :: cs)) ->
                      current_size (fold_left step sentences st1) =
                        estimate (current_chunk (fold_left step sentences st1)) /\
                      Forall within gs' /\
                      (current_chunk (fold_left step sentences st1) = [] \/
                       within (current_chunk (fold_left step sentences st1)))).
        { intros H0 Hs Hw Hc. apply H5; try assumption.
          - simpl. unfold Chunker.estimate. simpl. symmetry. apply H0.
          - apply Forall_app. split; [exact Hw|].
            constructor; [|constructor]. destruct Hc as [Hc|Hc]; [discriminate|exact Hc].
          - right. left. exists u. reflexivity. }
        repeat split; try assumption; try (apply Hsz; assumption).
        rewrite H4. simpl current_chunk. rewrite concat_app. simpl concat.
        rewrite app_nil_r, <- !app_assoc. reflexivity.
    + (* [u] joins the open chunk *)
      match goal with |- context [fold_left _ _ ?s] => set (st1 := s) end.
      destruct (IH st1 gs Hch Hgs) as (gs' & H1 & H2 & H3 & H4 & H5).
      { simpl. apply Forall_app. split; [exact Hcur|]. constructor; [exact Hu|constructor]. }
      exists gs'. cbv zeta in *.
      assert (Hsz : (forall n, plus A (zero A) (times_1_3 A n) = times_1_3 A n) ->
                    current_size st = estimate (current_chunk st) ->
                    Forall within gs ->
                    (current_chunk st = [] \/ within (current_chunk st)) ->
                    current_size (fold_left step sentences st1) =
                      estimate (current_chunk (fold_left step sentences st1)) /\
                    Forall within gs' /\
                    (current_chunk (fold_left step sentences st1) = [] \/
                     within (current_chunk (fold_left step sentences st1)))).
      { intros H0 Hs Hw Hc. apply H5; try assumption.
        - simpl. rewrite estimate_snoc, Hs. reflexivity.
        - right. right. simpl. rewrite estimate_snoc, <- Hs. exact Hgt. }
      repeat split; try assumption; try (apply Hsz; assumption).
      rewrite H4. simpl current_chunk. rewrite <- !app_assoc. reflexivity.
Qed.

(** The chunks returned are the renderings of groups of units that
    partition, in order, the units of the text. *)
Lemma chunk_content_groups (content : str) :
  exists gs,
    chunk_content A content config = map close_chunk gs /\
    Forall group gs /\
    concat gs = units_of (replace [10%N] (txt " ") content) /\
    ((forall n, plus A (zero A) (times_1_3 A n) = times_1_3 A n) ->
     Forall within gs).
Proof.
  unfold chunk_content.
  set (sentences := split (txt ".") (replace [10%N] (txt " ") content)).
  destruct (loop_invariant sentences (split_char_pieces 46%N _) (init A) [])
    as (gs & H1 & H2 & H3 & H4 & H5);
    [reflexivity|constructor|constructor|].
  cbv zeta in *. simpl in H4.
  set (st := fold_left step sentences (init A)) in *.
  assert (Hw : (forall n, plus A (zero A) (times_1_3 A n) = times_1_3 A n) ->
               Forall within gs /\ (current_chunk st = [] \/ within (current_chunk st))).
  { intros H0. apply H5; [exact H0|reflexivity|constructor|left; reflexivity]. }
  destruct (current_chunk st) as [|c cs] eqn:Hc; simpl truthy; cbv iota.
  - exists gs. rewrite app_nil_r in H4. repeat split; try assumption.
    intros H0. apply Hw, H0.
  - exists (gs ++ [c :: cs]). repeat split.
    + rewrite map_app, H1. reflexivity.
    + apply Forall_app. split; [exact H2|].
      constructor; [|constructor]. split; [discriminate|exact H3].
    + rewrite concat_app. simpl. rewrite app_nil_r. exact H4.
    + intros H0. destruct (Hw H0) as [Hg [Hn|Hn]]; [discriminate|].
      apply Forall_app. split; [exact Hg|]. constructor; [exact Hn|constructor].
Qed.

(** C4. Splitting the concatenation of the chunks on the period and
    dropping the units that are empty after trimming gives back, in order,
    the units of the input (newlines first turned into spaces): no unit is
    dropped or moved. *)
Theorem chunk_content_keeps_units (content : str) :
  units_of (concat (chunk_content A content config)) =
  units_of (replace [10%N] (txt " ") content).
Proof.
  destruct (chunk_content_groups content) as (gs & -> & Hg & <- & _).
  apply units_of_chunks, Hg.
Qed.

(** C5. When no single unit is over [chunk_size], no chunk's size estimate
    is; and whatever [chunk_size] is, a chunk whose estimate is over it is
    made of exactly one unit, itself over it.  The sizes are those the loop
    computes, for any arithmetic in which [0 + x] is [x]. *)
Theorem chunk_content_within_budget (content : str) :
  (forall n, plus A (zero A) (times_1_3 A n) = times_1_3 A n) ->
  ((forall u, In u (units_of (replace [10%N] (txt " ") content)) ->
              gt A (size_of A u) (chunk_size config) = false) ->
   forall c, In c (chunk_content A content config) ->
             gt A (chunk_estimate A c) (chunk_size config) = false) /\
  (forall c, In c (chunk_content A content config) ->
             gt A (chunk_estimate A c) (chunk_size config) = true ->
             exists u, units_of c = [u] /\
                       gt A (size_of A u) (chunk_size config) = true).
Proof.
  intros H0.
  destruct (chunk_content_groups content) as (gs & Hc & Hg & Hu & Hw).
  specialize (Hw H0).
  assert (Hover : forall c, In c (chunk_content A content config) ->
            gt A (chunk_estimate A c) (chunk_size config) = true ->
            exists u, units_of c = [u] /\ In u (concat gs) /\
                      gt A (size_of A u) (chunk_size config) = true).
  { intros c Hin Hgt. rewrite Hc in Hin. apply in_map_iff in Hin as (g & <- & Hin).
    pose proof (proj1 (Forall_forall _ _) Hg g Hin) as Hgg.
    pose proof (proj1 (Forall_forall _ _) Hw g Hin) as Hgw.
    unfold chunk_estimate in Hgt. rewrite (units_of_chunk g Hgg) in *.
    destruct Hgw as [[u ->]|Hle]; [|congruence].
    exists u. repeat split.
    - apply in_concat. exists [u]. split; [exact Hin|left; reflexivity].
    - unfold Chunker.estimate in Hgt. simpl in Hgt. unfold size_of in *.
      rewrite H0 in Hgt. exact Hgt. }
  split.
  - intros Hsmall c Hin.
    destruct (gt A (chunk_estimate A c) (chunk_size config)) eqn:E; [|reflexivity].
    destruct (Hover c Hin E) as (u & _ & Hin' & Hgt).
    rewrite Hu in Hin'. rewrite (Hsmall u Hin') in Hgt. discriminate.
  - intros c Hin Hgt. destruct (Hover c Hin Hgt) as (u & H1 & _ & H2).
    exists u. split; assumption.
Qed.

End WithArith.
End ChunkerFacts.

(** ** The response parser and the extraction client *)

Module ScraperFacts.
Import PyFacts Json Scraper.

(** A text that contains the separator splits in two pieces at least. *)
Lemma split_contains (sep s : str) :
  sep <> [] -> contains sep s = true ->
  exists a b rest, split sep s = a :: b :: rest.
Proof.
  intros Hsep. unfold split.
  induction s as [|c s IH]; intros H.
  - destruct sep; [congruence|discriminate].
  - simpl in H. simpl split_go.
    destruct (startswith sep (c :: s)) eqn:E.
    + destruct (split_go sep (length sep - 1) s) as [|b rest] eqn:E2.
      * exfalso. exact (split_go_nonempty _ _ _ E2).
      * exists [], b, rest. reflexivity.
    + rewrite orb_false_l in H.
      destruct (IH H) as (a & b & rest & ->).
      exists (c :: a), b, rest. reflexivity.
Qed.

Section WithFloats.
Variable F : float_codec.

Local Abbreviation value := (Json.value F).

(** The first branch of [parse_api_response] calls [strip] on the list
    that [split] returns. *)
Lemma select_json_text_fenced_json (response_text : str) :
  contains (txt "```json") response_text = true ->
  select_json_text F response_text = Raise AttributeError.
Proof.
  intros H. unfold select_json_text. rewrite H.
  destruct (split_contains (txt "```json") response_text) as (a & b & rest & ->);
    [discriminate|exact H|].
  reflexivity.
Qed.

(** C1. A response that contains a fence labelled [json] makes
    [parse_api_response] raise [AttributeError]: the function does not
    return the empty listings, nor anything else. *)
Theorem parse_api_response_raises (response_text : str) :
  contains (txt "```json") response_text = true ->
  parse_api_response F response_text = Raise AttributeError.
Proof.
  intros H. unfold parse_api_response.
  rewrite (select_json_text_fenced_json _ H). reflexivity.
Qed.

Lemma select_json_text_returns (response_text : str) :
  contains (txt "```json") response_text = false ->
  exists t, select_json_text F response_text = Ok t.
Proof.
  intros H. unfold select_json_text. rewrite H.
  destruct (contains (txt "```") response_text) eqn:E; [|eauto].
  destruct (split_contains (txt "```") response_text) as (a & b & rest & ->);
    [discriminate|exact E|]. simpl. eauto.
Qed.

Lemma loads_raises (s : str) (e : exn) :
  loads F s = Raise e -> e = JSONDecodeError.
Proof.
  unfold loads. destruct (startswith [65279%N] s); [congruence|].
  destruct (scan_once F _ _) as [v r| |]; try congruence.
  destruct (skip_ws r); congruence.
Qed.

(** Any other response is parsed: the result is a dictionary that has the
    key [listings].  (The limits of the interpreter, on the depth of the
    recursion and on the digits of an integer, are outside the embedding.) *)
Lemma parse_api_response_returns (response_text : str) :
  contains (txt "```json") response_text = false ->
  exists d, parse_api_response F response_text = Ok (JDict d)
            /\ has_key (txt "listings") d = true.
Proof.
  intros H. destruct (select_json_text_returns _ H) as (t & Ht).
  unfold parse_api_response. rewrite Ht. cbn [bind].
  destruct (loads F t) as [result|e] eqn:El; cbn [bind try_except].
  - unfold normalise.
    destruct result as [| | | | | |m];
      try (eexists; split; reflexivity).
    cbn [is_dict key_in negb].
    destruct (has_key (txt "listings") m) eqn:Ek; cbn [negb].
    + exists m. split; [reflexivity|exact Ek].
    + eexists. split; reflexivity.
  - apply loads_raises in El. subst e. eexists. split; reflexivity.
Qed.

(** C10. When the text picked from the response decodes to a dictionary
    that has the key [listings], that dictionary is returned as it is,
    whatever the value under the key. *)
Theorem parse_api_response_keeps_listings (response_text json_text : str)
  (d : list (str * value)) :
  select_json_text F response_text = Ok json_text ->
  loads F json_text = Ok (JDict d) ->
  has_key (txt "listings") d = true ->
  parse_api_response F response_text = Ok (JDict d).
Proof.
  intros Hs Hl Hk. unfold parse_api_response. rewrite Hs. simpl bind.
  rewrite Hl. simpl bind. unfold normalise. simpl. rewrite Hk. reflexivity.
Qed.

(** C3. The request asks for [min(max_output_tokens, max_tokens -
    prompt_tokens)] tokens, the prompt being counted in words.  Nothing
    clamps that number: it is negative as soon as the configured maximum
    is, or the prompt has more words than [max_tokens]. *)
Theorem max_output_is_min (content : str) (fields : list str) (config : Config) :
  let prompt_tokens :=
    (word_count SYSTEM_MESSAGE + word_count (user_prompt content fields))%Z in
  let cap := req_max_tokens (build_request content fields config) in
  cap = Z.min (max_output_tokens config) (max_tokens config - prompt_tokens)
  /\ ((0 <= cap)%Z <->
      (0 <= max_output_tokens config)%Z /\ (prompt_tokens <= max_tokens config)%Z).
Proof.
  cbv zeta. unfold build_request.
  generalize (word_count SYSTEM_MESSAGE + word_count (user_prompt content fields))%Z.
  intros n.
  destruct (str_eqb (api_provider config) (txt "together"));
    cbn [req_max_tokens]; (split; [reflexivity|lia]).
Qed.

(** [process_with_api] never raises. *)
Lemma process_with_api_returns (post : request -> http_outcome)
  (content : str) (fields : list str) (config : Config) :
  exists result, process_with_api F post content fields config = Ok result.
Proof.
  unfold process_with_api, try_except.
  destruct (handle_outcome F _) as [a|e]; simpl; eauto.
Qed.

(** Any status but 200, and any exception, gives the empty listings. *)
Lemma process_with_api_not_200 (post : request -> http_outcome)
  (content : str) (fields : list str) (config : Config) :
  match post (build_request content fields config) with
  | Responded status_code _ => status_code <> 200%Z
  | PostRaised _ => True
  end ->
  process_with_api F post content fields config = Ok (empty_listings F).
Proof.
  unfold process_with_api, try_except, handle_outcome.
  destruct (post _) as [status_code text|e]; intros H; [|reflexivity].
  destruct (Z.eqb_spec status_code 200); [contradiction|reflexivity].
Qed.

Section WithEnv.
Variable A : arith.
Variable E : env.

(** C8. [process_with_api] never raises; a call that fails, by a status
    outside 200..299 or by an exception, and any exception met while the
    answer is read, make it return the empty listings; and in the loop of
    [main] over the chunks of a page, a chunk whose call fails adds nothing
    and the loop goes on with the chunks that follow. *)
Theorem failed_call_is_skipped :
  (forall (post : request -> http_outcome) content fields config,
      (exists result, process_with_api F post content fields config = Ok result)
      /\ (failed (post (build_request content fields config)) ->
          process_with_api F post content fields config = Ok (empty_listings F))
      /\ (forall e,
             handle_outcome F (post (build_request content fields config)) = Raise e ->
             process_with_api F post content fields config = Ok (empty_listings F)))
  /\
  (forall config total i chunk rest chunk_results tr,
      failed (post E (S (length tr)) (build_request chunk (fields config) config)) ->
      for_each ((i, chunk) :: rest) (chunk_round F E config total) chunk_results tr =
      for_each rest (chunk_round F E config total) chunk_results
        (tr ++ [Printed (ProcessingChunk i total);
                Posted (build_request chunk (fields config) config);
                Slept 1])).
Proof.
  assert (H1 : forall (post : request -> http_outcome) content fields config,
      failed (post (build_request content fields config)) ->
      process_with_api F post content fields config = Ok (empty_listings F)).
  { intros post content fields config H. apply process_with_api_not_200.
    destruct (post _); simpl in *; [lia|exact I]. }
  split.
  - intros post content fields config. split; [|split].
    + apply process_with_api_returns.
    + apply H1.
    + intros e He. unfold process_with_api. rewrite He. reflexivity.
  - intros config total i chunk rest chunk_results tr H.
    simpl for_each. unfold bindM at 1. unfold chunk_round.
    unfold bindM, emit, clock, lift, ret. simpl.
    rewrite length_app. simpl length. rewrite Nat.add_1_r.
    rewrite (H1 _ _ _ _ H). simpl.
    rewrite <- !app_assoc. reflexivity.
Qed.

End WithEnv.

(** *** What a run leaves behind *)

Section Traces.
Variable P : event F -> Prop.

Lemma preserves_ret {X} (x : X) : preserves P (ret x).
Proof. intros tr H. exact H. Qed.

Lemma preserves_lift {X} (r : result X) : preserves P (lift r).
Proof. intros tr H. exact H. Qed.

Lemma preserves_clock : preserves P clock.
Proof. intros tr H. exact H. Qed.

Lemma preserves_emit (e : event F) : P e -> preserves P (emit e).
Proof.
  intros He tr H. simpl. apply Forall_app. split; [exact H|].
  constructor; [exact He|constructor].
Qed.

Lemma preserves_bind {X Y} (m : M F X) (k : X -> M F Y) :
  preserves P m -> (forall x, preserves P (k x)) -> preserves P (bindM m k).
Proof.
  intros Hm Hk tr H. unfold bindM. specialize (Hm tr H).
  destruct (m tr) as [[x|e] tr']; simpl in *; [apply Hk; exact Hm|exact Hm].
Qed.

Lemma preserves_try {X} (m : M F X) (handler : exn -> M F X) :
  preserves P m -> (forall e, preserves P (handler e)) ->
  preserves P (try_M m handler).
Proof.
  intros Hm Hh tr H. unfold try_M. specialize (Hm tr H).
  destruct (m tr) as [[x|e] tr']; simpl in *; [exact Hm|apply Hh; exact Hm].
Qed.

Lemma preserves_for_each {X S} (l : list X) (body : X -> S -> M F S) :
  (forall x s, preserves P (body x s)) ->
  forall s, preserves P (for_each l body s).
Proof.
  intros Hb. induction l as [|x l IH]; intros s; simpl.
  - apply preserves_ret.
  - apply preserves_bind; [apply Hb|exact IH].
Qed.

Lemma preserves_if {X} (b : bool) (m1 m2 : M F X) :
  preserves P m1 -> preserves P m2 -> preserves P (if b then m1 else m2).
Proof. destruct b; auto. Qed.

End Traces.

(** Steps that only print, fetch, post, sleep and make directories. *)
Ltac quiet :=
  repeat first
    [ apply preserves_ret | apply preserves_lift | apply preserves_clock
    | apply preserves_emit; exact I
    | apply preserves_bind; [|intros ?]
    | apply preserves_if ].

Section Runs.
Variable A : arith.
Variable E : env.

Lemma load_config_prints (P : event F -> Prop) :
  (forall m, P (Printed m)) -> preserves P (load_config F E).
Proof.
  intros HP. unfold load_config. destruct (read_file E _).
  - repeat first [apply preserves_bind; [|intros ?] | apply preserves_lift
                 | apply preserves_ret].
  - apply preserves_bind; [apply preserves_emit, HP|intros ?; apply preserves_ret].
Qed.

Lemma new_Config_prints (P : event F -> Prop) :
  (forall m, P (Printed m)) -> preserves P (new_Config F E).
Proof.
  intros HP. unfold new_Config, load_urls, load_fields.
  apply preserves_bind; [apply load_config_prints, HP|intros c].
  apply preserves_bind; [|intros urls].
  { destruct (read_file E _); [apply preserves_ret|].
    apply preserves_bind; [apply preserves_emit, HP|intros ?; apply preserves_ret]. }
  apply preserves_bind; [|intros fields].
  { destruct (read_file E _); [apply preserves_ret|].
    apply preserves_bind; [apply preserves_emit, HP|intros ?; apply preserves_ret]. }
  apply preserves_bind; [apply preserves_lift|intros ?; apply preserves_ret].
Qed.

(** C9. Without [config.txt], [load_config] prints its message and sets
    the defaults: provider [together], 131072 tokens of context, 4096 of
    output, chunks of 30000; [Config] is then built with them, unless the
    user-agent generator cannot be made.  And when the configuration that
    [Config] builds has no URL or no field, the run ends on the message
    that says so, having done nothing but print. *)
Theorem defaults_and_early_exit :
  (read_file E (txt "config.txt") = None ->
   (forall tr, exists c,
      load_config F E tr = (Ok c, tr ++ [Printed ConfigFileNotFound]) /\
      api_provider c = txt "together" /\
      model c = TOGETHER_MODEL /\
      max_tokens c = 131072%Z /\
      max_output_tokens c = 4096%Z /\
      chunk_size c = 30000%Z)
   /\ (new_user_agent E = Ok tt ->
       exists config tr,
         new_Config F E [] = (Ok config, tr) /\
         api_provider config = txt "together" /\
         model config = TOGETHER_MODEL /\
         max_tokens config = 131072%Z /\
         max_output_tokens config = 4096%Z /\
         chunk_size config = 30000%Z))
  /\
  (forall config tr,
     new_Config F E [] = (Ok config, tr) ->
     urls config = [] \/ fields config = [] ->
     main F A E = tr ++ [Printed NoUrlsOrFields] /\
     Forall is_message (main F A E)).
Proof.
  split.
  - intros H. split.
    + intros tr. unfold load_config. rewrite H.
      eexists. split; [reflexivity|]. repeat split.
    + intros Hua. unfold new_Config, load_config, load_urls, load_fields.
      rewrite H, Hua.
      destruct (read_file E (txt "urls.txt")), (read_file E (txt "fields.txt"));
        eexists _, _; (split; [reflexivity|]); repeat split.
  - intros config tr Hc Hempty.
    assert (Hmain : main F A E = tr ++ [Printed NoUrlsOrFields]).
    { unfold main, main_body, try_M, bindM. rewrite Hc.
      assert (negb (truthy (urls config)) || negb (truthy (fields config)) = true) as ->.
      { destruct Hempty as [-> | ->]; simpl; [reflexivity|apply orb_true_r]. }
      reflexivity. }
    split; [exact Hmain|]. rewrite Hmain.
    apply Forall_app. split.
    + pose proof (new_Config_prints is_message (fun _ => I) [] (Forall_nil _)) as H.
      rewrite Hc in H. exact H.
    + constructor; [exact I|constructor].
Qed.

(** *** Provenance *)

Lemma dict_get_set {V} (k : str) (v : V) (d : list (str * V)) :
  dict_get k (dict_set k v d) = Some v.
Proof.
  induction d as [|[k' v'] d IH]; simpl.
  - rewrite str_eqb_refl. reflexivity.
  - destruct (str_eqb k k') eqn:E'; simpl; rewrite E'; [reflexivity|exact IH].
Qed.

Lemma tag_all (urls : list str) (items items' : list value) :
  map_result (tag F urls) items = Ok items' ->
  Forall (fun r => exists d,
              r = JDict d /\
              dict_get (txt "source_url") d = Some (JList (map JStr urls)))
         items'.
Proof.
  revert items'. induction items as [|x items IH]; intros items' H; simpl in H.
  - injection H as <-. constructor.
  - destruct x; simpl in H; try discriminate.
    destruct (map_result (tag F urls) items) as [ys|e]; simpl in H; [|discriminate].
    injection H as <-. constructor; [|apply IH; reflexivity].
    eexists. split; [reflexivity|apply dict_get_set].
Qed.

Lemma add_source_urls_tags (urls : list str) (results : list value) data' :
  add_source_urls F (JDict [(txt "listings", JList results)]) urls = Ok data' ->
  tagged_with urls data'.
Proof.
  unfold add_source_urls. simpl.
  destruct (map_result (tag F urls) results) as [items'|e] eqn:Hm; simpl;
    [|discriminate].
  intros H. injection H as <-. exists items'. split; [reflexivity|].
  eapply tag_all. exact Hm.
Qed.

Lemma preserves_bind_lift {X Y} (P : event F -> Prop) (r : result X)
  (k : X -> M F Y) :
  (forall x, r = Ok x -> preserves P (k x)) -> preserves P (bindM (lift r) k).
Proof.
  intros Hk tr H. unfold bindM, lift. destruct r as [x|e]; [|exact H].
  apply (Hk x eq_refl tr H).
Qed.

Lemma save_results_tags (urls : list str) (results : list value) domain folder :
  preserves (results_tagged_with urls)
    (save_results F E (JDict [(txt "listings", JList results)]) domain urls folder).
Proof.
  unfold save_results.
  apply preserves_bind; [apply preserves_emit; exact I|intros _].
  apply preserves_try; [|intros e; apply preserves_emit; exact I].
  apply preserves_bind_lift. intros data' Ha. unfold write.
  apply preserves_bind.
  - apply preserves_bind; [|intros _; quiet].
    apply preserves_emit. simpl. eapply add_source_urls_tags. exact Ha.
  - intros _. quiet.
Qed.

Lemma chunk_round_quiet (P : event F -> Prop) config total numbered acc :
  (forall e, match e with WroteJson _ _ => True | _ => P e end) ->
  preserves P (chunk_round F E config total numbered acc).
Proof.
  intros HP. unfold chunk_round. destruct numbered as [i chunk].
  repeat first
    [ apply preserves_ret | apply preserves_lift | apply preserves_clock
    | apply preserves_emit;
      match goal with |- P ?e => exact (HP e) end
    | apply preserves_bind; [|intros ?] ].
Qed.

Lemma url_round_quiet (P : event F -> Prop) config url acc :
  (forall e, match e with WroteJson _ _ => True | _ => P e end) ->
  preserves P (url_round F A E config url acc).
Proof.
  intros HP. unfold url_round.
  repeat first
    [ apply preserves_ret | apply preserves_lift | apply preserves_clock
    | apply preserves_emit;
      match goal with |- P ?e => exact (HP e) end
    | apply preserves_for_each; intros ? ?; apply chunk_round_quiet; exact HP
    | apply preserves_bind; [|intros ?]
    | apply preserves_if ].
Qed.

(** Every file of results that [main] writes holds listings each of
    which carries, under [source_url], the whole list of URLs of the
    configuration: the URLs of every domain, whether or not a page was
    fetched from them. *)
Lemma results_carry_every_url (config : Config) (tr : list (event F)) :
  new_Config F E [] = (Ok config, tr) ->
  Forall (results_tagged_with (urls config)) (main F A E).
Proof.
  intros Hc.
  set (P := results_tagged_with (F:=F) (urls config)).
  assert (HP : forall e, match e with WroteJson _ _ => True | _ => P e end).
  { intros e. destruct e; exact I. }
  assert (Htr : Forall P tr).
  { pose proof (new_Config_prints P (fun _ => I) [] (Forall_nil _)) as H.
    rewrite Hc in H. exact H. }
  unfold main, main_body, try_M, bindM at 1. rewrite Hc.
  match goal with
  | |- Forall P (snd (let (r, tr') := ?m tr in _)) =>
      assert (Hm : preserves P m)
  end.
  { apply preserves_if; [apply preserves_emit; exact I|].
    apply preserves_bind; [apply preserves_emit; exact I|intros _].
    apply preserves_bind.
    - apply preserves_for_each. intros url acc. apply url_round_quiet, HP.
    - intros domain_results. apply preserves_for_each.
      intros [domain results] []. unfold save_round.
      apply preserves_bind; [apply save_results_tags|intros _].
      apply preserves_bind; [apply preserves_emit; exact I|intros _].
      apply preserves_emit; exact I. }
  specialize (Hm tr Htr).
  match goal with
  | |- Forall P (snd (let (r, tr') := ?m tr in _)) =>
      destruct (m tr) as [[x|e] tr']
  end; simpl in *; [exact Hm|].
  apply Forall_app. split; [exact Hm|constructor; [exact I|constructor]].
Qed.

End Runs.
End WithFloats.
End ScraperFacts.

(** ** The properties on the example runs *)

Module OnExamples.
Import Json Scraper Examples ChunkerFacts ScraperFacts.

(** With a budget of 6, the three sentences, of sizes 2.6, 5.2 and 1.3,
    make three chunks, none over the budget. *)
Lemma chunk_content_within_budget_witness :
  Chunker.chunk_content decimal three_sentences (budget 6)
  = [txt "Alpha beta."; txt "Gamma delta epsilon zeta."; txt "Eta."]
  /\ forall c, In c (Chunker.chunk_content decimal three_sentences (budget 6)) ->
               gt decimal (Chunker.chunk_estimate decimal c) 6 = false.
Proof.
  split; [vm_compute; reflexivity|].
  apply (proj1 (chunk_content_within_budget decimal (budget 6) three_sentences
                  (fun n => eq_refl))).
  intros u Hu. vm_compute in Hu.
  repeat (destruct Hu as [<-|Hu]; [vm_compute; reflexivity|]). destruct Hu.
Defined.

Lemma parse_api_response_raises_witness :
  parse_api_response literal_floats fenced_json = Raise AttributeError.
Proof.
  apply (parse_api_response_raises literal_floats fenced_json).
  vm_compute. reflexivity.
Defined.

(** C6. Of the three documented inputs, the fenced block labelled [json]
    makes the parser raise [AttributeError]; the bare record is wrapped in
    a one-element list of listings; the text that is not JSON gives the
    empty listings. *)
Theorem documented_inputs (F : float_codec) :
  parse_api_response F fenced_json = Raise AttributeError
  /\ parse_api_response F (qtxt "{'a':'1'}")
     = Ok (JDict [(txt "listings", JList [JDict [(txt "a", JStr (txt "1"))]])])
  /\ parse_api_response F (txt "not json at all") = Ok (empty_listings F).
Proof.
  repeat split; vm_compute; reflexivity.
Qed.

Lemma parse_api_response_keeps_listings_witness :
  parse_api_response literal_floats (qtxt "Here: {'listings': 'oops'} ok")
  = Ok (JDict [(txt "listings", JStr (txt "oops"))]).
Proof.
  apply (parse_api_response_keeps_listings literal_floats
           (qtxt "Here: {'listings': 'oops'} ok")
           (qtxt "{'listings': 'oops'}")).
  - vm_compute. reflexivity.
  - vm_compute. reflexivity.
  - vm_compute. reflexivity.
Defined.

(** A [null] under [listings] is kept as well. *)
Example null_listings_kept (F : float_codec) :
  parse_api_response F (qtxt "{'listings': null}")
  = Ok (JDict [(txt "listings", JNull)]).
Proof. vm_compute. reflexivity. Qed.

(** With the default configuration, a chunk of 131072 words asks for a
    negative number of tokens. *)
Lemma max_output_negative :
  (req_max_tokens (build_request long_content (fields default_config) default_config)
   < 0)%Z.
Proof. vm_compute. reflexivity. Qed.

Lemma failed_call_is_skipped_witness :
  process_with_api literal_floats (post two_domains 7) (txt "Alpha beta.")
    [txt "name"] two_domains_config = Ok (empty_listings literal_floats)
  /\
  for_each [(1, txt "Alpha beta."); (2, txt "Gamma delta.")]
    (chunk_round literal_floats two_domains two_domains_config 2) []
    before_first_chunk
  = for_each [(2, txt "Gamma delta.")]
      (chunk_round literal_floats two_domains two_domains_config 2) []
      (before_first_chunk
       ++ [Printed (ProcessingChunk 1 2);
           Posted (build_request (txt "Alpha beta.") [txt "name"] two_domains_config);
           Slept 1]).
Proof.
  split.
  - apply (proj1 (failed_call_is_skipped literal_floats two_domains)).
    vm_compute. right. discriminate.
  - apply (proj2 (failed_call_is_skipped literal_floats two_domains)
             two_domains_config 2 1 (txt "Alpha beta.")).
    vm_compute. right. discriminate.
Defined.

Lemma defaults_and_early_exit_witness :
  (exists c,
     load_config literal_floats no_files [] = (Ok c, [Printed ConfigFileNotFound]) /\
     api_provider c = txt "together" /\
     model c = TOGETHER_MODEL /\
     max_tokens c = 131072%Z /\
     max_output_tokens c = 4096%Z /\
     chunk_size c = 30000%Z)
  /\
  main literal_floats decimal no_files
  = [Printed ConfigFileNotFound; Printed UrlsFileNotFound;
     Printed FieldsFileNotFound; Printed NoUrlsOrFields].
Proof.
  split.
  - apply (proj1 (proj1 (defaults_and_early_exit literal_floats decimal no_files)
                    eq_refl) []).
  - apply (proj2 (defaults_and_early_exit literal_floats decimal no_files)
             (mkConfig (txt "together") TOGETHER_MODEL [] [] DEFAULT_CHUNK_SIZE
                       MAX_TOKENS_TOGETHER 4096 [] [])
             [Printed ConfigFileNotFound; Printed UrlsFileNotFound;
              Printed FieldsFileNotFound]).
    + vm_compute. reflexivity.
    + left. reflexivity.
Defined.

Lemma results_carry_every_url_witness :
  Forall (results_tagged_with [url_a; url_b])
         (main literal_floats decimal two_domains).
Proof.
  apply (results_carry_every_url literal_floats decimal two_domains
           two_domains_config []).
  vm_compute. reflexivity.
Defined.


(** A record that holds three backquotes is parsed, but the text of the
    result is not parsed back to it: the backquotes are taken for a fence
    and the listings come back empty. *)
Lemma reparse_loses_backquotes :
  parse_api_response literal_floats backquotes = Ok listings_backquotes
  /\ parse_api_response literal_floats (dumps literal_floats listings_backquotes)
     = Ok (empty_listings literal_floats)
  /\ empty_listings literal_floats <> listings_backquotes.
Proof.
  repeat split; try (vm_compute; reflexivity). discriminate.
Qed.

End OnExamples.

(** ** Writing a value and reading it back *)

Module JsonFacts.
Import PyFacts Json.

(** *** Numbers *)

Lemma stops_notdigit (t : str) : stops t = true -> notdigit t = true.
Proof.
  destruct t as [|c t]; simpl; [reflexivity|].
  destruct (isdigit c); simpl; congruence.
Qed.

Lemma stops_not_point (t : str) : stops t = true -> head_is 46%N t = false.
Proof.
  destruct t as [|c t]; simpl; [reflexivity|].
  destruct (c =? 46)%N; [|reflexivity].
  rewrite orb_true_r. simpl. congruence.
Qed.

Lemma span_digits_spec (s : str) :
  s = fst (span_digits s) ++ snd (span_digits s)
  /\ forallb isdigit (fst (span_digits s)) = true
  /\ notdigit (snd (span_digits s)) = true.
Proof.
  induction s as [|c s IH]; simpl; [repeat split|].
  destruct (isdigit c) eqn:E.
  - destruct (span_digits s) as [d r]. simpl in *.
    destruct IH as (H1 & H2 & H3). rewrite E, H2. repeat split; congruence.
  - simpl. rewrite E. repeat split.
Qed.

Lemma span_digits_app (ds t : str) :
  forallb isdigit ds = true -> notdigit t = true ->
  span_digits (ds ++ t) = (ds, t).
Proof.
  intros Hd Ht. induction ds as [|c ds IH]; simpl in *.
  - destruct t as [|c t]; [reflexivity|]. simpl in *.
    destruct (isdigit c); [discriminate|reflexivity].
  - apply andb_true_iff in Hd as [Hc Hd]. rewrite Hc, (IH Hd). reflexivity.
Qed.

Lemma take_sign_ext (s sg r t : str) :
  take_sign s = (sg, r) -> head_is 45%N t = false ->
  take_sign (sg ++ t) = (sg, t).
Proof.
  unfold take_sign. intros H Ht. destruct s as [|c s].
  - injection H as <- <-. simpl. destruct t as [|d t]; [reflexivity|].
    simpl in Ht. rewrite Ht. reflexivity.
  - destruct (c =? 45)%N eqn:E; injection H as <- <-; simpl.
    + rewrite E. reflexivity.
    + destruct t as [|d t]; [reflexivity|]. simpl in Ht. rewrite Ht. reflexivity.
Qed.

Lemma take_int_ext (s ip r t : str) :
  take_int s = Some (ip, r) -> notdigit t = true ->
  take_int (ip ++ t) = Some (ip, t)
  /\ exists c ip', ip = c :: ip' /\ isdigit c = true.
Proof.
  unfold take_int. intros H Ht. destruct s as [|c s]; [discriminate|].
  destruct ((49 <=? c) && (c <=? 57))%N eqn:E.
  - pose proof (span_digits_spec s) as (_ & Hd & _).
    destruct (span_digits s) as [d r0]. injection H as <- <-. simpl in Hd.
    split.
    + simpl. rewrite E, (span_digits_app d t Hd Ht). reflexivity.
    + exists c, d. split; [reflexivity|]. unfold isdigit.
      apply andb_true_iff in E as [E1 E2].
      apply N.leb_le in E1. rewrite E2, andb_true_r. apply N.leb_le. lia.
  - destruct (c =? 48)%N eqn:E0; [|discriminate].
    injection H as <- <-. split.
    + simpl. rewrite E, E0. reflexivity.
    + exists c, []. split; [reflexivity|].
      apply N.eqb_eq in E0. subst c. reflexivity.
Qed.

Lemma take_frac_ext (s x r t : str) :
  take_frac s = (x, r) -> notdigit t = true -> head_is 46%N t = false ->
  take_frac (x ++ t) = (x, t)
  /\ (x = [] \/ exists x', x = 46%N :: x').
Proof.
  unfold take_frac. intros H Ht Hp.
  assert (Hnil : take_frac t = ([], t)).
  { unfold take_frac. destruct t as [|p [|d t]]; try reflexivity.
    simpl in Hp. rewrite Hp. reflexivity. }
  destruct s as [|p [|d s]]; try (injection H as <- <-; split; [exact Hnil|left; reflexivity]).
  destruct ((p =? 46)%N && isdigit d) eqn:E.
  - pose proof (span_digits_spec s) as (_ & Hd & _).
    destruct (span_digits s) as [ds r0]. injection H as <- <-. simpl in Hd.
    split.
    + simpl. rewrite E, (span_digits_app ds t Hd Ht). reflexivity.
    + right. apply andb_true_iff in E as [E _]. apply N.eqb_eq in E. subst p.
      eexists. reflexivity.
  - injection H as <- <-. split; [exact Hnil|left; reflexivity].
Qed.

Lemma take_exp_ext (s x r t : str) :
  take_exp s = (x, r) -> stops t = true ->
  take_exp (x ++ t) = (x, t)
  /\ (x = [] \/ exists e x', x = e :: x' /\ ((e =? 101) || (e =? 69))%N = true).
Proof.
  intros H Ht. unfold take_exp in H.
  assert (Hnil : take_exp t = ([], t)).
  { unfold take_exp. destruct t as [|e t]; [reflexivity|]. simpl in Ht.
    destruct ((e =? 101) || (e =? 69))%N eqn:E; [|reflexivity].
    exfalso. apply negb_true_iff in Ht.
    rewrite !orb_false_iff in Ht. destruct Ht as (((_ & _) & H1) & H2).
    rewrite H1, H2 in E. discriminate. }
  destruct s as [|e s]; [injection H as <- <-; split; [exact Hnil|left; reflexivity]|].
  destruct ((e =? 101) || (e =? 69))%N eqn:E;
    [|injection H as <- <-; split; [exact Hnil|left; reflexivity]].
  pose proof (stops_notdigit t Ht) as Hnd.
  destruct s as [|sg s].
  - simpl in H. injection H as <- <-. split; [exact Hnil|left; reflexivity].
  - destruct ((sg =? 45) || (sg =? 43))%N eqn:Es.
    + pose proof (span_digits_spec s) as (_ & Hd & _).
      destruct (span_digits s) as [ds r0]. simpl in Hd.
      destruct ds as [|d ds]; simpl in H;
        [injection H as <- <-; split; [exact Hnil|left; reflexivity]|].
      injection H as <- <-. split.
      * unfold take_exp. cbn [app]. rewrite E, Es.
        change (d :: ds ++ t) with ((d :: ds) ++ t).
        rewrite (span_digits_app (d :: ds) t Hd Hnd). reflexivity.
      * right. eexists _, _. split; [reflexivity|exact E].
    + pose proof (span_digits_spec (sg :: s)) as (_ & Hd & _).
      destruct (span_digits (sg :: s)) as [ds r0]. simpl fst in Hd.
      destruct ds as [|d ds]; simpl in H;
        [injection H as <- <-; split; [exact Hnil|left; reflexivity]|].
      injection H as <- <-. split.
      * unfold take_exp. cbn [app]. rewrite E.
        assert (Hdd : isdigit d = true) by (simpl in Hd; apply andb_true_iff in Hd; tauto).
        assert (Hds : ((d =? 45) || (d =? 43))%N = false).
        { unfold isdigit in Hdd. apply andb_true_iff in Hdd as [H1 H2].
          apply N.leb_le in H1. apply orb_false_iff. split; apply N.eqb_neq; lia. }
        rewrite Hds.
        change (d :: ds ++ t) with ((d :: ds) ++ t).
        rewrite (span_digits_app (d :: ds) t Hd Hnd). reflexivity.
      * right. eexists _, _. split; [reflexivity|exact E].
Qed.

(** What [match_number] reads does not depend on what follows, as long as
    that ends the number. *)
Lemma match_number_ext (s text r : str) (k : bool) :
  match_number s = Some (k, text, r) ->
  forall t, stops t = true -> match_number (text ++ t) = Some (k, text, t).
Proof.
  unfold match_number. intros H t Ht.
  destruct (take_sign s) as [sg s1] eqn:Hsg.
  destruct (take_int s1) as [[ip s3]|] eqn:Hip; [|discriminate].
  destruct (take_frac s3) as [fr s4] eqn:Hfr.
  destruct (take_exp s4) as [ex s5] eqn:Hex.
  injection H as <- <- <-.
  destruct (take_exp_ext _ _ _ t Hex Ht) as [Hex' Hexh].
  assert (Hnd1 : notdigit (ex ++ t) = true /\ head_is 46%N (ex ++ t) = false).
  { destruct Hexh as [->|(e & x' & -> & He)].
    - split; [apply stops_notdigit, Ht|apply stops_not_point, Ht].
    - apply orb_true_iff in He as [He|He]; apply N.eqb_eq in He; subst e;
        split; reflexivity. }
  destruct Hnd1 as [Hnd1 Hp1].
  destruct (take_frac_ext _ _ _ (ex ++ t) Hfr Hnd1 Hp1) as [Hfr' Hfrh].
  assert (Hnd2 : notdigit (fr ++ ex ++ t) = true).
  { destruct Hfrh as [->|(x' & ->)]; [exact Hnd1|reflexivity]. }
  destruct (take_int_ext _ _ _ (fr ++ ex ++ t) Hip Hnd2) as [Hip' (c & ip' & -> & Hc)].
  assert (H45 : head_is 45%N ((c :: ip') ++ fr ++ ex ++ t) = false).
  { simpl. unfold isdigit in Hc. apply andb_true_iff in Hc as [H1 H2].
    apply N.leb_le in H1. apply N.eqb_neq. lia. }
  rewrite <- !app_assoc.
  rewrite (take_sign_ext _ _ _ _ Hsg H45), Hip', Hfr', Hex'. reflexivity.
Qed.

(** *** Integers *)

Lemma digits_of_uint_digits (d : Decimal.uint) :
  forallb isdigit (digits_of_uint d) = true.
Proof. induction d; simpl; auto. Qed.

Lemma to_uint_head (p : positive) :
  match Pos.to_uint p with
  | Decimal.Nil | Decimal.D0 _ => False
  | _ => True
  end.
Proof.
  pose proof (DecimalPos.Unsigned.to_of (Pos.to_uint p)) as H.
  rewrite DecimalPos.Unsigned.of_to in H. simpl in H.
  pose proof (DecimalPos.Unsigned.to_uint_nonzero p) as Hz.
  pose proof (DecimalFacts.nzhead_nonzero (Pos.to_uint p)) as Hn.
  unfold Decimal.unorm in H.
  destruct (Decimal.nzhead (Pos.to_uint p)) eqn:E; rewrite H; try exact I.
  - apply Hz. exact H.
  - exfalso. eapply Hn. reflexivity.
Qed.

(** The digits of a positive number: a digit that is not zero, then
    digits. *)
Lemma pos_digits (p : positive) :
  exists c ds,
    digits_of_uint (Pos.to_uint p) = c :: ds
    /\ ((49 <=? c) && (c <=? 57))%N = true
    /\ forallb isdigit ds = true.
Proof.
  pose proof (to_uint_head p) as H.
  pose proof (digits_of_uint_digits (Pos.to_uint p)) as Hd.
  destruct (Pos.to_uint p); try contradiction; simpl in Hd |- *;
    eexists _, _; (split; [reflexivity|split; [reflexivity|exact Hd]]).
Qed.

Lemma digits_value_acc (d : Decimal.uint) :
  (forall a,
      fold_left (fun acc c => (10 * acc + (c - 48))%N) (digits_of_uint d) (Npos a)
      = Npos (Pos.of_uint_acc d a))
  /\ fold_left (fun acc c => (10 * acc + (c - 48))%N) (digits_of_uint d) 0%N
     = Pos.of_uint d.
Proof.
  induction d as [|d [IH1 IH0]|d [IH1 IH0]|d [IH1 IH0]|d [IH1 IH0]|d [IH1 IH0]
                 |d [IH1 IH0]|d [IH1 IH0]|d [IH1 IH0]|d [IH1 IH0]|d [IH1 IH0]];
    (split; [intros a|]); try reflexivity;
    cbn [digits_of_uint fold_left Pos.of_uint Pos.of_uint_acc];
    first [ exact IH0
          | rewrite <- IH1; f_equal; lia ].
Qed.

Lemma digits_value_pos (p : positive) :
  digits_value (digits_of_uint (Pos.to_uint p)) = Npos p.
Proof.
  unfold digits_value. rewrite (proj2 (digits_value_acc _)).
  apply DecimalPos.Unsigned.of_to.
Qed.

(** The text of an integer is read as that integer. *)
Lemma parse_int_repr (z : Z) : parse_int (int_repr z) = z.
Proof.
  destruct z as [|p|p]; [reflexivity| |].
  - unfold int_repr. pose proof (digits_value_pos p) as H.
    destruct (pos_digits p) as (c & ds & E & Hc & _). rewrite E in *.
    unfold parse_int.
    assert ((c =? 45)%N = false) as ->.
    { apply andb_true_iff in Hc as [H1 _]. apply N.leb_le in H1.
      apply N.eqb_neq. lia. }
    rewrite H. reflexivity.
  - unfold int_repr, parse_int. rewrite N.eqb_refl, digits_value_pos. reflexivity.
Qed.

Lemma match_number_pos (p : positive) :
  match_number (digits_of_uint (Pos.to_uint p))
  = Some (false, digits_of_uint (Pos.to_uint p), []).
Proof.
  destruct (pos_digits p) as (c & ds & -> & Hc & Hd).
  unfold match_number, take_sign.
  assert ((c =? 45)%N = false) as ->.
  { apply andb_true_iff in Hc as [H1 _]. apply N.leb_le in H1.
    apply N.eqb_neq. lia. }
  unfold take_int. rewrite Hc.
  rewrite <- (app_nil_r ds) at 1. rewrite (span_digits_app ds [] Hd eq_refl).
  simpl. rewrite app_nil_r. reflexivity.
Qed.

Lemma match_number_int (z : Z) :
  match_number (int_repr z) = Some (false, int_repr z, []).
Proof.
  destruct z as [|p|p]; [reflexivity|apply match_number_pos|].
  unfold int_repr. pose proof (match_number_pos p) as H.
  unfold match_number in *. cbn [take_sign]. rewrite N.eqb_refl.
  destruct (pos_digits p) as (c & ds & E & Hc & _). rewrite E in *.
  unfold take_sign in H.
  assert (E45 : (c =? 45)%N = false).
  { apply andb_true_iff in Hc as [H1 _]. apply N.leb_le in H1.
    apply N.eqb_neq. lia. }
  rewrite E45 in H.
  destruct (take_int (c :: ds)) as [[ip s3]|]; [|discriminate].
  destruct (take_frac s3) as [fr s4]. destruct (take_exp s4) as [ex s5].
  injection H as H1 H2 H3. rewrite H1, H3. simpl app in H2 |- *.
  rewrite H2. reflexivity.
Qed.

(** The first character of the text of a number: the sign or a digit. *)
Lemma match_number_head (s text r : str) (k : bool) :
  match_number s = Some (k, text, r) ->
  exists c text', text = c :: text' /\ (isdigit c || (c =? 45)%N) = true.
Proof.
  unfold match_number, take_sign. intros H.
  destruct s as [|c s]; [discriminate|].
  destruct (c =? 45)%N eqn:E.
  - destruct (take_int s) as [[ip s3]|]; [|discriminate].
    destruct (take_frac s3) as [fr s4]. destruct (take_exp s4) as [ex s5].
    injection H as _ <- _. eexists _, _. split; [reflexivity|].
    rewrite E. apply orb_true_r.
  - destruct (take_int (c :: s)) as [[ip s3]|] eqn:Hip; [|discriminate].
    destruct (take_int_ext _ _ _ [] Hip eq_refl) as (_ & d & ip' & -> & Hd).
    destruct (take_frac s3) as [fr s4]. destruct (take_exp s4) as [ex s5].
    injection H as _ <- _. eexists _, _. split; [reflexivity|].
    rewrite Hd. reflexivity.
Qed.

(** *** Strings *)

Lemma hex_of_control (c : N) :
  (c <? 32)%N = true ->
  hex4 48%N 48%N (hex_digit (c / 16)) (hex_digit (c mod 16)) = Some c
  /\ is_high_surrogate c = false.
Proof.
  intros H. apply N.ltb_lt in H.
  destruct c as [|p]; [split; reflexivity|].
  do 5 (destruct p as [p|p|]; try (exfalso; lia); try (split; reflexivity)).
Qed.

Lemma scanstring_escape_char (c : char) (t : str) :
  scanstring (escape_char c ++ t) = cons_char c (scanstring t).
Proof.
  unfold escape_char.
  destruct (c =? 34)%N eqn:E34;
    [apply N.eqb_eq in E34; subst c; reflexivity|].
  destruct (c =? 92)%N eqn:E92;
    [apply N.eqb_eq in E92; subst c; reflexivity|].
  destruct (c =? 10)%N eqn:E10;
    [apply N.eqb_eq in E10; subst c; reflexivity|].
  destruct (c =? 13)%N eqn:E13;
    [apply N.eqb_eq in E13; subst c; reflexivity|].
  destruct (c =? 9)%N eqn:E9;
    [apply N.eqb_eq in E9; subst c; reflexivity|].
  destruct (c =? 8)%N eqn:E8;
    [apply N.eqb_eq in E8; subst c; reflexivity|].
  destruct (c =? 12)%N eqn:E12;
    [apply N.eqb_eq in E12; subst c; reflexivity|].
  destruct (c <? 32)%N eqn:E32.
  - destruct (hex_of_control c E32) as [Hh Hs].
    cbn [app scanstring]. cbn [N.eqb Pos.eqb].
    rewrite Hh, Hs. reflexivity.
  - cbn [app scanstring]. rewrite E34, E92.
    assert ((c <=? 31)%N = false) as ->.
    { apply N.ltb_ge in E32. apply N.leb_gt. lia. }
    reflexivity.
Qed.

(** The text of a string, after its opening quote, is read as that
    string. *)
Lemma scanstring_escaped (s rest : str) :
  scanstring (flat_map escape_char s ++ 34%N :: rest) = Some (s, rest).
Proof.
  induction s as [|c s IH]; [simpl; reflexivity|].
  cbn [flat_map]. rewrite <- app_assoc, scanstring_escape_char, IH.
  reflexivity.
Qed.

(** *** Values *)

Section Values.
Variable F : float_codec.

Local Abbreviation value := (Json.value F).

(** Induction on a value, the items of a list and the members of a
    dictionary being values too. *)
Lemma value_induction (P : value -> Prop) :
  P JNull ->
  (forall b, P (JBool b)) ->
  (forall z, P (JInt z)) ->
  (forall f, P (JFloat f)) ->
  (forall s, P (JStr s)) ->
  (forall l, Forall P l -> P (JList l)) ->
  (forall d, Forall (fun kv => P (snd kv)) d -> P (JDict d)) ->
  forall v, P v.
Proof.
  intros Hn Hb Hi Hf Hs Hl Hd.
  fix IH 1. intros [|b|z|f|s|l|d].
  - exact Hn.
  - apply Hb.
  - apply Hi.
  - apply Hf.
  - apply Hs.
  - apply Hl. induction l as [|x l IHl]; constructor; [apply IH|exact IHl].
  - apply Hd. induction d as [|[k x] d IHd]; constructor; [apply IH|exact IHd].
Qed.

Lemma wf_list (l : list value) : wf F (JList l) <-> Forall (wf F) l.
Proof.
  simpl. induction l as [|x l IH]; simpl.
  - split; [constructor|trivial].
  - rewrite IH. split.
    + intros [H1 H2]. constructor; assumption.
    + intros H. inversion H; subst. split; assumption.
Qed.

Lemma wf_dict (d : list (str * value)) :
  wf F (JDict d) <-> NoDup (map fst d) /\ Forall (fun kv => wf F (snd kv)) d.
Proof.
  simpl. apply and_iff_compat_l.
  induction d as [|[k x] d IH]; simpl.
  - split; [constructor|trivial].
  - rewrite IH. split.
    + intros [H1 H2]. constructor; assumption.
    + intros H. inversion H; subst. split; assumption.
Qed.

Lemma need_positive (v : value) : 1 <= need F v.
Proof. destruct v; simpl; lia. Qed.

(** *** Reading what was written *)

Lemma skip_ws_stay (s : str) :
  match s with [] => True | c :: _ => is_ws c = false end -> skip_ws s = s.
Proof. destruct s as [|c s]; simpl; [reflexivity|]. intros ->. reflexivity. Qed.

Lemma skip_ws_spaces (n : nat) (s : str) :
  skip_ws (repeat 32%N n ++ s) = skip_ws s.
Proof. induction n as [|n IH]; simpl; [reflexivity|exact IH]. Qed.

Lemma skip_ws_newline_indent (indent level : nat) (s : str) :
  skip_ws (newline_indent indent level ++ s) = skip_ws s.
Proof. unfold newline_indent. simpl. apply skip_ws_spaces. Qed.

Lemma follows_stops (t : str) : follows t = true -> stops t = true.
Proof.
  destruct t as [|c t]; simpl; [reflexivity|]. intros H.
  apply orb_true_iff in H as [H|H]; apply N.eqb_eq in H; subst c; reflexivity.
Qed.

Lemma follows_newline (indent level : nat) (s : str) :
  follows (newline_indent indent level ++ s) = true.
Proof. reflexivity. Qed.

Lemma startswith_first (p : str) a p' c (s : str) :
  p = a :: p' -> a <> c -> startswith p (c :: s) = false.
Proof.
  intros -> H. simpl. apply andb_false_iff. left. apply N.eqb_neq. exact H.
Qed.

Lemma startswith_second (p : str) a b p' c d (s : str) :
  p = a :: b :: p' -> b <> d -> startswith p (c :: d :: s) = false.
Proof.
  intros -> H. simpl. apply andb_false_iff. right.
  apply andb_false_iff. left. apply N.eqb_neq. exact H.
Qed.

(** A text that begins with a number begins with no name. *)
Lemma number_not_name (s text r : str) (k : bool) :
  match_number s = Some (k, text, r) ->
  startswith (txt "null") s = false
  /\ startswith (txt "true") s = false
  /\ startswith (txt "false") s = false
  /\ startswith (txt "NaN") s = false
  /\ startswith (txt "Infinity") s = false
  /\ startswith (txt "-Infinity") s = false
  /\ head_is 34%N s = false /\ head_is 123%N s = false /\ head_is 91%N s = false.
Proof.
  unfold match_number, take_sign. intros H.
  destruct s as [|c s]; [discriminate|].
  destruct (c =? 45)%N eqn:E.
  - apply N.eqb_eq in E. subst c.
    destruct (take_int s) as [[ip s3]|] eqn:Hip; [|discriminate].
    unfold take_int in Hip. destruct s as [|d s]; [discriminate|].
    assert (Hd : 73%N <> d).
    { destruct ((49 <=? d) && (d <=? 57))%N eqn:E1.
      - apply andb_true_iff in E1 as [H1 H2]. apply N.leb_le in H2. lia.
      - destruct (d =? 48)%N eqn:E2; [|discriminate].
        apply N.eqb_eq in E2. subst d. discriminate. }
    repeat split; try reflexivity.
    eapply startswith_second; [reflexivity|exact Hd].
  - destruct (take_int (c :: s)) as [[ip s3]|] eqn:Hip; [|discriminate].
    unfold take_int in Hip.
    assert (Hc : (48 <= c <= 57)%N).
    { destruct ((49 <=? c) && (c <=? 57))%N eqn:E1.
      - apply andb_true_iff in E1 as [H1 H2]. apply N.leb_le in H1, H2. lia.
      - destruct (c =? 48)%N eqn:E2; [|discriminate].
        apply N.eqb_eq in E2. lia. }
    repeat split;
      first [ eapply startswith_first; [reflexivity|cbv; lia]
            | unfold head_is; apply N.eqb_neq; lia ].
Qed.

Lemma scan_once_atom (fuel : nat) (s : str) :
  head_is 34%N s = false -> head_is 123%N s = false -> head_is 91%N s = false ->
  scan_once F (S fuel) s = scan_atom F s.
Proof. intros H1 H2 H3. cbn [scan_once]. rewrite H1, H2, H3. reflexivity. Qed.

(** The text of a number, followed by what ends a number, is read as that
    number. *)
Lemma scan_once_number (fuel : nat) (text t : str) (k : bool) :
  match_number text = Some (k, text, []) -> stops t = true ->
  scan_once F (S fuel) (text ++ t)
  = Scanned (if k return value
             then JFloat (parse_float F text) else JInt (parse_int text)) t.
Proof.
  intros H Ht. pose proof (match_number_ext _ _ _ _ H t Ht) as He.
  destruct (number_not_name _ _ _ _ He) as (H1 & H2 & H3 & H4 & H5 & H6 & H7 & H8 & H9).
  rewrite scan_once_atom by assumption.
  unfold scan_atom. rewrite H1, H2, H3, H4, H5, H6, He.
  destruct k; reflexivity.
Qed.

(** The text of a value begins with a character that is neither
    whitespace, nor a closing bracket, nor a byte order mark. *)
Lemma encode_head (indent level : nat) (v : value) :
  wf F v ->
  exists c t, encode F indent level v = c :: t
              /\ is_ws c = false /\ (c =? 93)%N = false
              /\ (65279 =? c)%N = false.
Proof.
  assert (Hdigit : forall c, (45 <= c <= 57)%N ->
            is_ws c = false /\ (c =? 93)%N = false /\ (65279 =? c)%N = false).
  { intros c Hc. unfold is_ws. rewrite !orb_false_iff.
    split; [|split]; [split; [split; [split|]|]| |]; apply N.eqb_neq; lia. }
  destruct v as [|[|]|[|p|p]|f|s|[|x l]|[|kv d]]; intros H;
    try (eexists _, _; split; [reflexivity|split; [|split]; reflexivity]).
  - (* a positive integer *)
    simpl. destruct (pos_digits p) as (c & ds & -> & Hc & _).
    apply andb_true_iff in Hc as [H1 H2]. apply N.leb_le in H1, H2.
    exists c, ds. split; [reflexivity|]. apply Hdigit. lia.
  - (* a float *)
    simpl in H |- *.
    destruct H as [[Hl _]|[[-> _]|[[-> _]|[-> _]]]];
      try (eexists _, _; split; [reflexivity|split; [|split]; reflexivity]).
    destruct (match_number_head _ _ _ _ Hl) as (c & t & -> & Hc).
    exists c, t. split; [reflexivity|]. apply Hdigit.
    apply orb_true_iff in Hc as [Hc|Hc].
    + unfold isdigit in Hc. apply andb_true_iff in Hc as [H1 H2].
      apply N.leb_le in H1, H2. lia.
    + apply N.eqb_eq in Hc. lia.
Qed.

Lemma skip_ws_encode (indent level : nat) (v : value) (t : str) :
  wf F v -> skip_ws (encode F indent level v ++ t) = encode F indent level v ++ t.
Proof.
  intros H. destruct (encode_head indent level v H) as (c & u & -> & Hc & _).
  simpl. rewrite Hc. reflexivity.
Qed.

Lemma join_cons2 (sep a b : str) (l : list str) :
  join sep (a :: b :: l) = a ++ sep ++ join sep (b :: l).
Proof. reflexivity. Qed.

(** *** Dictionaries *)

Lemma dict_set_fresh {V} (k : str) (v : V) (d : list (str * V)) :
  ~ In k (map fst d) -> dict_set k v d = d ++ [(k, v)].
Proof.
  induction d as [|[k' v'] d IH]; simpl; intros H; [reflexivity|].
  destruct (str_eqb k k') eqn:E.
  - apply str_eqb_eq in E. subst k'. exfalso. apply H. left. reflexivity.
  - rewrite IH; [reflexivity|]. intros Hin. apply H. right. exact Hin.
Qed.

Lemma dict_of_pairs_acc {V} (l acc : list (str * V)) :
  NoDup (map fst (acc ++ l)) ->
  fold_left (fun d kv => dict_set (fst kv) (snd kv) d) l acc = acc ++ l.
Proof.
  revert acc. induction l as [|[k v] l IH]; intros acc H; simpl.
  - rewrite app_nil_r. reflexivity.
  - rewrite dict_set_fresh.
    + rewrite IH; rewrite <- app_assoc; [reflexivity|exact H].
    + rewrite map_app in H. simpl in H. apply NoDup_remove_2 in H.
      intros Hin. apply H. apply in_or_app. left. exact Hin.
Qed.

(** A list of pairs without a repeated key is the dictionary of its
    pairs. *)
Lemma dict_of_pairs_nodup {V} (d : list (str * V)) :
  NoDup (map fst d) -> dict_of_pairs d = d.
Proof. intros H. unfold dict_of_pairs. apply (dict_of_pairs_acc d [] H). Qed.

(** *** The round trip *)

Section RoundTrip.
Variable indent : nat.

Local Abbreviation read_back := (Json.read_back F indent).
Local Abbreviation items_need := (Json.items_need F).
Local Abbreviation members_need := (Json.members_need F).
Local Abbreviation member_text := (Json.member_text F indent).

Lemma parse_items_written (level : nat) (l : list value) :
  l <> [] -> Forall read_back l -> Forall (wf F) l ->
  forall fuel rest,
    items_need l <= fuel ->
    parse_items F fuel
      (join (txt "," ++ newline_indent indent (S level))
            (map (encode F indent (S level)) l)
       ++ newline_indent indent level ++ 93%N :: rest)
    = Scanned l rest.
Proof.
  induction l as [|x l IH]; intros Hne Hr Hw fuel rest Hf; [congruence|].
  inversion Hr as [|? ? Hx Hl]; subst. inversion Hw as [|? ? Wx Wl]; subst.
  simpl in Hf. destruct fuel as [|fuel]; [lia|].
  destruct l as [|y l].
  - simpl map. simpl join. cbn [parse_items].
    rewrite (Hx (S level) _ fuel (follows_newline _ _ _)) by (simpl in Hf; lia).
    rewrite skip_ws_newline_indent. reflexivity.
  - cbn [map]. rewrite join_cons2. rewrite <- !app_assoc.
    change (txt "," ++ newline_indent indent (S level) ++ ?t)
      with (44%N :: newline_indent indent (S level) ++ t).
    cbn [parse_items].
    rewrite (Hx (S level) (44%N :: _) fuel eq_refl) by lia.
    cbn [skip_ws is_ws N.eqb Pos.eqb orb head_is tl].
    rewrite skip_ws_newline_indent.
    change (encode F indent (S level) y :: map (encode F indent (S level)) l)
      with (map (encode F indent (S level)) (y :: l)).
    assert (Hs : forall t,
               skip_ws (join (txt "," ++ newline_indent indent (S level))
                          (map (encode F indent (S level)) (y :: l)) ++ t)
               = join (txt "," ++ newline_indent indent (S level))
                   (map (encode F indent (S level)) (y :: l)) ++ t).
    { intros t. inversion Wl as [|? ? Wy _]; subst.
      destruct (encode_head indent (S level) y Wy) as (c & u & E & Hc & _ & _).
      destruct l as [|z l]; cbn [map join]; rewrite E; simpl; rewrite Hc;
        reflexivity. }
    rewrite Hs.
    rewrite (IH ltac:(discriminate) Hl Wl fuel rest) by lia.
    reflexivity.
Qed.

Lemma parse_members_written (level : nat) (d : list (str * value)) :
  d <> [] -> Forall (fun kv => read_back (snd kv)) d ->
  Forall (fun kv => wf F (snd kv)) d ->
  forall fuel rest,
    members_need d <= fuel ->
    parse_members F fuel
      (join (txt "," ++ newline_indent indent (S level))
            (map (member_text level) d)
       ++ newline_indent indent level ++ 125%N :: rest)
    = Scanned d rest.
Proof.
  induction d as [|[k x] d IH]; intros Hne Hr Hw fuel rest Hf; [congruence|].
  inversion Hr as [|? ? Hx Hl]; subst. inversion Hw as [|? ? Wx Wl]; subst.
  simpl in Hx, Wx.
  simpl in Hf. destruct fuel as [|fuel]; [lia|].
  assert (Hkey : forall t,
             parse_members F (S fuel) (member_text level (k, x) ++ t)
             = match scan_once F fuel (encode F indent (S level) x ++ t) with
               | Scanned v r2 =>
                   let r3 := skip_ws r2 in
                   if head_is 125%N r3 then Scanned [(k, v)] (tl r3)
                   else if head_is 44%N r3 then
                     match parse_members F fuel (skip_ws (tl r3)) with
                     | Scanned kvs r4 => Scanned ((k, v) :: kvs) r4
                     | Invalid => Invalid
                     | NoFuel => NoFuel
                     end
                   else Invalid
               | Invalid => Invalid
               | NoFuel => NoFuel
               end).
  { intros t. unfold Json.member_text, encode_basestring.
    change (txt ": ") with [58%N; 32%N].
    cbn [parse_members app head_is tl N.eqb Pos.eqb].
    rewrite <- !app_assoc. cbn [app].
    rewrite scanstring_escaped.
    cbn [skip_ws is_ws N.eqb Pos.eqb orb head_is tl].
    rewrite skip_ws_encode by exact Wx. reflexivity. }
  destruct d as [|[k' y] d].
  - simpl map. simpl join. rewrite Hkey.
    rewrite (Hx (S level) _ fuel (follows_newline _ _ _)) by lia.
    cbv zeta. rewrite skip_ws_newline_indent. reflexivity.
  - cbn [map]. rewrite join_cons2. rewrite <- !app_assoc.
    change (txt "," ++ newline_indent indent (S level) ++ ?t)
      with (44%N :: newline_indent indent (S level) ++ t).
    rewrite Hkey.
    rewrite (Hx (S level) (44%N :: _) fuel eq_refl) by lia.
    cbv zeta.
    cbn [skip_ws is_ws N.eqb Pos.eqb orb head_is tl].
    rewrite skip_ws_newline_indent.
    change (member_text level (k', y) :: map (member_text level) d)
      with (map (member_text level) ((k', y) :: d)).
    assert (Hs : forall t,
               skip_ws (join (txt "," ++ newline_indent indent (S level))
                          (map (member_text level) ((k', y) :: d)) ++ t)
               = join (txt "," ++ newline_indent indent (S level))
                   (map (member_text level) ((k', y) :: d)) ++ t).
    { intros t. destruct d as [|z d]; reflexivity. }
    rewrite Hs.
    rewrite (IH ltac:(discriminate) Hl Wl fuel rest) by lia.
    reflexivity.
Qed.

(** The text of a value that a decoder can return is read back as that
    value. *)
Theorem written_is_read (v : value) : wf F v -> read_back v.
Proof.
  induction v as [|b|z|f|s|l IHl|d IHd] using value_induction;
    intros Hw level rest fuel Hr Hf;
    (destruct fuel as [|fuel]; [simpl in Hf; lia|]).
  - reflexivity.
  - destruct b; reflexivity.
  - simpl encode.
    rewrite (scan_once_number fuel _ rest false (match_number_int z)
               (follows_stops _ Hr)).
    rewrite parse_int_repr. reflexivity.
  - simpl encode. simpl in Hw.
    destruct Hw as [[Hl He]|[[-> ->]|[[-> ->]|[-> ->]]]]; try reflexivity.
    rewrite (scan_once_number fuel _ rest true Hl (follows_stops _ Hr)).
    rewrite He. reflexivity.
  - simpl encode. unfold encode_basestring.
    cbn [scan_once app head_is tl N.eqb Pos.eqb]. rewrite <- app_assoc.
    cbn [app]. rewrite scanstring_escaped. reflexivity.
  - apply wf_list in Hw. destruct l as [|x l]; [reflexivity|].
    change (encode F indent level (JList (x :: l)))
      with (91%N :: newline_indent indent (S level)
            ++ join (txt "," ++ newline_indent indent (S level))
                 (map (encode F indent (S level)) (x :: l))
            ++ newline_indent indent level ++ [93%N]).
    cbn [scan_once app head_is tl N.eqb Pos.eqb].
    rewrite <- !app_assoc. cbn [app].
    rewrite skip_ws_newline_indent.
    assert (Hs : forall t,
               skip_ws (join (txt "," ++ newline_indent indent (S level))
                          (map (encode F indent (S level)) (x :: l)) ++ t)
               = join (txt "," ++ newline_indent indent (S level))
                   (map (encode F indent (S level)) (x :: l)) ++ t
               /\ head_is 93%N
                    (join (txt "," ++ newline_indent indent (S level))
                       (map (encode F indent (S level)) (x :: l)) ++ t) = false).
    { intros t. inversion Hw as [|? ? Wx _]; subst.
      destruct (encode_head indent (S level) x Wx) as (c & u & E & Hc & H93 & _).
      destruct l as [|z l]; cbn [map join]; rewrite E; simpl; rewrite Hc, H93;
        split; reflexivity. }
    rewrite (proj1 (Hs _)), (proj2 (Hs _)).
    rewrite (parse_items_written level (x :: l) ltac:(discriminate) ) ; try assumption.
    + reflexivity.
    + clear - IHl Hw. induction IHl as [|y l' Hy _ IH]; [constructor|].
      inversion Hw; subst. constructor; [apply Hy; assumption|apply IH; assumption].
    + unfold Json.items_need. simpl in Hf |- *. lia.
  - apply wf_dict in Hw as [Hn Hw]. destruct d as [|[k x] d]; [reflexivity|].
    change (encode F indent level (JDict ((k, x) :: d)))
      with (123%N :: newline_indent indent (S level)
            ++ join (txt "," ++ newline_indent indent (S level))
                 (map (member_text level) ((k, x) :: d))
            ++ newline_indent indent level ++ [125%N]).
    cbn [scan_once app head_is tl N.eqb Pos.eqb].
    rewrite <- !app_assoc. cbn [app].
    rewrite skip_ws_newline_indent.
    assert (Hs : forall t,
               skip_ws (join (txt "," ++ newline_indent indent (S level))
                          (map (member_text level) ((k, x) :: d)) ++ t)
               = join (txt "," ++ newline_indent indent (S level))
                   (map (member_text level) ((k, x) :: d)) ++ t
               /\ head_is 125%N
                    (join (txt "," ++ newline_indent indent (S level))
                       (map (member_text level) ((k, x) :: d)) ++ t) = false).
    { intros t. destruct d as [|z d]; split; reflexivity. }
    rewrite (proj1 (Hs _)), (proj2 (Hs _)).
    rewrite (parse_members_written level ((k, x) :: d) ltac:(discriminate));
      try assumption.
    + rewrite dict_of_pairs_nodup by exact Hn. reflexivity.
    + clear - IHd Hw. induction IHd as [|y d' Hy _ IH]; [constructor|].
      inversion Hw; subst. constructor; [apply Hy; assumption|apply IH; assumption].
    + unfold Json.members_need. simpl in Hf |- *. lia.
Qed.

(** The fuel that reads a value back is no more than the length of its
    text. *)
Lemma items_need_le (level : nat) (l : list value) :
  Forall (fun x => forall level, need F x <= length (encode F indent level x)) l ->
  items_need l
  <= length (join (txt "," ++ newline_indent indent (S level))
               (map (encode F indent (S level)) l)) + 1.
Proof.
  induction 1 as [|x l Hx _ IH]; [simpl; lia|].
  specialize (Hx (S level)).
  destruct l as [|y l]; [simpl; lia|].
  cbn [map]. rewrite join_cons2, !length_app.
  change (encode F indent (S level) y :: map (encode F indent (S level)) l)
    with (map (encode F indent (S level)) (y :: l)).
  change (items_need (x :: y :: l)) with (S (need F x + items_need (y :: l))).
  simpl length at 2. unfold str, char in *. lia.
Qed.

Lemma members_need_le (level : nat) (d : list (str * value)) :
  Forall (fun kv => forall level,
              need F (snd kv) <= length (encode F indent level (snd kv))) d ->
  members_need d
  <= length (join (txt "," ++ newline_indent indent (S level))
               (map (member_text level) d)) + 1.
Proof.
  induction 1 as [|[k x] d Hx _ IH]; [simpl; lia|].
  specialize (Hx (S level)). simpl snd in Hx.
  assert (Hm : need F x <= length (member_text level (k, x))).
  { unfold Json.member_text. rewrite !length_app.
    eapply Nat.le_trans; [exact Hx|]. rewrite Nat.add_assoc. apply Nat.le_add_l. }
  destruct d as [|y d];
    [unfold Json.members_need; cbn [fold_right map join];
     unfold str, char in *; lia|].
  cbn [map]. rewrite join_cons2, !length_app.
  change (member_text level y :: map (member_text level) d)
    with (map (member_text level) (y :: d)).
  change (members_need ((k, x) :: y :: d))
    with (S (need F x + members_need (y :: d))).
  simpl length at 2. unfold str, char in *. lia.
Qed.

Lemma need_le_length (v : value) :
  wf F v -> forall level, need F v <= length (encode F indent level v).
Proof.
  induction v as [|b|z|f|s|l IHl|d IHd] using value_induction; intros Hw level.
  - simpl. lia.
  - destruct b; simpl; lia.
  - destruct (encode_head indent level (JInt z) Hw) as (c & t & -> & _). simpl. lia.
  - destruct (encode_head indent level (JFloat f) Hw) as (c & t & -> & _). simpl. lia.
  - simpl. lia.
  - apply wf_list in Hw. destruct l as [|x l]; [simpl; lia|].
    change (encode F indent level (JList (x :: l)))
      with (91%N :: newline_indent indent (S level)
            ++ join (txt "," ++ newline_indent indent (S level))
                 (map (encode F indent (S level)) (x :: l))
            ++ newline_indent indent level ++ [93%N]).
    change (need F (JList (x :: l))) with (S (items_need (x :: l))).
    assert (H : items_need (x :: l)
                <= length (join (txt "," ++ newline_indent indent (S level))
                             (map (encode F indent (S level)) (x :: l))) + 1).
    { apply items_need_le. clear - IHl Hw.
      induction IHl as [|y l' Hy _ IH]; [constructor|].
      inversion Hw; subst. constructor; [intros lv; apply Hy; assumption|].
      apply IH; assumption. }
    cbn [length]. rewrite !length_app. cbn [length].
    unfold str, char in *. lia.
  - apply wf_dict in Hw as [_ Hw]. destruct d as [|[k x] d]; [simpl; lia|].
    change (encode F indent level (JDict ((k, x) :: d)))
      with (123%N :: newline_indent indent (S level)
            ++ join (txt "," ++ newline_indent indent (S level))
                 (map (member_text level) ((k, x) :: d))
            ++ newline_indent indent level ++ [125%N]).
    change (need F (JDict ((k, x) :: d))) with (S (members_need ((k, x) :: d))).
    assert (H : members_need ((k, x) :: d)
                <= length (join (txt "," ++ newline_indent indent (S level))
                             (map (member_text level) ((k, x) :: d))) + 1).
    { apply members_need_le. clear - IHd Hw.
      induction IHd as [|y d' Hy _ IH]; [constructor|].
      inversion Hw; subst. constructor; [intros lv; apply Hy; assumption|].
      apply IH; assumption. }
    cbn [length]. rewrite !length_app. cbn [length].
    unfold str, char in *. lia.
Qed.

(** [loads] reads back the text written for a value that a decoder can
    return. *)
Theorem loads_written (v : value) :
  wf F v -> loads F (encode F indent 0 v) = Ok v.
Proof.
  intros Hw. unfold loads.
  destruct (encode_head indent 0 v Hw) as (c & t & E & Hc & _ & Hbom).
  assert (startswith [65279%N] (encode F indent 0 v) = false) as ->.
  { rewrite E. cbn [startswith]. rewrite Hbom. reflexivity. }
  rewrite <- (app_nil_r (encode F indent 0 v)) at 2.
  rewrite skip_ws_encode by exact Hw.
  rewrite (written_is_read v Hw 0 [] _ eq_refl).
  - reflexivity.
  - pose proof (need_le_length v Hw 0). lia.
Qed.

End RoundTrip.

(** *** Fuel *)

Lemma skip_ws_length (s : str) : length (skip_ws s) <= length s.
Proof.
  induction s as [|c s IH]; simpl; [lia|].
  destruct (is_ws c); simpl; lia.
Qed.

Lemma head_is_tl (c : char) (s : str) :
  head_is c s = true -> length s = S (length (tl s)).
Proof. destruct s; simpl; [discriminate|reflexivity]. Qed.

Lemma cons_char_some (c : char) (o : option (str * str)) x r :
  cons_char c o = Some (x, r) -> exists x', o = Some (x', r).
Proof.
  destruct o as [[x' r']|]; simpl; intros H; [|discriminate].
  injection H as _ <-. eauto.
Qed.

Lemma scanstring_shorter (s x r : str) :
  scanstring s = Some (x, r) -> length r < length s.
Proof.
  assert (Hle : length s <= length s) by lia.
  revert Hle. generalize (length s) at 2. intros n. 
  revert s x r. induction n as [|n IH]; intros s x r Hle H.
  - destruct s; [discriminate|simpl in Hle; lia].
  - assert (Hrec : forall c t, length t <= n ->
               cons_char c (scanstring t) = Some (x, r) -> length r < length t).
    { intros c t Ht Hc. apply cons_char_some in Hc as (x' & Hc).
      eapply IH; eassumption. }
    destruct s as [|c s1]; [discriminate|]. cbn [scanstring] in H.
    simpl in Hle.
    destruct (c =? 34)%N; [injection H as _ <-; simpl; lia|].
    destruct (c =? 92)%N.
    2:{ destruct (c <=? 31)%N; [discriminate|].
        apply Hrec in H; [simpl; lia|lia]. }
    destruct s1 as [|e s2]; [discriminate|]. simpl in Hle.
    destruct (e =? 117)%N.
    2:{ destruct (unescape e); [|discriminate].
        apply Hrec in H; [simpl; lia|lia]. }
    destruct s2 as [|h1 [|h2 [|h3 [|h4 s3]]]]; try discriminate.
    simpl in Hle.
    destruct (hex4 h1 h2 h3 h4); [|discriminate].
    destruct (is_high_surrogate n0).
    2:{ apply Hrec in H; [simpl; lia|lia]. }
    destruct s3 as [|b [|u [|g1 [|g2 [|g3 [|g4 s4]]]]]];
      try (apply Hrec in H; [simpl in *; lia|simpl in *; lia]).
    simpl in Hle.
    destruct ((b =? 92) && (u =? 117))%N.
    2:{ apply Hrec in H; [simpl in *; lia|simpl in *; lia]. }
    destruct (hex4 g1 g2 g3 g4); [|discriminate].
    destruct (is_low_surrogate n1);
      apply Hrec in H; simpl in *; lia.
Qed.

Lemma take_parts (s : str) :
  (forall sg r, take_sign s = (sg, r) -> s = sg ++ r)
  /\ (forall ip r, take_int s = Some (ip, r) -> s = ip ++ r /\ ip <> [])
  /\ (forall x r, take_frac s = (x, r) -> s = x ++ r)
  /\ (forall x r, take_exp s = (x, r) -> s = x ++ r).
Proof.
  repeat split.
  - unfold take_sign. intros sg r H. destruct s as [|c s].
    + injection H as <- <-. reflexivity.
    + destruct (c =? 45)%N; injection H as <- <-; reflexivity.
  - revert H. unfold take_int. destruct s as [|c s]; [discriminate|].
    pose proof (span_digits_spec s) as (Hs & _).
    destruct ((49 <=? c) && (c <=? 57))%N.
    + destruct (span_digits s) as [d r0]. intros H. injection H as <- <-.
      simpl in Hs |- *. congruence.
    + destruct (c =? 48)%N; [|discriminate]. intros H. injection H as <- <-.
      reflexivity.
  - revert H. unfold take_int. destruct s as [|c s]; [discriminate|].
    destruct ((49 <=? c) && (c <=? 57))%N.
    + destruct (span_digits s) as [d r0]. intros H. injection H as <- <-.
      discriminate.
    + destruct (c =? 48)%N; [|discriminate]. intros H. injection H as <- <-.
      discriminate.
  - unfold take_frac. intros x r H.
    destruct s as [|p [|d s]]; try (injection H as <- <-; reflexivity).
    pose proof (span_digits_spec s) as (Hs & _).
    destruct ((p =? 46)%N && isdigit d).
    + destruct (span_digits s) as [ds r0]. injection H as <- <-.
      simpl in Hs |- *. congruence.
    + injection H as <- <-. reflexivity.
  - unfold take_exp. intros x r H.
    destruct s as [|e s]; [injection H as <- <-; reflexivity|].
    destruct ((e =? 101) || (e =? 69))%N; [|injection H as <- <-; reflexivity].
    destruct s as [|sg s].
    + simpl in H. injection H as <- <-. reflexivity.
    + destruct ((sg =? 45) || (sg =? 43))%N.
      * pose proof (span_digits_spec s) as (Hs & _).
        destruct (span_digits s) as [ds r0].
        destruct ds; simpl in H; injection H as <- <-; [reflexivity|].
        simpl in Hs |- *. congruence.
      * pose proof (span_digits_spec (sg :: s)) as (Hs & _).
        destruct (span_digits (sg :: s)) as [ds r0].
        destruct ds; simpl in H; injection H as <- <-; [reflexivity|].
        simpl in Hs |- *. congruence.
Qed.

Lemma match_number_shorter (s text r : str) (k : bool) :
  match_number s = Some (k, text, r) -> length r < length s.
Proof.
  unfold match_number. intros H.
  destruct (take_sign s) as [sg s1] eqn:Hsg.
  destruct (take_int s1) as [[ip s3]|] eqn:Hip; [|discriminate].
  destruct (take_frac s3) as [fr s4] eqn:Hfr.
  destruct (take_exp s4) as [ex s5] eqn:Hex.
  injection H as _ _ <-.
  apply (proj1 (take_parts s)) in Hsg.
  apply (proj1 (proj2 (take_parts s1))) in Hip as [Hip Hne].
  apply (proj1 (proj2 (proj2 (take_parts s3)))) in Hfr.
  apply (proj2 (proj2 (proj2 (take_parts s4)))) in Hex.
  subst s s1 s3 s4. rewrite !length_app.
  destruct ip; [congruence|]. simpl. lia.
Qed.

Lemma startswith_length (p s : str) :
  startswith p s = true -> length p <= length s.
Proof.
  revert s. induction p as [|a p IH]; intros s H; simpl; [lia|].
  destruct s as [|b s]; [discriminate|]. simpl in *.
  apply andb_true_iff in H as [_ H]. apply IH in H. lia.
Qed.

Lemma scanned_rest {X} (a b : X) (r r' : str) :
  Scanned a r = Scanned b r' -> r = r'.
Proof. congruence. Qed.

Lemma scan_atom_shorter (s : str) (v : value) (r : str) :
  scan_atom F s = Scanned v r -> length r < length s.
Proof.
  unfold scan_atom.
  repeat match goal with
         | |- context [if startswith ?p s then _ else _] =>
             let E := fresh "E" in
             destruct (startswith p s) eqn:E;
             [apply startswith_length in E; simpl in E;
              intros H; apply scanned_rest in H; subst r;
              rewrite length_skipn; lia|]
         end.
  destruct (match_number s) as [[[[|] text] r']|] eqn:Em; intros H;
    try discriminate; injection H as _ <-;
    eapply match_number_shorter; exact Em.
Qed.

(** Scanning a construct consumes some of the text. *)
Lemma scanned_shorter (fuel : nat) :
  (forall s v r, scan_once F fuel s = Scanned v r -> length r < length s)
  /\ (forall s vs r, parse_items F fuel s = Scanned vs r -> length r < length s)
  /\ (forall s kvs r, parse_members F fuel s = Scanned kvs r ->
                      length r < length s).
Proof.
  induction fuel as [|fuel (IH1 & IH2 & IH3)].
  - repeat split; intros; discriminate.
  - split; [|split].
    + intros s v r. cbn [scan_once].
      destruct (head_is 34%N s) eqn:E1.
      { apply head_is_tl in E1.
        destruct (scanstring (tl s)) as [[x r']|] eqn:E; intros H; [|discriminate].
        injection H as _ <-. apply scanstring_shorter in E. lia. }
      destruct (head_is 123%N s) eqn:E2.
      { apply head_is_tl in E2.
        pose proof (skip_ws_length (tl s)) as Hs.
        destruct (head_is 125%N (skip_ws (tl s))) eqn:E.
        - apply head_is_tl in E. intros H. injection H as _ <-. lia.
        - destruct (parse_members F fuel (skip_ws (tl s))) as [pairs r'| |] eqn:E';
            intros H; try discriminate. injection H as _ <-.
          apply IH3 in E'. lia. }
      destruct (head_is 91%N s) eqn:E3.
      { apply head_is_tl in E3.
        pose proof (skip_ws_length (tl s)) as Hs.
        destruct (head_is 93%N (skip_ws (tl s))) eqn:E.
        - apply head_is_tl in E. intros H. injection H as _ <-. lia.
        - destruct (parse_items F fuel (skip_ws (tl s))) as [items r'| |] eqn:E';
            intros H; try discriminate. injection H as _ <-.
          apply IH2 in E'. lia. }
      apply scan_atom_shorter.
    + intros s vs r. cbn [parse_items].
      destruct (scan_once F fuel s) as [v r1| |] eqn:E; try discriminate.
      apply IH1 in E. pose proof (skip_ws_length r1) as Hs.
      destruct (head_is 93%N (skip_ws r1)) eqn:E93.
      { apply head_is_tl in E93. intros H. injection H as _ <-. lia. }
      destruct (head_is 44%N (skip_ws r1)) eqn:E44; [|discriminate].
      apply head_is_tl in E44.
      pose proof (skip_ws_length (tl (skip_ws r1))) as Hs2.
      destruct (parse_items F fuel (skip_ws (tl (skip_ws r1)))) as [vs' r2| |] eqn:E2;
        intros H; try discriminate. injection H as _ <-.
      apply IH2 in E2. lia.
    + intros s kvs r. cbn [parse_members].
      destruct (head_is 34%N s) eqn:E34; [|discriminate].
      apply head_is_tl in E34.
      destruct (scanstring (tl s)) as [[key r0]|] eqn:Es; [|discriminate].
      apply scanstring_shorter in Es. pose proof (skip_ws_length r0) as Hs0.
      destruct (head_is 58%N (skip_ws r0)) eqn:E58; [|discriminate].
      apply head_is_tl in E58.
      pose proof (skip_ws_length (tl (skip_ws r0))) as Hs1.
      destruct (scan_once F fuel (skip_ws (tl (skip_ws r0)))) as [v r1| |] eqn:E;
        try discriminate.
      apply IH1 in E. pose proof (skip_ws_length r1) as Hs.
      destruct (head_is 125%N (skip_ws r1)) eqn:E125.
      { apply head_is_tl in E125. intros H. injection H as _ <-. lia. }
      destruct (head_is 44%N (skip_ws r1)) eqn:E44; [|discriminate].
      apply head_is_tl in E44.
      pose proof (skip_ws_length (tl (skip_ws r1))) as Hs2.
      destruct (parse_members F fuel (skip_ws (tl (skip_ws r1)))) as [kvs' r2| |] eqn:E2;
        intros H; try discriminate. injection H as _ <-.
      apply IH3 in E2. lia.
Qed.

(** Fuel of more than twice the length of the text never runs out. *)
Lemma fuel_is_enough (fuel : nat) :
  (forall s, 2 * length s < fuel -> scan_once F fuel s <> NoFuel)
  /\ (forall s, 2 * length s + 1 < fuel -> parse_items F fuel s <> NoFuel)
  /\ (forall s, 2 * length s + 1 < fuel -> parse_members F fuel s <> NoFuel).
Proof.
  induction fuel as [|fuel (IH1 & IH2 & IH3)].
  - repeat split; intros; lia.
  - destruct (scanned_shorter fuel) as (S1 & S2 & S3).
    split; [|split].
    + intros s Hf. cbn [scan_once].
      destruct (head_is 34%N s) eqn:E1.
      { destruct (scanstring (tl s)) as [[x r']|]; discriminate. }
      destruct (head_is 123%N s) eqn:E2.
      { apply head_is_tl in E2.
        pose proof (skip_ws_length (tl s)) as Hs.
        destruct (head_is 125%N (skip_ws (tl s))); [discriminate|].
        specialize (IH3 (skip_ws (tl s)) ltac:(lia)).
        destruct (parse_members F fuel (skip_ws (tl s))); congruence. }
      destruct (head_is 91%N s) eqn:E3.
      { apply head_is_tl in E3.
        pose proof (skip_ws_length (tl s)) as Hs.
        destruct (head_is 93%N (skip_ws (tl s))); [discriminate|].
        specialize (IH2 (skip_ws (tl s)) ltac:(lia)).
        destruct (parse_items F fuel (skip_ws (tl s))); congruence. }
      unfold scan_atom.
      repeat match goal with
             | |- context [if ?b then _ else _] => destruct b; [discriminate|]
             end.
      destruct (match_number s) as [[[[|] text] r']|]; discriminate.
    + intros s Hf. cbn [parse_items].
      specialize (IH1 s ltac:(lia)).
      destruct (scan_once F fuel s) as [v r1| |] eqn:E; [|discriminate|congruence].
      apply S1 in E. pose proof (skip_ws_length r1) as Hs.
      destruct (head_is 93%N (skip_ws r1)); [discriminate|].
      destruct (head_is 44%N (skip_ws r1)) eqn:E44; [|discriminate].
      apply head_is_tl in E44.
      pose proof (skip_ws_length (tl (skip_ws r1))) as Hs2.
      specialize (IH2 (skip_ws (tl (skip_ws r1))) ltac:(lia)).
      destruct (parse_items F fuel (skip_ws (tl (skip_ws r1)))); congruence.
    + intros s Hf. cbn [parse_members].
      destruct (head_is 34%N s) eqn:E34; [|discriminate].
      apply head_is_tl in E34.
      destruct (scanstring (tl s)) as [[key r0]|] eqn:Es; [|discriminate].
      apply scanstring_shorter in Es. pose proof (skip_ws_length r0) as Hs0.
      destruct (head_is 58%N (skip_ws r0)) eqn:E58; [|discriminate].
      apply head_is_tl in E58.
      pose proof (skip_ws_length (tl (skip_ws r0))) as Hs1.
      specialize (IH1 (skip_ws (tl (skip_ws r0))) ltac:(lia)).
      destruct (scan_once F fuel (skip_ws (tl (skip_ws r0)))) as [v r1| |] eqn:E;
        [|discriminate|congruence].
      apply S1 in E. pose proof (skip_ws_length r1) as Hs.
      destruct (head_is 125%N (skip_ws r1)); [discriminate|].
      destruct (head_is 44%N (skip_ws r1)) eqn:E44; [|discriminate].
      apply head_is_tl in E44.
      pose proof (skip_ws_length (tl (skip_ws r1))) as Hs2.
      specialize (IH3 (skip_ws (tl (skip_ws r1))) ltac:(lia)).
      destruct (parse_members F fuel (skip_ws (tl (skip_ws r1)))); congruence.
Qed.

(** [loads] never runs out of fuel: its errors are decoding errors. *)
Theorem loads_has_fuel (s : str) :
  scan_once F (S (2 * length s)) (skip_ws s) <> NoFuel.
Proof.
  apply (proj1 (fuel_is_enough _)).
  pose proof (skip_ws_length s). lia.
Qed.

(** *** What a decoder returns *)

Lemma dict_set_keys {V} (k : str) (v : V) (d : list (str * V)) a :
  In a (map fst (dict_set k v d)) -> a = k \/ In a (map fst d).
Proof.
  induction d as [|[k' v'] d IH]; simpl.
  - intros [H|[]]. left. symmetry. exact H.
  - destruct (str_eqb k k'); simpl; intros [H|H]; auto.
    destruct (IH H); auto.
Qed.

Lemma dict_set_nodup {V} (k : str) (v : V) (d : list (str * V)) :
  NoDup (map fst d) -> NoDup (map fst (dict_set k v d)).
Proof.
  induction d as [|[k' v'] d IH]; simpl; intros H.
  - constructor; [simpl; tauto|constructor].
  - inversion H as [|? ? Hnin Hd]; subst.
    destruct (str_eqb k k') eqn:E; simpl.
    + constructor; assumption.
    + constructor; [|apply IH; exact Hd].
      intros Hin. apply dict_set_keys in Hin as [->|Hin]; [|contradiction].
      rewrite str_eqb_refl in E. discriminate.
Qed.

Lemma dict_set_values {V} (Q : V -> Prop) (k : str) (v : V) (d : list (str * V)) :
  Q v -> Forall (fun kv => Q (snd kv)) d ->
  Forall (fun kv => Q (snd kv)) (dict_set k v d).
Proof.
  intros Hv. induction 1 as [|[k' v'] d Hx Hd IH]; simpl.
  - constructor; [exact Hv|constructor].
  - destruct (str_eqb k k'); constructor; simpl; assumption.
Qed.

Lemma dict_of_pairs_wf {V} (Q : V -> Prop) (pairs : list (str * V)) :
  Forall (fun kv => Q (snd kv)) pairs ->
  NoDup (map fst (dict_of_pairs pairs))
  /\ Forall (fun kv => Q (snd kv)) (dict_of_pairs pairs).
Proof.
  unfold dict_of_pairs.
  assert (H : forall acc : list (str * V),
             NoDup (map fst acc) -> Forall (fun kv => Q (snd kv)) acc ->
             Forall (fun kv => Q (snd kv)) pairs ->
             NoDup (map fst (fold_left (fun d kv => dict_set (fst kv) (snd kv) d)
                               pairs acc))
             /\ Forall (fun kv => Q (snd kv))
                  (fold_left (fun d kv => dict_set (fst kv) (snd kv) d) pairs acc)).
  { induction pairs as [|[k v] pairs IH]; intros acc Hn Ha Hp; simpl.
    - split; assumption.
    - inversion Hp; subst. apply IH; [apply dict_set_nodup, Hn| |assumption].
      apply dict_set_values; assumption. }
  intros Hp. apply H; [constructor|constructor|exact Hp].
Qed.

Lemma float_literal_scanned (s text r : str) :
  match_number s = Some (true, text, r) -> float_literal text.
Proof.
  intros H. unfold float_literal.
  pose proof (match_number_ext _ _ _ _ H [] eq_refl) as He.
  rewrite app_nil_r in He. exact He.
Qed.

Lemma scan_atom_wf (s : str) (v : value) (r : str) :
  lawful F -> scan_atom F s = Scanned v r -> wf F v.
Proof.
  intros (Hlit & Hnan & Hpos & Hneg). unfold scan_atom.
  repeat match goal with
         | |- context [if ?b then _ else _] =>
             destruct b; [intros H; injection H as <- _; simpl; auto|]
         end.
  destruct (match_number s) as [[[[|] text] r']|] eqn:E; intros H;
    [| |discriminate]; injection H as <- _; simpl; [|exact I].
  apply Hlit. eapply float_literal_scanned. exact E.
Qed.

(** With a lawful codec, every value a decoder returns is one that is
    read back. *)
Lemma scanned_wf :
  lawful F ->
  forall fuel,
    (forall s v r, scan_once F fuel s = Scanned v r -> wf F v)
    /\ (forall s vs r, parse_items F fuel s = Scanned vs r -> Forall (wf F) vs)
    /\ (forall s kvs r, parse_members F fuel s = Scanned kvs r ->
                        Forall (fun kv => wf F (snd kv)) kvs).
Proof.
  intros HF. induction fuel as [|fuel (IH1 & IH2 & IH3)].
  - repeat split; intros; discriminate.
  - split; [|split].
    + intros s v r. cbn [scan_once].
      destruct (head_is 34%N s).
      { destruct (scanstring (tl s)) as [[x r']|]; intros H; [|discriminate].
        injection H as <- _. exact I. }
      destruct (head_is 123%N s).
      { destruct (head_is 125%N (skip_ws (tl s))).
        - intros H. injection H as <- _. simpl. split; constructor.
        - destruct (parse_members F fuel (skip_ws (tl s))) as [pairs r'| |] eqn:E;
            intros H; try discriminate. injection H as <- _.
          apply wf_dict. apply (dict_of_pairs_wf (wf F)). eapply IH3. exact E. }
      destruct (head_is 91%N s).
      { destruct (head_is 93%N (skip_ws (tl s))).
        - intros H. injection H as <- _. exact I.
        - destruct (parse_items F fuel (skip_ws (tl s))) as [items r'| |] eqn:E;
            intros H; try discriminate. injection H as <- _.
          apply wf_list. eapply IH2. exact E. }
      apply scan_atom_wf, HF.
    + intros s vs r. cbn [parse_items].
      destruct (scan_once F fuel s) as [v r1| |] eqn:E; try discriminate.
      destruct (head_is 93%N (skip_ws r1)).
      { intros H. injection H as <- _. constructor; [eapply IH1; exact E|constructor]. }
      destruct (head_is 44%N (skip_ws r1)); [|discriminate].
      destruct (parse_items F fuel (skip_ws (tl (skip_ws r1)))) as [vs' r2| |] eqn:E2;
        intros H; try discriminate. injection H as <- _.
      constructor; [eapply IH1; exact E|eapply IH2; exact E2].
    + intros s kvs r. cbn [parse_members].
      destruct (head_is 34%N s); [|discriminate].
      destruct (scanstring (tl s)) as [[key r0]|]; [|discriminate].
      destruct (head_is 58%N (skip_ws r0)); [|discriminate].
      destruct (scan_once F fuel (skip_ws (tl (skip_ws r0)))) as [v r1| |] eqn:E;
        try discriminate.
      destruct (head_is 125%N (skip_ws r1)).
      { intros H. injection H as <- _. constructor; [|constructor].
        simpl. eapply IH1. exact E. }
      destruct (head_is 44%N (skip_ws r1)); [|discriminate].
      destruct (parse_members F fuel (skip_ws (tl (skip_ws r1)))) as [kvs' r2| |] eqn:E2;
        intros H; try discriminate. injection H as <- _.
      constructor; [simpl; eapply IH1; exact E|eapply IH3; exact E2].
Qed.

Lemma loads_wf (s : str) (v : value) :
  lawful F -> loads F s = Ok v -> wf F v.
Proof.
  intros HF. unfold loads.
  destruct (startswith [65279%N] s); [discriminate|].
  destruct (scan_once F (S (2 * length s)) (skip_ws s)) as [v' r| |] eqn:E;
    try discriminate.
  destruct (skip_ws r); [|discriminate].
  intros H. injection H as <-.
  eapply (proj1 (scanned_wf HF _)). exact E.
Qed.

End Values.

End JsonFacts.

(** ** Parsing the text of a parsed response *)

Module Idempotence.
Import PyFacts Json JsonFacts Scraper ScraperFacts Examples.

Lemma startswith_app (p q s : str) :
  startswith (p ++ q) s = true -> startswith p s = true.
Proof.
  revert s. induction p as [|a p IH]; intros s H; [reflexivity|].
  destruct s as [|b s]; [discriminate|]. simpl in *.
  apply andb_true_iff in H as [H1 H2]. rewrite H1. apply IH, H2.
Qed.

Lemma contains_app (p q s : str) :
  contains p s = false -> contains (p ++ q) s = false.
Proof.
  induction s as [|c s IH]; simpl; intros H.
  - apply orb_false_iff in H as [H _]. rewrite orb_false_r.
    destruct (startswith (p ++ q) []) eqn:E; [|reflexivity].
    apply startswith_app in E. congruence.
  - apply orb_false_iff in H as [H1 H2]. rewrite (IH H2), orb_false_r.
    destruct (startswith (p ++ q) (c :: s)) eqn:E; [|reflexivity].
    apply startswith_app in E. congruence.
Qed.

Lemma rfind_from_last (c : char) (s : str) (i : Z) :
  (0 <= i)%Z -> rfind_from c i (s ++ [c]) = (i + Z.of_nat (length s))%Z.
Proof.
  revert i. induction s as [|d s IH]; intros i Hi.
  - simpl. rewrite N.eqb_refl. lia.
  - cbn [app rfind_from]. rewrite IH by lia.
    assert ((0 <=? i + 1 + Z.of_nat (length s))%Z = true) as ->
      by (apply Z.leb_le; lia).
    cbn [length]. lia.
Qed.

Lemma slice_whole (s : str) : slice 0 (Z.of_nat (length s)) s = s.
Proof.
  unfold slice. simpl. rewrite Nat2Z.id, Nat.sub_0_r. apply firstn_all.
Qed.

(** A text between braces, without a fence, is handed whole to the
    decoder. *)
Lemma select_json_text_braces (F : float_codec) (s body : str) :
  s = 123%N :: body ++ [125%N] ->
  contains (txt "```") s = false ->
  select_json_text F s = Ok s.
Proof.
  intros -> H. unfold select_json_text.
  change (txt "```json") with (txt "```" ++ txt "json").
  rewrite (contains_app _ _ _ H), H.
  change (find 123%N (123%N :: body ++ [125%N])) with 0%Z.
  change (123%N :: body ++ [125%N]) with ((123%N :: body) ++ [125%N]).
  unfold rfind. rewrite rfind_from_last by lia.
  cbn [negb Z.eqb andb].
  match goal with
  | |- context [(?a >? 0)%Z] =>
      assert ((a >? 0)%Z = true) as -> by (apply Z.gtb_lt; cbn [length]; lia);
      replace a with (Z.of_nat (length ((123%N :: body) ++ [125%N])))
        by (rewrite length_app; cbn [length]; unfold str, char in *; lia)
  end.
  rewrite slice_whole. reflexivity.
Qed.

Section WithFloats.
Variable F : float_codec.
Hypothesis HF : lawful F.

Local Abbreviation value := (Json.value F).

(** What [parse_api_response] returns is a dictionary that has the key
    [listings], and one that is read back. *)
Lemma parse_api_response_shape (response_text : str) (d : value) :
  parse_api_response F response_text = Ok d ->
  wf F d /\ exists m, d = JDict m /\ has_key (txt "listings") m = true.
Proof.
  assert (Hempty : wf F (empty_listings F)
                   /\ exists m, empty_listings F = JDict m
                                /\ has_key (txt "listings") m = true).
  { split; [|eexists; split; reflexivity].
    simpl. repeat split. constructor; [simpl; tauto|constructor]. }
  unfold parse_api_response, try_except.
  destruct (select_json_text F response_text) as [t|e]; cbn [bind].
  2:{ destruct (is_JSONDecodeError e); intros H; [|discriminate].
      injection H as <-. exact Hempty. }
  destruct (loads F t) as [result|e] eqn:El; cbn [bind].
  2:{ destruct (is_JSONDecodeError e); intros H; [|discriminate].
      injection H as <-. exact Hempty. }
  intros H. injection H as <-.
  pose proof (loads_wf F t result HF El) as Hw.
  unfold normalise. destruct result as [| | | | | |m]; try exact Hempty.
  simpl is_dict. simpl key_in. cbv iota. simpl negb at 1. cbv iota.
  destruct (has_key (txt "listings") m) eqn:Ek; simpl negb; cbv iota.
  - split; [exact Hw|]. exists m. split; [reflexivity|exact Ek].
  - split; [|eexists; split; reflexivity].
    apply wf_dict. split.
    + constructor; [simpl; tauto|constructor].
    + constructor; [|constructor]. simpl. split; [exact Hw|exact I].
Qed.

(** C7. When a response is parsed and the text written for the result
    holds no fence of three backquotes, parsing that text gives the result
    again. *)
Theorem parse_is_idempotent (response_text : str) (d : value) :
  parse_api_response F response_text = Ok d ->
  contains (txt "```") (dumps F d) = false ->
  parse_api_response F (dumps F d) = Ok d.
Proof.
  intros Hp Hc.
  destruct (parse_api_response_shape _ _ Hp) as (Hw & m & -> & Hk).
  destruct m as [|kv m]; [discriminate|].
  assert (Hd : exists body, dumps F (JDict (kv :: m)) = 123%N :: body ++ [125%N]).
  { unfold dumps. cbn [encode]. eexists.
    change (txt "{") with [123%N]. change (txt "}") with [125%N].
    cbn [app]. rewrite !app_assoc. reflexivity. }
  destruct Hd as (body & Hd).
  unfold parse_api_response.
  rewrite (select_json_text_braces F _ body Hd Hc). cbn [bind].
  unfold dumps. rewrite (loads_written F 2 _ Hw). cbn [bind try_except].
  unfold normalise. cbn [is_dict key_in negb]. rewrite Hk. reflexivity.
Qed.

End WithFloats.

(** The codec that keeps the literals is lawful. *)
Lemma literal_floats_lawful : lawful literal_floats.
Proof.
  split; [|split; [|split]].
  - intros text H. left. split; [exact H|reflexivity].
  - right. left. split; reflexivity.
  - right. right. left. split; reflexivity.
  - right. right. right. split; reflexivity.
Qed.

Lemma parse_is_idempotent_witness :
  parse_api_response literal_floats (dumps literal_floats listings_a1)
  = Ok listings_a1.
Proof.
  apply (parse_is_idempotent literal_floats literal_floats_lawful
           (qtxt "{'a':'1'}") listings_a1).
  - vm_compute. reflexivity.
  - vm_compute. reflexivity.
Defined.

End Idempotence.

(** ** The shape of the chunks *)

Module ChunkerShape.
Import PyFacts Chunker ChunkerFacts Greedy.

Lemma join_spaces_newlines (l : list str) :
  Forall (fun p => ~ In 10%N p) l -> ~ In 10%N (join (txt " ") l).
Proof.
  induction 1 as [|p ps Hp _ IH]; [simpl; tauto|].
  destruct ps as [|q ps]; [exact Hp|].
  change (join (txt " ") (p :: q :: ps)) with (p ++ txt " " ++ join (txt " ") (q :: ps)).
  intros Hin. apply in_app_or in Hin as [Hin|Hin]; [tauto|].
  apply in_app_or in Hin as [Hin|Hin]; [|tauto].
  simpl in Hin. destruct Hin as [Hin|[]]. discriminate.
Qed.

Lemma replace_newlines (content : str) :
  ~ In 10%N (replace [10%N] (txt " ") content).
Proof. apply join_spaces_newlines, split_char_pieces. Qed.

Lemma split_pieces_incl d (s p : str) x :
  In p (split [d] s) -> In x p -> In x s.
Proof.
  revert p. induction s as [|c s IH]; intros p Hp Hx.
  - simpl in Hp. destruct Hp as [<-|[]]. exact Hx.
  - rewrite split_char_cons in Hp. destruct (N.eqb d c).
    + destruct Hp as [<-|Hp]; [destruct Hx|]. right. eapply IH; eassumption.
    + destruct (split [d] s) as [|q qs] eqn:E.
      * destruct Hp as [<-|[]]. destruct Hx as [<-|[]]. left. reflexivity.
      * destruct Hp as [<-|Hp].
        -- destruct Hx as [<-|Hx]; [left; reflexivity|].
           right. apply (IH q); [left; reflexivity|exact Hx].
        -- right. apply (IH p); [right; exact Hp|exact Hx].
Qed.

Lemma units_of_incl (text u : str) x :
  In u (units_of text) -> In x u -> In x text.
Proof.
  unfold units_of. intros Hu Hx. apply filter_In in Hu as [Hu _].
  apply in_map_iff in Hu as (p & <- & Hp).
  apply strip_incl in Hx. change (txt ".") with [46%N] in Hp.
  eapply split_pieces_incl; eassumption.
Qed.

Lemma join_incl (sep : str) (g : list str) x :
  In x (join sep g) -> In x sep \/ exists u, In u g /\ In x u.
Proof.
  induction g as [|u g IH]; [intros []|].
  destruct g as [|v g].
  - simpl. intros H. right. exists u. split; [left; reflexivity|exact H].
  - change (join sep (u :: v :: g)) with (u ++ sep ++ join sep (v :: g)).
    intros H. apply in_app_or in H as [H|H].
    + right. exists u. split; [left; reflexivity|exact H].
    + apply in_app_or in H as [H|H]; [left; exact H|].
      destruct (IH H) as [H'|(w & Hw & Hx)]; [left; exact H'|].
      right. exists w. split; [right; exact Hw|exact Hx].
Qed.

Lemma join_nonempty (sep : str) (g : list str) :
  g <> [] -> Forall (fun u => u <> []) g -> join sep g <> [].
Proof.
  destruct g as [|u g]; [congruence|]. intros _ H. inversion H; subst.
  destruct g; simpl; [assumption|]. destruct u; [congruence|discriminate].
Qed.

Lemma groups_length (gs : list (list str)) :
  Forall group gs -> (length gs <= length (concat gs))%nat.
Proof.
  induction 1 as [|g gs [Hne _] _ IH]; [simpl; lia|].
  simpl. rewrite length_app. destruct g; [congruence|]. simpl. lia.
Qed.

Section WithArith.
Variable A : arith.
Variable config : Config.

Local Abbreviation step := (step A config).
Local Abbreviation estimate := (estimate A).
Local Abbreviation k := (chunk_size config).

(** X1. [chunk_content] returns no chunk exactly when the text has no
    unit: it is empty, or made of periods and white space only. *)
Theorem chunk_content_nil (content : str) :
  chunk_content A content config = [] <->
  units_of (replace [10%N] (txt " ") content) = [].
Proof.
  destruct (chunk_content_groups A config content) as (gs & -> & Hg & <- & _).
  destruct gs as [|g gs]; [simpl; tauto|].
  split; [discriminate|]. inversion Hg as [|? ? [Hne _] _]; subst.
  simpl. destruct g; [congruence|discriminate].
Qed.

(** X2. Every chunk ends with a period that follows at least one
    character, holds no newline, and has at least one unit. *)
Theorem chunk_content_shape (content c : str) :
  In c (chunk_content A content config) ->
  (exists body, c = body ++ txt "." /\ body <> [])
  /\ ~ In 10%N c
  /\ units_of c <> [].
Proof.
  destruct (chunk_content_groups A config content) as (gs & -> & Hg & Hu & _).
  intros Hin. apply in_map_iff in Hin as (g & <- & Hin).
  pose proof (proj1 (Forall_forall _ _) Hg g Hin) as Hgg.
  destruct Hgg as [Hne Hcl]. split; [|split].
  - exists (join (txt ". ") g). split; [reflexivity|].
    apply join_nonempty; [exact Hne|].
    eapply Forall_impl; [|exact Hcl]. intros u (Ht & _). apply truthy_true, Ht.
  - unfold close_chunk. intros H. apply in_app_or in H as [H|H].
    + apply join_incl in H as [H|(u & Hug & Hx)].
      * simpl in H. destruct H as [H|[H|[]]]; discriminate.
      * apply (replace_newlines content).
        apply (units_of_incl _ u); [|exact Hx].
        rewrite <- Hu. apply in_concat. exists g. split; assumption.
    + simpl in H. destruct H as [H|[]]. discriminate.
  - rewrite units_of_chunk by (split; assumption). exact Hne.
Qed.

(** X3. There are no more chunks than units in the text. *)
Theorem chunk_content_count (content : str) :
  (length (chunk_content A content config)
   <= length (units_of (replace [10%N] (txt " ") content)))%nat.
Proof.
  destruct (chunk_content_groups A config content) as (gs & -> & Hg & <- & _).
  rewrite length_map. apply groups_length, Hg.
Qed.

Lemma chained_extend (l : list (list str)) (g : list str) (u : str) :
  g <> [] -> chained A k (l ++ [g]) -> chained A k (l ++ [g ++ [u]]).
Proof.
  intros Hg. induction l as [|g1 l IH]; [simpl; tauto|].
  destruct l as [|g2 l].
  - destruct g; [congruence|]. simpl. tauto.
  - simpl app in *. cbn [chained] in *. intros [H1 H2]. split; [exact H1|].
    apply IH, H2.
Qed.

Lemma chained_close (l : list (list str)) (g : list str) (u : str) :
  full A k g u -> chained A k (l ++ [g]) -> chained A k ((l ++ [g]) ++ [[u]]).
Proof.
  intros Hf. induction l as [|g1 l IH]; [simpl; tauto|].
  destruct l as [|g2 l].
  - simpl. tauto.
  - simpl app in *. cbn [chained] in *. intros [H1 H2]. split; [exact H1|].
    apply IH, H2.
Qed.

(** What the loop keeps true of the sizes. *)
Lemma loop_greedy (sentences : list str) :
  (forall n, plus A (zero A) (times_1_3 A n) = times_1_3 A n) ->
  Forall (fun p => ~ In 46%N p) sentences ->
  forall st : state A,
    Forall clean (current_chunk st) ->
    current_size st = estimate (current_chunk st) ->
    (current_chunk st = [] -> chunks st = []) ->
    chained A k (map units_of (chunks st) ++ [current_chunk st]) ->
    let st' := fold_left step sentences st in
    Forall clean (current_chunk st') /\
    (current_chunk st' = [] -> chunks st' = []) /\
    chained A k (map units_of (chunks st') ++ [current_chunk st']).
Proof.
  intros H0. induction 1 as [|p sentences Hp _ IH]; intros st Hcl Hsz Hnil Hch.
  - simpl. tauto.
  - simpl fold_left. apply IH; clear IH; unfold Chunker.step;
      destruct (truthy (strip p)) eqn:Ht; simpl negb; cbv iota; try assumption;
      pose proof (strip_clean p Hp Ht) as Hu; set (u := strip p) in *;
      destruct (gt A (plus A (current_size st) (size_of A u)) k) eqn:Hgt;
      cbn [chunks current_chunk current_size].
    + constructor; [exact Hu|constructor].
    + apply Forall_app. split; [exact Hcl|constructor; [exact Hu|constructor]].
    + unfold Chunker.estimate. simpl. symmetry. apply H0.
    + rewrite estimate_snoc, Hsz. reflexivity.
    + discriminate.
    + intros H. apply app_eq_nil in H as [_ H]. discriminate.
    + destruct (current_chunk st) as [|c cs] eqn:Hc; simpl truthy; cbv iota.
      * rewrite (Hnil eq_refl). exact I.
      * rewrite map_app. simpl map.
        rewrite units_of_chunk by (split; [discriminate|exact Hcl]).
        apply chained_close; [|exact Hch].
        unfold full. rewrite <- Hsz. exact Hgt.
    + destruct (current_chunk st) as [|c cs] eqn:Hc.
      * rewrite (Hnil eq_refl). exact I.
      * apply chained_extend; [discriminate|exact Hch].
Qed.

(** X4. The chunks are filled greedily: each chunk but the last is followed
    by a chunk whose first unit did not fit in it, the sizes being those
    the loop computes, for any arithmetic in which [0 + x] is [x]. *)
Theorem chunk_content_greedy (content : str) :
  (forall n, plus A (zero A) (times_1_3 A n) = times_1_3 A n) ->
  chained A k (map units_of (chunk_content A content config)).
Proof.
  intros H0. unfold chunk_content.
  set (sentences := split (txt ".") (replace [10%N] (txt " ") content)).
  destruct (loop_greedy sentences H0 (split_char_pieces 46%N _) (init A)
              (Forall_nil _) eq_refl (fun _ => eq_refl) I) as (Hcl & Hnil & Hch).
  cbv zeta in *. set (st := fold_left step sentences (init A)) in *.
  destruct (current_chunk st) as [|c cs] eqn:Hc; simpl truthy; cbv iota.
  - rewrite (Hnil eq_refl). exact I.
  - rewrite map_app. simpl map.
    rewrite units_of_chunk by (split; [discriminate|exact Hcl]). exact Hch.
Qed.

Lemma loop_fits (sentences : list str) :
  forall st : state A,
    current_size st = estimate (current_chunk st) ->
    (forall n, (0 < n)%nat ->
       gt A (estimate (current_chunk st
                       ++ firstn n (filter (fun u => truthy u) (map strip sentences))))
            k = false) ->
    let st' := fold_left step sentences st in
    chunks st' = chunks st /\
    current_chunk st' =
      current_chunk st ++ filter (fun u => truthy u) (map strip sentences).
Proof.
  induction sentences as [|p sentences IH]; intros st Hsz Hfit.
  - simpl. rewrite app_nil_r. tauto.
  - simpl fold_left. simpl map in *. simpl filter in *. cbv zeta.
    unfold Chunker.step at 2 4.
    destruct (truthy (strip p)) eqn:Ht; simpl negb; cbv iota.
    2:{ apply IH; assumption. }
    set (u := strip p) in *.
    assert (Hu : gt A (plus A (current_size st) (size_of A u)) k = false).
    { rewrite Hsz, <- estimate_snoc. apply (Hfit 1%nat). lia. }
    rewrite Hu.
    match goal with |- context [fold_left _ _ ?s] => set (st1 := s) end.
    destruct (IH st1) as [H1 H2].
    + simpl. rewrite estimate_snoc, Hsz. reflexivity.
    + intros n Hn. simpl current_chunk. rewrite <- app_assoc.
      apply (Hfit (S n)). lia.
    + cbv zeta in *. split; [exact H1|].
      rewrite H2. simpl current_chunk. rewrite <- app_assoc. reflexivity.
Qed.

(** X5. When the running size of the units never goes over [chunk_size],
    the text makes one chunk, which holds all its units. *)
Theorem chunk_content_one_chunk (content : str) :
  let units := units_of (replace [10%N] (txt " ") content) in
  units <> [] ->
  (forall n, (0 < n)%nat -> gt A (estimate (firstn n units)) k = false) ->
  chunk_content A content config = [close_chunk units].
Proof.
  intros units. unfold units, units_of, chunk_content. clear units.
  set (sentences := split (txt ".") (replace [10%N] (txt " ") content)).
  intros Hne Hfit.
  destruct (loop_fits sentences (init A)) as [H1 H2]; [reflexivity|exact Hfit|].
  cbv zeta in *. rewrite H1, H2. cbn [init chunks current_chunk app].
  apply truthy_true in Hne. rewrite Hne. reflexivity.
Qed.

End WithArith.

Import Examples.

Lemma chunk_content_shape_witness :
  (exists body, txt "Alpha beta." = body ++ txt "." /\ body <> [])
  /\ ~ In 10%N (txt "Alpha beta.")
  /\ units_of (txt "Alpha beta.") <> [].
Proof.
  apply (chunk_content_shape decimal (budget 6) three_sentences (txt "Alpha beta.")).
  vm_compute. left. reflexivity.
Defined.

Lemma chunk_content_greedy_witness :
  chained decimal 6
    (map units_of (chunk_content decimal three_sentences (budget 6))).
Proof.
  apply (chunk_content_greedy decimal (budget 6) three_sentences).
  intros n. reflexivity.
Defined.

Lemma chunk_content_one_chunk_witness :
  chunk_content decimal three_sentences (budget 10)
  = [txt "Alpha beta. Gamma delta epsilon zeta. Eta."].
Proof.
  apply (chunk_content_one_chunk decimal (budget 10) three_sentences).
  - vm_compute. discriminate.
  - intros n Hn. destruct n as [|[|[|[|n]]]]; [lia| | | |]; vm_compute; reflexivity.
Defined.

End ChunkerShape.

(** ** What the parser reads, and what the client loses *)

Module ParserFacts.
Import PyFacts Json Scraper ScraperFacts Idempotence.

(** *** Occurrences of a text in another *)

Lemma startswith_self (p s : str) : startswith p (p ++ s) = true.
Proof.
  induction p as [|a p IH]; [reflexivity|]. simpl. rewrite N.eqb_refl. exact IH.
Qed.

Lemma startswith_more (p s t : str) :
  startswith p s = true -> startswith p (s ++ t) = true.
Proof.
  revert s. induction p as [|a p IH]; intros s H; [reflexivity|].
  destruct s as [|b s]; [discriminate|]. simpl in *.
  apply andb_true_iff in H as [H1 H2]. rewrite H1. apply IH, H2.
Qed.

Lemma contains_after (p a s : str) :
  contains p s = true -> contains p (a ++ s) = true.
Proof.
  intros H. induction a as [|c a IH]; [exact H|].
  simpl. rewrite IH. apply orb_true_r.
Qed.

Lemma contains_before (p s t : str) :
  contains p s = true -> contains p (s ++ t) = true.
Proof.
  induction s as [|c s IH]; simpl; intros H.
  - rewrite orb_false_r in H. destruct p; [|discriminate].
    destruct t; reflexivity.
  - apply orb_true_iff in H as [H|H].
    + change (c :: s ++ t) with ((c :: s) ++ t).
      rewrite (startswith_more _ _ t H). reflexivity.
    + rewrite (IH H). apply orb_true_r.
Qed.

Lemma contains_here (p a b : str) : contains p (a ++ p ++ b) = true.
Proof.
  apply contains_after. destruct (p ++ b) eqn:E; simpl.
  - destruct p; [reflexivity|discriminate].
  - rewrite <- E, startswith_self. reflexivity.
Qed.

Lemma contains_inside (p a s b : str) :
  contains p (a ++ s ++ b) = false -> contains p s = false.
Proof.
  intros H. destruct (contains p s) eqn:E; [|reflexivity].
  rewrite (contains_after p a (s ++ b) (contains_before p s b E)) in H.
  discriminate.
Qed.

(** A text without white space is found in a trimmed text exactly when it
    is found in the text. *)
Local Abbreviation solid := (Forall (fun c : char => isspace c = false)).

Lemma contains_lstrip (p s : str) :
  solid p -> contains p (lstrip s) = contains p s.
Proof.
  intros Hp. induction s as [|d s IH]; [reflexivity|].
  simpl lstrip. destruct (isspace d) eqn:Hd; [|reflexivity].
  rewrite IH. destruct p as [|c q]; [destruct s; reflexivity|]. simpl.
  inversion Hp; subst.
  destruct (N.eqb_spec c d) as [->|_]; [congruence|reflexivity].
Qed.

Lemma startswith_rstrip (p : str) :
  solid p -> forall s, startswith p (rstrip s) = startswith p s.
Proof.
  induction 1 as [|a p Ha _ IH]; intros s; [reflexivity|].
  destruct s as [|d s]; [reflexivity|].
  rewrite rstrip_cons.
  destruct (isspace d && negb (truthy (rstrip s))) eqn:E; simpl.
  - apply andb_true_iff in E as [E _].
    destruct (N.eqb_spec a d) as [->|_]; [congruence|reflexivity].
  - rewrite IH. reflexivity.
Qed.

Lemma contains_rstrip (p s : str) :
  solid p -> contains p (rstrip s) = contains p s.
Proof.
  intros Hp. induction s as [|c r IH]; [reflexivity|].
  pose proof (startswith_rstrip p Hp (c :: r)) as Hs.
  rewrite rstrip_cons in *.
  destruct (isspace c && negb (truthy (rstrip r))) eqn:E.
  - apply andb_true_iff in E as [_ E]. apply negb_true_iff in E.
    destruct (rstrip r) as [|x y] eqn:Er; [|discriminate].
    cbn [contains]. rewrite <- Hs, <- IH. cbn [contains].
    destruct (startswith p []); reflexivity.
  - cbn [contains]. rewrite Hs, IH. reflexivity.
Qed.

Lemma contains_strip (p s : str) :
  solid p -> contains p (strip s) = contains p s.
Proof.
  intros Hp. unfold strip.
  rewrite contains_rstrip, contains_lstrip by exact Hp. reflexivity.
Qed.

(** *** Searching a character, cutting a slice *)

Lemma find_from_first (c : char) (p r : str) (i : Z) :
  ~ In c p -> find_from c i (p ++ c :: r) = (i + Z.of_nat (length p))%Z.
Proof.
  revert i. induction p as [|d p IH]; intros i H; cbn [app find_from length].
  - rewrite N.eqb_refl. lia.
  - destruct (N.eqb_spec d c) as [->|_]; [exfalso; apply H; left; reflexivity|].
    rewrite IH by (intros Hin; apply H; right; exact Hin). lia.
Qed.

Lemma rfind_from_none (c : char) (q : str) (i : Z) :
  ~ In c q -> rfind_from c i q = (-1)%Z.
Proof.
  revert i. induction q as [|d q IH]; intros i H; cbn [rfind_from]; [reflexivity|].
  rewrite IH by (intros Hin; apply H; right; exact Hin). cbn.
  destruct (N.eqb_spec d c) as [->|_]; [exfalso; apply H; left; reflexivity|].
  reflexivity.
Qed.

Lemma rfind_from_final (c : char) (a q : str) (i : Z) :
  ~ In c q -> (0 <= i)%Z ->
  rfind_from c i (a ++ c :: q) = (i + Z.of_nat (length a))%Z.
Proof.
  intros Hq. revert i. induction a as [|d a IH]; intros i Hi; cbn [app rfind_from length].
  - rewrite (rfind_from_none c q _ Hq). cbn. rewrite N.eqb_refl. lia.
  - rewrite IH by lia.
    assert ((0 <=? i + 1 + Z.of_nat (length a))%Z = true) as ->
      by (apply Z.leb_le; lia).
    lia.
Qed.

Lemma slice_middle (p m q : str) :
  slice (Z.of_nat (length p)) (Z.of_nat (length p + length m)) (p ++ m ++ q) = m.
Proof.
  unfold slice. rewrite !Nat2Z.id.
  replace (length p + length m - length p)%nat with (length m) by lia.
  induction p as [|c p IH]; cbn [length skipn app]; [|exact IH].
  induction m as [|c m IH]; cbn [length firstn app]; [reflexivity|].
  rewrite IH. reflexivity.
Qed.

(** *** Splitting at a fence *)

Lemma split_fence (a r : str) :
  ~ In 96%N a ->
  split (txt "```") (a ++ txt "```" ++ r) = a :: split (txt "```") r.
Proof.
  induction a as [|c a IH]; intros H.
  - reflexivity.
  - unfold split in *. cbn [app split_go].
    assert (startswith (txt "```") (c :: a ++ txt "```" ++ r) = false) as ->.
    { change (txt "```") with [96%N; 96%N; 96%N] at 1. cbn [startswith].
      destruct (N.eqb_spec 96%N c) as [E|_]; [|reflexivity].
      exfalso. apply H. left. symmetry. exact E. }
    rewrite IH by (intros Hin; apply H; right; exact Hin). reflexivity.
Qed.

Section WithFloats.
Variable F : float_codec.

Local Abbreviation value := (Json.value F).

(** X6. [parse_api_response] raises [AttributeError] exactly when the
    text holds a fence labelled [json]; it never lets a [JSONDecodeError]
    out; and whatever it returns is a dictionary that has the key
    [listings].  (Nothing is said here of the other exceptions of the
    decoder, [ValueError] on an integer of more than 4300 digits and
    [RecursionError], which the embedding does not describe.) *)
Theorem parse_api_response_outcomes (response_text : str) :
  (parse_api_response F response_text = Raise AttributeError
   <-> contains (txt "```json") response_text = true)
  /\ parse_api_response F response_text <> Raise JSONDecodeError
  /\ (forall result, parse_api_response F response_text = Ok result ->
        exists d, result = JDict d /\ has_key (txt "listings") d = true).
Proof.
  destruct (contains (txt "```json") response_text) eqn:Ec.
  - assert (Hp : parse_api_response F response_text = Raise AttributeError).
    { unfold parse_api_response.
      rewrite (select_json_text_fenced_json F _ Ec). reflexivity. }
    rewrite Hp. repeat split; try discriminate.
  - destruct (parse_api_response_returns F _ Ec) as (d & Hd & Hk).
    rewrite Hd. repeat split; try discriminate.
    intros result Hr. injection Hr as <-. exists d. split; [reflexivity|exact Hk].
Qed.

(** X7. Without a fence, what comes before the first opening brace and
    after the last closing brace is ignored. *)
Theorem parse_api_response_ignores_prose (before body after : str) :
  let object := 123%N :: body ++ [125%N] in
  ~ In 123%N before -> ~ In 125%N after ->
  contains (txt "```") (before ++ object ++ after) = false ->
  parse_api_response F (before ++ object ++ after)
  = parse_api_response F object.
Proof.
  intros object Hb Ha Hc.
  assert (Ho : select_json_text F object = Ok object).
  { apply (select_json_text_braces F object body); [reflexivity|].
    eapply contains_inside. exact Hc. }
  set (text := before ++ object ++ after) in *.
  assert (Hf : find 123%N text = Z.of_nat (length before)).
  { replace text with (before ++ 123%N :: (body ++ 125%N :: after)).
    - unfold find. rewrite find_from_first by exact Hb. lia.
    - unfold text, object. cbn [app]. rewrite <- app_assoc. reflexivity. }
  assert (Hr : (rfind 125%N text + 1)%Z
               = Z.of_nat (length before + length object)).
  { replace text with ((before ++ 123%N :: body) ++ 125%N :: after).
    - unfold rfind. rewrite rfind_from_final by (try exact Ha; lia).
      unfold object. cbn [length]. rewrite !length_app. cbn [length]. lia.
    - unfold text, object. cbn [app]. rewrite <- !app_assoc. reflexivity. }
  assert (Hs : select_json_text F text = Ok object).
  { unfold select_json_text.
    change (txt "```json") with (txt "```" ++ txt "json").
    rewrite (contains_app _ _ _ Hc), Hc, Hf, Hr.
    match goal with
    | |- context [if ?b then _ else _] => assert (b = true) as ->
    end.
    { apply andb_true_iff. split.
      - apply negb_true_iff, Z.eqb_neq. lia.
      - apply Z.gtb_lt. unfold object. cbn [length]. lia. }
    f_equal. apply slice_middle. }
  unfold parse_api_response. rewrite Ho, Hs. reflexivity.
Qed.

(** X8. With a fence that is not labelled [json], the text decoded is what
    stands between the first fence and the second, trimmed; what follows
    the second fence is ignored. *)
Theorem parse_api_response_reads_fence (before inside after : str) :
  let response_text := before ++ txt "```" ++ inside ++ txt "```" ++ after in
  ~ In 96%N before -> ~ In 96%N inside ->
  contains (txt "```json") response_text = false ->
  parse_api_response F response_text
  = try_except
      (result <- loads F (strip inside) ;; Ok (normalise F result))
      is_JSONDecodeError
      (Ok (empty_listings F)).
Proof.
  intros response_text Hb Hi Hc. unfold parse_api_response, select_json_text.
  rewrite Hc. unfold response_text.
  rewrite contains_here.
  rewrite (split_fence before _ Hb), (split_fence inside _ Hi).
  reflexivity.
Qed.

(** X9. An answer of status 200 whose message holds a fence labelled
    [json] is lost: the exception the parser raises is caught by
    [process_with_api], which returns the empty listings. *)
Theorem process_with_api_drops_labelled_fence
  (post : request -> http_outcome) (content : str) (fields : list str)
  (config : Config) (text s : str) (response_data choices choice message : value) :
  post (build_request content fields config) = Responded 200 text ->
  loads F text = Ok response_data ->
  subscript F response_data (txt "choices") = Ok choices ->
  item F choices 0 = Ok choice ->
  subscript F choice (txt "message") = Ok message ->
  subscript F message (txt "content") = Ok (JStr s) ->
  contains (txt "```json") s = true ->
  process_with_api F post content fields config = Ok (empty_listings F).
Proof.
  intros Hp Hl H1 H2 H3 H4 Hc.
  unfold process_with_api, handle_outcome. rewrite Hp. cbn [Z.eqb Pos.eqb].
  rewrite Hl. cbn [bind]. rewrite H1. cbn [bind]. rewrite H2. cbn [bind].
  rewrite H3. cbn [bind]. rewrite H4. cbn [bind strip_method].
  unfold parse_api_response.
  rewrite select_json_text_fenced_json; [reflexivity|].
  rewrite contains_strip; [exact Hc|].
  repeat constructor.
Qed.

End WithFloats.

Import Examples MoreExamples.

Lemma parse_api_response_outcomes_witness :
  parse_api_response literal_floats fenced_json = Raise AttributeError.
Proof.
  apply (proj2 (proj1 (parse_api_response_outcomes literal_floats fenced_json))).
  vm_compute. reflexivity.
Defined.

Lemma parse_api_response_ignores_prose_witness :
  parse_api_response literal_floats
    (txt "Here: " ++ (123%N :: qtxt "'a':'1'" ++ [125%N]) ++ txt " ok")
  = parse_api_response literal_floats (123%N :: qtxt "'a':'1'" ++ [125%N]).
Proof.
  apply (parse_api_response_ignores_prose literal_floats
           (txt "Here: ") (qtxt "'a':'1'") (txt " ok")).
  - vm_compute. intuition discriminate.
  - vm_compute. intuition discriminate.
  - vm_compute. reflexivity.
Defined.

Lemma parse_api_response_reads_fence_witness :
  parse_api_response literal_floats
    (txt "Here: " ++ txt "```" ++ ([10%N] ++ qtxt "{'a':'1'}" ++ [10%N])
     ++ txt "```" ++ txt " bye")
  = Ok (JDict [(txt "listings", JList [JDict [(txt "a", JStr (txt "1"))]])]).
Proof.
  etransitivity.
  - apply (parse_api_response_reads_fence literal_floats
             (txt "Here: ") ([10%N] ++ qtxt "{'a':'1'}" ++ [10%N]) (txt " bye")).
    + vm_compute. intuition discriminate.
    + vm_compute. intuition discriminate.
    + vm_compute. reflexivity.
  - vm_compute. reflexivity.
Defined.

Lemma process_with_api_drops_labelled_fence_witness :
  process_with_api literal_floats (fun _ => Responded 200 fenced_completion)
    (txt "Alpha beta.") [txt "name"] default_config
  = Ok (empty_listings literal_floats).
Proof.
  eapply (process_with_api_drops_labelled_fence literal_floats
            (fun _ => Responded 200 fenced_completion)
            (txt "Alpha beta.") [txt "name"] default_config fenced_completion).
  - reflexivity.
  - vm_compute. reflexivity.
  - vm_compute. reflexivity.
  - vm_compute. reflexivity.
  - vm_compute. reflexivity.
  - vm_compute. reflexivity.
  - vm_compute. reflexivity.
Defined.

End ParserFacts.

(** ** The configuration *)

Module ConfigFacts.
Import PyFacts Json Scraper ScraperFacts ParserFacts Settings.

Lemma split1_two (c : char) (s : str) :
  contains [c] s = true -> exists k v, split1 [c] s = [k; v].
Proof.
  induction s as [|d s IH]; cbn [contains startswith split1]; [discriminate|].
  destruct (N.eqb c d); cbn [andb orb].
  - intros _. eexists _, _. reflexivity.
  - intros H. destruct (IH H) as (k & v & ->). eexists _, _. reflexivity.
Qed.

Lemma key_value_returns (line : str) :
  contains (txt "=") line = true -> exists k v, key_value line = Ok (k, v).
Proof.
  intros H. unfold key_value.
  rewrite <- (contains_strip (txt "=") line) in H by (repeat constructor).
  destruct (split1_two 61%N _ H) as (k & v & E).
  change (txt "=") with [61%N]. unfold str, char in *. rewrite E. eauto.
Qed.

Lemma key_values_returns (ls : list str) : exists pairs, key_values ls = Ok pairs.
Proof.
  induction ls as [|line ls (pairs & IH)]; [eexists; reflexivity|].
  cbn [key_values]. destruct (contains (txt "=") line) eqn:E; [|eauto].
  destruct (key_value_returns line E) as (k & v & ->). rewrite IH.
  eexists. reflexivity.
Qed.

Section WithFloats.
Variable F : float_codec.
Variable A : arith.
Variable E : env.

(** X10. Once [config.txt] has been opened and read to its end, as the
    text [content], no line of that text makes [load_config] fail or
    print: it raises exactly when the text sets [chunk_size] to a value
    that [int] refuses, with the exception of [int]; otherwise the chunk
    size is that integer, or 30000 when the text does not set it.  (A
    file that is there but cannot be opened or decoded is not read: the
    theorem says nothing of it.) *)
Theorem load_config_raises_only_on_chunk_size (content : str) (tr : list (event F)) :
  read_file E (txt "config.txt") = Some content ->
  match dict_get (txt "chunk_size") (settings content) with
  | Some v =>
      match int_of E v with
      | Ok n => exists c, load_config F E tr = (Ok c, tr) /\ chunk_size c = n
      | Raise e => load_config F E tr = (Raise e, tr)
      end
  | None =>
      exists c, load_config F E tr = (Ok c, tr)
                /\ chunk_size c = DEFAULT_CHUNK_SIZE
  end.
Proof.
  intros Hr. unfold load_config, settings. rewrite Hr.
  destruct (key_values_returns (lines content)) as (pairs & ->).
  unfold bindM, lift, ret.
  destruct (dict_get (txt "chunk_size") (dict_of_pairs pairs)) as [v|].
  - destruct (int_of E v) as [n|e]; [|reflexivity].
    eexists. split; reflexivity.
  - eexists. split; reflexivity.
Qed.

(** X11. A [chunk_size] that is not an integer ends the run at once: [main]
    prints that an error occurred and does nothing else. *)
Theorem bad_chunk_size_ends_the_run (content v : str) (e : exn) :
  read_file E (txt "config.txt") = Some content ->
  dict_get (txt "chunk_size") (settings content) = Some v ->
  int_of E v = Raise e ->
  main F A E = [Printed (AnErrorOccurred e)].
Proof.
  intros Hr Hv He. unfold settings in Hv.
  destruct (key_values_returns (lines content)) as (pairs & Hp).
  rewrite Hp in Hv.
  unfold main, main_body, try_M, new_Config, load_config, bindM, lift.
  rewrite Hr, Hp, Hv, He. reflexivity.
Qed.

(** X12. A provider that is neither [together] nor [groq] is served half
    by each: the request goes to the endpoint of Groq with the key of Groq,
    and asks for the model of Together within the limits of Together. *)
Theorem other_provider_is_sent_to_groq (tr tr' : list (event F)) (c : Config)
  (content : str) (fields : list str) :
  load_config F E tr = (Ok c, tr') ->
  api_provider c <> txt "together" ->
  api_provider c <> txt "groq" ->
  let r := build_request content fields c in
  api_url r = GROQ_URL /\ bearer r = groq_api_key c
  /\ req_model r = TOGETHER_MODEL
  /\ max_tokens c = MAX_TOKENS_TOGETHER /\ max_output_tokens c = 4096%Z.
Proof.
  intros Hl Ht Hg r.
  assert (Hb : str_eqb (api_provider c) (txt "together") = false).
  { destruct (str_eqb _ _) eqn:Eb; [|reflexivity]. apply str_eqb_eq in Eb. tauto. }
  assert (Hr : api_url r = GROQ_URL /\ bearer r = groq_api_key c
               /\ req_model r = model c).
  { unfold r, build_request. rewrite Hb. repeat split. }
  destruct Hr as (H1 & H2 & H3).
  split; [exact H1|]. split; [exact H2|]. rewrite H3. clear r H1 H2 H3.
  unfold load_config in Hl. destruct (read_file E _) as [text|].
  - destruct (key_values_returns (lines text)) as (pairs & Hp).
    rewrite Hp in Hl. unfold bindM, lift, ret in Hl.
    destruct (match dict_get (txt "chunk_size") (dict_of_pairs pairs) with
              | Some v => int_of E v
              | None => Ok DEFAULT_CHUNK_SIZE
              end) as [n|e]; [|discriminate].
    injection Hl as <- _. cbn [api_provider model max_tokens max_output_tokens] in *.
    destruct (str_eqb _ (txt "groq")) eqn:Eg; [|repeat split].
    apply str_eqb_eq in Eg. tauto.
  - unfold bindM, emit, ret in Hl. injection Hl as <- _. exfalso. apply Ht. reflexivity.
Qed.

Lemma stripped_lines_kept (content : str) : Forall kept_line (stripped_lines content).
Proof.
  apply Forall_forall. intros l Hl. unfold stripped_lines in Hl.
  apply filter_In in Hl as [Hl Ht]. apply in_map_iff in Hl as (p & <- & Hp).
  split; [apply truthy_true, Ht|]. split; [apply strip_idem|].
  intros Hin. apply strip_incl in Hin.
  pose proof (split_char_pieces 10%N content) as Hall.
  apply (proj1 (Forall_forall _ _) Hall p Hp Hin).
Qed.

(** X13. The URLs and the fields that [Config] reads are the lines of
    their files that are not blank, trimmed: none is empty, none begins or
    ends with white space, none holds a newline. *)
Theorem loaded_lines_are_trimmed (tr tr' : list (event F)) (l : list str) :
  load_urls F E tr = (Ok l, tr') \/ load_fields F E tr = (Ok l, tr') ->
  Forall kept_line l.
Proof.
  unfold load_urls, load_fields. intros [H|H];
    destruct (read_file E _) as [content|];
    unfold bindM, emit, ret in H; injection H as <- _;
    try constructor; apply stripped_lines_kept.
Qed.

End WithFloats.

Import Examples MoreRuns.

Lemma load_config_raises_only_on_chunk_size_witness :
  exists c, load_config literal_floats two_domains [] = (Ok c, [])
            /\ chunk_size c = 2%Z.
Proof.
  exact (load_config_raises_only_on_chunk_size literal_floats two_domains
           (txt "chunk_size=2" ++ [10%N]) [] eq_refl).
Defined.

Lemma bad_chunk_size_ends_the_run_witness :
  main literal_floats decimal bad_chunk_size = [Printed (AnErrorOccurred ValueError)].
Proof.
  apply (bad_chunk_size_ends_the_run literal_floats decimal bad_chunk_size
           (txt "chunk_size=30k" ++ [10%N]) (txt "30k") ValueError).
  - reflexivity.
  - vm_compute. reflexivity.
  - reflexivity.
Defined.

Lemma other_provider_is_sent_to_groq_witness :
  let r := build_request (txt "Alpha beta.") [txt "name"] openai_config in
  api_url r = GROQ_URL /\ bearer r = txt "gsk" /\ req_model r = TOGETHER_MODEL
  /\ max_tokens openai_config = MAX_TOKENS_TOGETHER
  /\ max_output_tokens openai_config = 4096%Z.
Proof.
  apply (other_provider_is_sent_to_groq literal_floats openai []
           [] openai_config (txt "Alpha beta.") [txt "name"]).
  - vm_compute. reflexivity.
  - vm_compute. discriminate.
  - vm_compute. discriminate.
Defined.

Lemma loaded_lines_are_trimmed_witness :
  Forall kept_line [url_a; url_b].
Proof.
  apply (loaded_lines_are_trimmed literal_floats two_domains [] [] [url_a; url_b]).
  left. vm_compute. reflexivity.
Defined.

End ConfigFacts.

(** ** What [save_results] writes *)

Module SavingFacts.
Import PyFacts Json JsonFacts Scraper ScraperFacts.

Lemma dict_get_set_other {V} (k k' : str) (v : V) (d : list (str * V)) :
  k <> k' -> dict_get k (dict_set k' v d) = dict_get k d.
Proof.
  intros Hk. induction d as [|[a x] d IH]; cbn [dict_set dict_get].
  - destruct (str_eqb k k') eqn:E; [apply str_eqb_eq in E; tauto|reflexivity].
  - destruct (str_eqb k' a) eqn:E1; cbn [dict_get].
    + apply str_eqb_eq in E1. subst a.
      destruct (str_eqb k k') eqn:E; [apply str_eqb_eq in E; tauto|reflexivity].
    + rewrite IH. reflexivity.
Qed.

Section WithFloats.
Variable F : float_codec.
Variable E : env.

Local Abbreviation value := (Json.value F).

Lemma tag_dicts (urls : list str) (items : list value) :
  Forall (fun x => is_dict F x = true) items ->
  exists items', map_result (tag F urls) items = Ok items'
                 /\ length items' = length items.
Proof.
  induction 1 as [|x items Hx _ (items' & IH & Hl)]; [exists []; split; reflexivity|].
  destruct x; try discriminate. cbn [map_result tag setitem bind].
  rewrite IH. eexists. split; [reflexivity|]. cbn [length]. rewrite Hl. reflexivity.
Qed.

Lemma tag_raises (urls : list str) (items : list value) :
  Exists (fun x => is_dict F x = false) items ->
  map_result (tag F urls) items = Raise TypeError.
Proof.
  induction 1 as [x items Hx|x items _ IH].
  - destruct x; try discriminate; reflexivity.
  - cbn [map_result]. destruct (tag F urls x) as [y|e] eqn:Ey; cbn [bind].
    + rewrite IH. reflexivity.
    + destruct x; try discriminate; cbn in Ey; congruence.
Qed.

Lemma add_source_urls_list (d : list (str * value)) (items : list value)
  (urls : list str) :
  dict_get (txt "listings") d = Some (JList items) ->
  add_source_urls F (JDict d) urls
  = (items' <- map_result (tag F urls) items ;;
     Ok (JDict (dict_set (txt "listings") (JList items') d))).
Proof.
  intros H. unfold add_source_urls. cbn [get bind]. rewrite H. reflexivity.
Qed.

(** X14. When a listing is not a dictionary, [save_results] writes no
    file: it makes the folder, fails with [TypeError] on that listing and
    prints that the results could not be saved. *)
Theorem save_results_needs_records (d : list (str * value)) (items : list value)
  (domain : str) (urls : list str) (output_folder : str) (tr : list (event F)) :
  dict_get (txt "listings") d = Some (JList items) ->
  Exists (fun x => is_dict F x = false) items ->
  save_results F E (JDict d) domain urls output_folder tr
  = (Ok tt, tr ++ [MadeDir output_folder; Printed (ErrorSaving domain TypeError)]).
Proof.
  intros Hd Hx. unfold save_results, bindM, try_M, emit, lift.
  rewrite (add_source_urls_list d items urls Hd), (tag_raises urls items Hx).
  cbn [bind]. rewrite <- app_assoc. reflexivity.
Qed.

(** X15. When every listing is a dictionary, [save_results] makes the
    folder and runs the statement that writes the JSON file, with the
    listings tagged and the other keys of the data as they were.  When
    that write fails, nothing else is written and the error is printed;
    when every write succeeds, the CSV and Excel files follow if there is a
    listing at least, and then the message that the results are saved. *)
Theorem save_results_writes (d : list (str * value)) (items : list value)
  (domain : str) (urls : list str) (output_folder : str) (tr : list (event F)) :
  dict_get (txt "listings") d = Some (JList items) ->
  Forall (fun x => is_dict F x = true) items ->
  exists items',
    map_result (tag F urls) items = Ok items'
    /\ length items' = length items
    /\ let json_path := path_join output_folder (domain ++ txt "_results.json") in
       let written :=
         [MadeDir output_folder;
          WroteJson json_path (JDict (dict_set (txt "listings") (JList items') d))] in
       (exists rest,
          snd (save_results F E (JDict d) domain urls output_folder tr)
          = tr ++ written ++ rest)
       /\ (forall e,
             write_file E (S (S (length tr))) json_path = Raise e ->
             save_results F E (JDict d) domain urls output_folder tr
             = (Ok tt, tr ++ written ++ [Printed (ErrorSaving domain e)]))
       /\ ((forall now, data_frame E now = Ok tt) ->
           (forall now path, write_file E now path = Ok tt) ->
           save_results F E (JDict d) domain urls output_folder tr
           = (Ok tt,
              tr ++ written
                 ++ (if truthy items
                     then [WroteCsv (path_join output_folder (domain ++ txt "_results.csv"))
                                    (JList items');
                           WroteXlsx (path_join output_folder (domain ++ txt "_results.xlsx"))
                                     (JList items')]
                     else [])
                 ++ [Printed (ResultsSaved domain)])).
Proof.
  intros Hd Hall. destruct (tag_dicts urls items Hall) as (items' & Ht & Hl).
  exists items'. split; [exact Ht|]. split; [exact Hl|]. cbv zeta.
  assert (Hlen : length ((tr ++ [MadeDir output_folder])
                         ++ [WroteJson (path_join output_folder (domain ++ txt "_results.json"))
                               (JDict (dict_set (txt "listings") (JList items') d))])
                 = S (S (length tr))).
  { rewrite !length_app. cbn [length]. lia. }
  split; [|split].
  - unfold save_results, write, bindM, try_M, emit, clock, lift.
    rewrite (add_source_urls_list d items urls Hd), Ht. cbn [bind].
    destruct (write_file E _ _) as [[]|e].
    + cbn [get]. rewrite dict_get_set.
      destruct (truth F (JList items')).
      * destruct (data_frame E _) as [[]|e];
          [|eexists [_]; cbn [snd]; rewrite <- !app_assoc; reflexivity].
        destruct (write_file E _ _) as [[]|e];
          [|eexists [_; _]; cbn [snd]; rewrite <- !app_assoc; reflexivity].
        destruct (write_file E _ _) as [[]|e];
          eexists [_; _; _]; cbn [snd]; rewrite <- !app_assoc; reflexivity.
      * eexists [_]. cbn [snd ret]. rewrite <- !app_assoc. reflexivity.
    + eexists [_]. cbn [snd]. rewrite <- !app_assoc. reflexivity.
  - intros e He.
    unfold save_results, write, bindM, try_M, emit, clock, lift.
    rewrite (add_source_urls_list d items urls Hd), Ht. cbn [bind].
    rewrite Hlen, He. rewrite <- !app_assoc. reflexivity.
  - intros Hdf Hw.
    unfold save_results, write, bindM, try_M, emit, clock, lift.
    rewrite (add_source_urls_list d items urls Hd), Ht. cbn [bind].
    rewrite Hw. cbn [get]. rewrite dict_get_set. cbn [truth].
    destruct items as [|x items], items' as [|y items']; try discriminate;
      cbn [truthy ret]; rewrite ?Hdf, ?Hw; rewrite <- ?app_assoc; reflexivity.
Qed.

(** X16. [save_results] never raises, whatever it is given: it makes the
    folder, and the last thing it does is to print that the results are
    saved, or the error that kept it from saving them. *)
Theorem save_results_never_raises (data : value) (domain : str) (urls : list str)
  (output_folder : str) (tr : list (event F)) :
  exists (written : list (event F)) (m : message),
    save_results F E data domain urls output_folder tr
    = (Ok tt, tr ++ MadeDir output_folder :: written ++ [Printed m])
    /\ (m = ResultsSaved domain \/ exists e, m = ErrorSaving domain e).
Proof.
  unfold save_results, write, bindM, try_M, emit, clock, lift.
  destruct (add_source_urls F data urls) as [data'|e].
  2:{ exists [], (ErrorSaving domain e).
      split; [rewrite <- !app_assoc; reflexivity|right; eexists; reflexivity]. }
  destruct (write_file E _ _) as [[]|e].
  2:{ eexists [_], _.
      split; [rewrite <- !app_assoc; reflexivity|right; eexists; reflexivity]. }
  destruct (get F (txt "listings") data') as [listings|e].
  2:{ eexists [_], _.
      split; [rewrite <- !app_assoc; reflexivity|right; eexists; reflexivity]. }
  destruct (truth F listings); cbn [ret].
  2:{ eexists [_], _.
      split; [rewrite <- !app_assoc; reflexivity|left; reflexivity]. }
  destruct (data_frame E _) as [[]|e].
  2:{ eexists [_], _.
      split; [rewrite <- !app_assoc; reflexivity|right; eexists; reflexivity]. }
  destruct (write_file E _ _) as [[]|e].
  2:{ eexists [_; _], _.
      split; [rewrite <- !app_assoc; reflexivity|right; eexists; reflexivity]. }
  destruct (write_file E _ _) as [[]|e].
  - eexists [_; _; _], _.
    split; [rewrite <- !app_assoc; reflexivity|left; reflexivity].
  - eexists [_; _; _], _.
    split; [rewrite <- !app_assoc; reflexivity|right; eexists; reflexivity].
Qed.

(** X17. Tagging a listing sets its [source_url] to the list of URLs and
    leaves every other field as it was. *)
Theorem tag_keeps_fields (urls : list str) (listing listing' : value) :
  tag F urls listing = Ok listing' ->
  get F (txt "source_url") listing' = Ok (JList (map JStr urls))
  /\ forall k, k <> txt "source_url" -> get F k listing' = get F k listing.
Proof.
  destruct listing; try discriminate. cbn [tag setitem].
  intros H. injection H as <-. cbn [get]. split.
  - rewrite dict_get_set. reflexivity.
  - intros k Hk. rewrite dict_get_set_other by exact Hk. reflexivity.
Qed.

End WithFloats.

Import Examples.

Lemma save_results_needs_records_witness :
  save_results literal_floats two_domains
    (JDict [(txt "listings", JList [JStr (txt "o"); JStr (txt "k")])])
    (txt "a.com") [url_a] (txt "scraping_results/a.com") []
  = (Ok tt, [MadeDir (txt "scraping_results/a.com");
             Printed (ErrorSaving (txt "a.com") TypeError)]).
Proof.
  apply (save_results_needs_records literal_floats two_domains
           [(txt "listings", JList [JStr (txt "o"); JStr (txt "k")])]
           [JStr (txt "o"); JStr (txt "k")] (txt "a.com") [url_a]
           (txt "scraping_results/a.com") []).
  - reflexivity.
  - left. reflexivity.
Defined.

Lemma save_results_writes_witness :
  exists items',
    map_result (tag literal_floats [url_a]) [JDict [(txt "a", JStr (txt "1"))]]
    = Ok items'
    /\ save_results literal_floats two_domains listings_a1 (txt "a.com") [url_a]
         (txt "scraping_results/a.com") []
       = (Ok tt,
          [MadeDir (txt "scraping_results/a.com");
           WroteJson (txt "scraping_results/a.com/a.com_results.json")
                     (JDict [(txt "listings", JList items')]);
           WroteCsv (txt "scraping_results/a.com/a.com_results.csv") (JList items');
           WroteXlsx (txt "scraping_results/a.com/a.com_results.xlsx") (JList items');
           Printed (ResultsSaved (txt "a.com"))]).
Proof.
  assert (Hall : Forall (fun x => is_dict literal_floats x = true)
                    [JDict [(txt "a", JStr (txt "1"))]]).
  { constructor; [reflexivity|constructor]. }
  destruct (save_results_writes literal_floats two_domains
              [(txt "listings", JList [JDict [(txt "a", JStr (txt "1"))]])]
              [JDict [(txt "a", JStr (txt "1"))]] (txt "a.com") [url_a]
              (txt "scraping_results/a.com") [] eq_refl Hall)
    as (items' & Ht & _ & _ & _ & Hok).
  exists items'. split; [exact Ht|].
  apply Hok; reflexivity.
Defined.

Lemma tag_keeps_fields_witness :
  get literal_floats (txt "a")
    (JDict [(txt "a", JStr (txt "1")); (txt "source_url", JList [JStr url_a])])
  = Ok (JStr (txt "1")).
Proof.
  apply (proj2 (tag_keeps_fields literal_floats [url_a]
                  (JDict [(txt "a", JStr (txt "1"))])
                  (JDict [(txt "a", JStr (txt "1"));
                          (txt "source_url", JList [JStr url_a])])
                  eq_refl) (txt "a")).
  vm_compute. discriminate.
Defined.

End SavingFacts.

(** ** The run as a whole *)

Module RunFacts.
Import PyFacts Json JsonFacts Scraper ScraperFacts SavingFacts Traces.

Section WithFloats.
Variable F : float_codec.

Local Abbreviation value := (Json.value F).

(** *** Steps that only add events *)

Section Emits.
Variable P : event F -> Prop.

Lemma emits_ret {X} (x : X) : emits P (ret x).
Proof. intros tr. exists []. rewrite app_nil_r. split; [reflexivity|constructor]. Qed.

Lemma emits_lift {X} (r : result X) : emits P (lift r).
Proof. intros tr. exists []. rewrite app_nil_r. split; [reflexivity|constructor]. Qed.

Lemma emits_clock : emits P clock.
Proof. intros tr. exists []. rewrite app_nil_r. split; [reflexivity|constructor]. Qed.

Lemma emits_emit (e : event F) : P e -> emits P (emit e).
Proof.
  intros He tr. exists [e]. split; [reflexivity|]. constructor; [exact He|constructor].
Qed.

Lemma emits_bind {X Y} (m : M F X) (k : X -> M F Y) :
  emits P m -> (forall x, emits P (k x)) -> emits P (bindM m k).
Proof.
  intros Hm Hk tr. unfold bindM. destruct (Hm tr) as (new & E & Hn).
  destruct (m tr) as [[x|e] tr']; simpl in E; subst tr'.
  - destruct (Hk x (tr ++ new)) as (new' & E' & Hn').
    exists (new ++ new'). rewrite E', app_assoc. split; [reflexivity|].
    apply Forall_app. split; assumption.
  - exists new. split; [reflexivity|exact Hn].
Qed.

Lemma emits_try {X} (m : M F X) (handler : exn -> M F X) :
  emits P m -> (forall e, emits P (handler e)) -> emits P (try_M m handler).
Proof.
  intros Hm Hh tr. unfold try_M. destruct (Hm tr) as (new & E & Hn).
  destruct (m tr) as [[x|e] tr']; simpl in E; subst tr'.
  - exists new. split; [reflexivity|exact Hn].
  - destruct (Hh e (tr ++ new)) as (new' & E' & Hn').
    exists (new ++ new'). rewrite E', app_assoc. split; [reflexivity|].
    apply Forall_app. split; assumption.
Qed.

Lemma emits_for_each {X S} (l : list X) (body : X -> S -> M F S) :
  (forall x s, emits P (body x s)) -> forall s, emits P (for_each l body s).
Proof.
  intros Hb. induction l as [|x l IH]; intros s; simpl.
  - apply emits_ret.
  - apply emits_bind; [apply Hb|exact IH].
Qed.

Lemma emits_if {X} (b : bool) (m1 m2 : M F X) :
  emits P m1 -> emits P m2 -> emits P (if b then m1 else m2).
Proof. destruct b; auto. Qed.

End Emits.

Lemma emits_weaken {X} (P Q : event F -> Prop) (m : M F X) :
  (forall e, P e -> Q e) -> emits P m -> emits Q m.
Proof.
  intros H Hm tr. destruct (Hm tr) as (new & E & Hn). exists new.
  split; [exact E|]. eapply Forall_impl; [exact H|exact Hn].
Qed.

Ltac emitting :=
  repeat first
    [ apply emits_ret | apply emits_lift | apply emits_clock
    | apply emits_emit; exact I
    | apply emits_bind; [|intros ?]
    | apply emits_if ].

(** *** What a step returns *)

Lemma returns_ret {X} (Q : X -> Prop) (x : X) : Q x -> returns Q (ret (F:=F) x).
Proof. intros H tr. exact H. Qed.

Lemma returns_lift {X} (Q : X -> Prop) (r : result X) :
  match r with Ok x => Q x | Raise _ => True end -> returns Q (lift (F:=F) r).
Proof. intros H tr. exact H. Qed.

Lemma returns_any {X} (m : M F X) : returns (fun _ => True) m.
Proof. intros tr. destruct (fst (m tr)); exact I. Qed.

Lemma returns_bind {X Y} (R : X -> Prop) (Q : Y -> Prop) (m : M F X) (k : X -> M F Y) :
  returns R m -> (forall x, R x -> returns Q (k x)) -> returns Q (bindM m k).
Proof.
  intros Hm Hk tr. unfold bindM. specialize (Hm tr).
  destruct (m tr) as [[x|e] tr']; simpl in *; [apply Hk, Hm|exact I].
Qed.

Lemma returns_then {X Y} (Q : Y -> Prop) (m : M F X) (k : X -> M F Y) :
  (forall x, returns Q (k x)) -> returns Q (bindM m k).
Proof.
  intros Hk. apply (returns_bind (fun _ => True)); [apply returns_any|].
  intros x _. apply Hk.
Qed.

Lemma returns_for_each {X S} (I : S -> Prop) (l : list X) (body : X -> S -> M F S) :
  (forall x s, In x l -> I s -> returns I (body x s)) ->
  forall s, I s -> returns I (for_each l body s).
Proof.
  induction l as [|x l IH]; intros Hb s Hs; simpl.
  - apply returns_ret, Hs.
  - apply (returns_bind I).
    + apply Hb; [left; reflexivity|exact Hs].
    + intros s' Hs'. apply IH; [|exact Hs'].
      intros y t Hy. apply Hb. right. exact Hy.
Qed.

(** *** The domains reported *)

Lemma completed_app (a b : list (event F)) :
  completed (a ++ b) = completed a ++ completed b.
Proof.
  induction a as [|e a IH]; [reflexivity|].
  destruct e as [m| | | | | | |]; simpl; try exact IH.
  destruct m; simpl; try exact IH. rewrite IH. reflexivity.
Qed.

Lemma completed_none (new : list (event F)) :
  Forall not_completed new -> completed new = [].
Proof.
  induction 1 as [|e new He _ IH]; [reflexivity|].
  change (e :: new) with ([e] ++ new). rewrite completed_app, He, IH. reflexivity.
Qed.

Section WithEnv.
Variable A : arith.
Variable E : env.

Lemma new_Config_emits : emits config_event (new_Config F E).
Proof.
  unfold new_Config, load_config, load_urls, load_fields.
  apply emits_bind; [destruct (read_file E _); emitting|intros c].
  apply emits_bind; [destruct (read_file E _); emitting|intros urls].
  apply emits_bind; [destruct (read_file E _); emitting|intros fields].
  emitting.
Qed.

Lemma chunk_round_emits config total numbered acc :
  emits page_event (chunk_round F E config total numbered acc).
Proof. unfold chunk_round. destruct numbered as [i chunk]. emitting. Qed.

Lemma url_round_emits config url acc :
  emits page_event (url_round F A E config url acc).
Proof.
  unfold url_round.
  repeat first
    [ apply emits_ret | apply emits_lift | apply emits_clock
    | apply emits_emit; exact I
    | apply emits_for_each; intros ? ?; apply chunk_round_emits
    | apply emits_bind; [|intros ?]
    | apply emits_if ].
Qed.

Lemma save_results_emits data domain urls folder :
  emits saving_event (save_results F E data domain urls folder).
Proof.
  unfold save_results, write.
  apply emits_bind; [apply emits_emit; exact I|intros _].
  apply emits_try; [|intros e; apply emits_emit; exact I].
  emitting.
Qed.

Lemma save_round_emits config entry u :
  emits saving_event (save_round F E config entry u).
Proof.
  unfold save_round. destruct entry as [domain results].
  apply emits_bind; [apply save_results_emits|intros _]. emitting.
Qed.

(** *** The shape of a run *)

Lemma save_results_returns data domain urls folder (tr : list (event F)) :
  fst (save_results F E data domain urls folder tr) = Ok tt.
Proof.
  unfold save_results, write, bindM, try_M, emit, clock, lift.
  destruct (add_source_urls F data urls) as [data'|e]; [|reflexivity].
  destruct (write_file E _ _) as [[]|e]; [|reflexivity].
  destruct (get F (txt "listings") data') as [listings|e]; [|reflexivity].
  destruct (truth F listings); [|reflexivity].
  destruct (data_frame E _) as [[]|e]; [|reflexivity].
  destruct (write_file E _ _) as [[]|e]; [|reflexivity].
  destruct (write_file E _ _) as [[]|e]; reflexivity.
Qed.

Lemma save_results_quiet data domain urls folder :
  emits (fun e => saving_event e /\ not_completed e)
        (save_results F E data domain urls folder).
Proof.
  unfold save_results, write.
  repeat first
    [ apply emits_ret | apply emits_lift | apply emits_clock
    | apply emits_emit; split; [exact I|reflexivity]
    | apply emits_bind; [|intros ?]
    | apply emits_try; [|intros ?]
    | apply emits_if ].
Qed.

(** One round of the loop over the domains: it returns, and reports its
    domain once. *)
Lemma save_round_reports config domain (results : list value) (tr : list (event F)) :
  exists new,
    save_round F E config (domain, results) tt tr = (Ok tt, tr ++ new)
    /\ Forall saving_event new /\ completed new = [domain].
Proof.
  unfold save_round, bindM.
  pose proof (save_results_returns (JDict [(txt "listings", JList results)]) domain
                (urls config) (path_join base_output_folder domain) tr) as Hr.
  destruct (save_results_quiet (JDict [(txt "listings", JList results)]) domain
              (urls config) (path_join base_output_folder domain) tr)
    as (new & Hn & Hall).
  destruct (save_results F E _ domain (urls config) _ tr) as [r tr'].
  simpl in Hr, Hn. subst r tr'. unfold emit.
  exists (new ++ [Printed (Completed domain); Printed (TotalItems (length results))]).
  split; [rewrite <- !app_assoc; reflexivity|]. split.
  - apply Forall_app. split.
    + eapply Forall_impl; [|exact Hall]. intros e [He _]. exact He.
    + repeat constructor.
  - rewrite completed_app, completed_none; [reflexivity|].
    eapply Forall_impl; [|exact Hall]. intros e [_ He]. exact He.
Qed.

(** The loop over the domains. *)
Lemma save_loop config (domain_results : list (str * list value)) (tr : list (event F)) :
  exists new,
    for_each domain_results (save_round F E config) tt tr = (Ok tt, tr ++ new)
    /\ Forall saving_event new /\ completed new = map fst domain_results.
Proof.
  revert tr. induction domain_results as [|[domain results] l IH]; intros tr.
  - exists []. rewrite app_nil_r. repeat split. constructor.
  - destruct (save_round_reports config domain results tr) as (new1 & E1 & H1 & C1).
    destruct (IH (tr ++ new1)) as (new2 & E2 & H2 & C2).
    exists (new1 ++ new2). cbn [for_each]. unfold bindM at 1. rewrite E1, E2.
    split; [rewrite app_assoc; reflexivity|]. split.
    + apply Forall_app. split; assumption.
    + rewrite completed_app, C1, C2. reflexivity.
Qed.

(** The four ways a run can go. *)
Lemma main_cases :
  match new_Config F E [] with
  | (Raise e, tr0) => main F A E = tr0 ++ [Printed (AnErrorOccurred e)]
  | (Ok config, tr0) =>
      if negb (truthy (urls config)) || negb (truthy (fields config))
      then main F A E = tr0 ++ [Printed NoUrlsOrFields]
      else
        match for_each (urls config) (url_round F A E config) []
                (tr0 ++ [MadeDir base_output_folder]) with
        | (Raise e, tr1) => main F A E = tr1 ++ [Printed (AnErrorOccurred e)]
        | (Ok domain_results, tr1) =>
            main F A E = snd (for_each domain_results (save_round F E config) tt tr1)
        end
  end.
Proof.
  unfold main, main_body, try_M, bindM.
  destruct (new_Config F E []) as [[config|e] tr0]; [|reflexivity].
  destruct (negb (truthy (urls config)) || negb (truthy (fields config)));
    [reflexivity|].
  unfold emit. cbv beta iota.
  destruct (for_each (urls config) _ [] _) as [[domain_results|e] tr1];
    [|reflexivity].
  destruct (save_loop config domain_results tr1) as (new & -> & _). reflexivity.
Qed.

Lemma config_not_file (e : event F) : config_event e -> ~ is_file e.
Proof. destruct e; simpl; tauto. Qed.

Lemma page_not_file (e : event F) : page_event e -> ~ is_file e.
Proof. destruct e; simpl; tauto. Qed.

Lemma saving_not_network (e : event F) : saving_event e -> ~ is_network e.
Proof. destruct e; simpl; tauto. Qed.

Lemma config_not_completed (e : event F) : config_event e -> not_completed e.
Proof.
  destruct e as [m| | | | | | |]; [destruct m|..]; intros H;
    first [reflexivity|destruct H].
Qed.

Lemma page_not_completed (e : event F) : page_event e -> not_completed e.
Proof.
  destruct e as [m| | | | | | |]; [destruct m|..]; intros H;
    first [reflexivity|destruct H].
Qed.

(** The loop over the URLs only adds page events. *)
Lemma url_loop_emits config (tr : list (event F)) :
  exists new,
    snd (for_each (urls config) (url_round F A E config) [] tr) = tr ++ new
    /\ Forall page_event new.
Proof.
  apply (emits_for_each page_event). intros url acc. apply url_round_emits.
Qed.

(** X19. When the answer to a chunk holds, under [listings], a number that
    is not zero or [true], the loop over the chunks raises [TypeError]
    after the call: the chunk is not added and the loop does not go on. *)
Theorem chunk_round_raises_on_scalar (config : Config) (total i : nat)
  (chunk : str) (chunk_results : list value) (tr : list (event F))
  (d : list (str * value)) (v : value) :
  process_with_api F (post E (S (length tr))) chunk (fields config) config
  = Ok (JDict d) ->
  dict_get (txt "listings") d = Some v ->
  truth F v = true ->
  iterate F v = Raise TypeError ->
  chunk_round F E config total (i, chunk) chunk_results tr
  = (Raise TypeError,
     tr ++ [Printed (ProcessingChunk i total);
            Posted (build_request chunk (fields config) config)]).
Proof.
  intros Hp Hd Ht Hi. unfold chunk_round, bindM, emit, clock, lift.
  rewrite length_app. cbn [length]. rewrite Nat.add_1_r, Hp.
  assert (truth F (JDict d) = true) as ->.
  { destruct d; [discriminate|reflexivity]. }
  cbn [get subscript bind]. rewrite Hd. cbn [bind]. rewrite Ht, Hi.
  cbn [bind]. rewrite <- app_assoc. reflexivity.
Qed.

(** X20. When an exception escapes from the processing of a page, the run
    ends on the message that an error occurred and no file is written:
    what the pages before it gave is lost. *)
Theorem error_in_a_page_saves_nothing (config : Config) (tr0 tr1 : list (event F))
  (e : exn) :
  new_Config F E [] = (Ok config, tr0) ->
  urls config <> [] -> fields config <> [] ->
  for_each (urls config) (url_round F A E config) []
    (tr0 ++ [MadeDir base_output_folder]) = (Raise e, tr1) ->
  main F A E = tr1 ++ [Printed (AnErrorOccurred e)]
  /\ Forall (fun ev => ~ is_file ev) (main F A E).
Proof.
  intros Hc Hu Hf Hl. pose proof main_cases as H. rewrite Hc in H.
  apply truthy_true in Hu, Hf. rewrite Hu, Hf in H. cbn [negb orb] in H.
  rewrite Hl in H. split; [exact H|]. rewrite H.
  destruct (new_Config_emits []) as (new0 & E0 & H0).
  rewrite Hc in E0. simpl in E0. subst tr0.
  destruct (url_loop_emits config (new0 ++ [MadeDir base_output_folder]))
    as (new1 & E1 & H1).
  rewrite Hl in E1. simpl in E1. subst tr1.
  repeat (apply Forall_app; split).
  - eapply Forall_impl; [apply config_not_file|exact H0].
  - repeat constructor. intros [].
  - eapply Forall_impl; [apply page_not_file|exact H1].
  - repeat constructor. intros [].
Qed.

(** The keys of the results gathered so far are distinct, and each is the
    domain of a URL of the configuration. *)
Lemma url_round_keys config url (domain_results : list (str * list value)) :
  let I := fun dr : list (str * list value) =>
    NoDup (map fst dr)
    /\ forall k, In k (map fst dr) ->
                 exists u, In u (urls config) /\ get_domain_name E u = k in
  In url (urls config) -> I domain_results ->
  returns I (url_round F A E config url domain_results).
Proof.
  intros I Hin Hdr. unfold url_round.
  do 5 (apply returns_then; intros ?).
  destruct (negb (truthy _)); [apply returns_ret, Hdr|].
  do 4 (apply returns_then; intros ?).
  destruct (truthy _); [|apply returns_ret, Hdr].
  apply returns_ret. destruct Hdr as [Hn Hk]. split.
  - apply dict_set_nodup, Hn.
  - intros k Hkin. apply dict_set_keys in Hkin as [->|Hkin]; [|apply Hk, Hkin].
    exists url. split; [exact Hin|reflexivity].
Qed.

(** X21. Each domain is saved once, however many of its URLs were
    processed: the domains that a run reports as completed are distinct,
    and each is the domain of a URL of the configuration. *)
Theorem each_domain_is_saved_once (config : Config) (tr0 : list (event F)) :
  new_Config F E [] = (Ok config, tr0) ->
  NoDup (completed (main F A E))
  /\ forall d, In d (completed (main F A E)) ->
               exists u, In u (urls config) /\ get_domain_name E u = d.
Proof.
  intros Hc. pose proof main_cases as H. rewrite Hc in H.
  destruct (new_Config_emits []) as (new0 & E0 & H0).
  rewrite Hc in E0. simpl in E0. subst tr0.
  assert (C0 : completed new0 = []).
  { apply completed_none. eapply Forall_impl; [apply config_not_completed|exact H0]. }
  destruct (negb (truthy (urls config)) || negb (truthy (fields config))).
  { rewrite H, completed_app, C0. split; [constructor|intros d []]. }
  destruct (url_loop_emits config (new0 ++ [MadeDir base_output_folder]))
    as (new1 & E1 & H1).
  assert (C1 : completed new1 = []).
  { apply completed_none. eapply Forall_impl; [apply page_not_completed|exact H1]. }
  pose proof (returns_for_each
                (fun dr : list (str * list value) =>
                   NoDup (map fst dr)
                   /\ forall k, In k (map fst dr) ->
                                exists u, In u (urls config) /\ get_domain_name E u = k)
                (urls config) (url_round F A E config)
                (fun url dr Hin Hdr => url_round_keys config url dr Hin Hdr)
                [] (conj (NoDup_nil _) (fun k (Hk : In k []) => match Hk with end))
                (new0 ++ [MadeDir base_output_folder])) as Hkeys.
  destruct (for_each (urls config) _ [] _) as [[domain_results|e] tr1];
    simpl in E1, Hkeys; subst tr1.
  - destruct (save_loop config domain_results
                ((new0 ++ [MadeDir base_output_folder]) ++ new1))
      as (new2 & E2 & _ & C2).
    rewrite E2 in H. simpl in H. rewrite H, !completed_app, C0, C1, C2.
    exact Hkeys.
  - rewrite H, !completed_app, C0, C1. split; [constructor|intros d []].
Qed.

(** When every call fails, a round of the loop over the chunks adds
    nothing. *)
Lemma chunk_round_adds_nothing config total numbered (acc : list value) :
  (forall now r, failed (post E now r)) ->
  returns (fun acc' => acc' = acc) (chunk_round F E config total numbered acc).
Proof.
  intros Hfail. unfold chunk_round. destruct numbered as [i chunk].
  apply returns_then; intros _. apply returns_then; intros now.
  apply returns_then; intros _.
  apply (returns_bind (fun result => result = empty_listings F)).
  - apply returns_lift.
    rewrite process_with_api_not_200; [reflexivity|].
    specialize (Hfail now (build_request chunk (fields config) config)).
    destruct (post E now _); simpl in *; [lia|exact I].
  - intros result ->.
    apply (returns_bind (fun acc' => acc' = acc)); [apply returns_lift; reflexivity|].
    intros acc' ->. apply returns_then. intros _. apply returns_ret. reflexivity.
Qed.

Lemma url_round_adds_nothing config url (domain_results : list (str * list value)) :
  (forall now r, failed (post E now r)) ->
  returns (fun dr => dr = domain_results)
          (url_round F A E config url domain_results).
Proof.
  intros Hfail. unfold url_round.
  do 5 (apply returns_then; intros ?).
  destruct (negb (truthy _)); [apply returns_ret; reflexivity|].
  do 3 (apply returns_then; intros ?).
  apply (returns_bind (fun acc : list value => acc = [])).
  - apply returns_for_each; [|reflexivity].
    intros numbered acc _ ->. apply chunk_round_adds_nothing, Hfail.
  - intros acc ->. apply returns_ret. reflexivity.
Qed.

(** X22. When every call to the endpoint fails, the run writes no file. *)
Theorem failed_calls_save_nothing :
  (forall now r, failed (post E now r)) ->
  Forall (fun ev => ~ is_file ev) (main F A E).
Proof.
  intros Hfail. pose proof main_cases as H.
  destruct (new_Config_emits []) as (new0 & E0 & H0).
  destruct (new_Config F E []) as [[config|e] tr0]; simpl in E0; subst tr0.
  2:{ rewrite H. apply Forall_app. split.
      - eapply Forall_impl; [apply config_not_file|exact H0].
      - repeat constructor. intros []. }
  destruct (negb (truthy (urls config)) || negb (truthy (fields config))).
  { rewrite H. apply Forall_app. split.
    - eapply Forall_impl; [apply config_not_file|exact H0].
    - repeat constructor. intros []. }
  destruct (url_loop_emits config (new0 ++ [MadeDir base_output_folder]))
    as (new1 & E1 & H1).
  pose proof (returns_for_each (fun dr : list (str * list value) => dr = [])
                (urls config) (url_round F A E config)
                (fun url dr _ Hdr =>
                   eq_ind_r (fun dr0 => returns (fun dr' => dr' = [])
                                          (url_round F A E config url dr0))
                            (url_round_adds_nothing config url [] Hfail) Hdr)
                [] eq_refl (new0 ++ [MadeDir base_output_folder])) as Hnil.
  assert (Hpre : Forall (fun ev : event F => ~ is_file ev)
                   ((new0 ++ [MadeDir base_output_folder]) ++ new1)).
  { repeat (apply Forall_app; split).
    - eapply Forall_impl; [apply config_not_file|exact H0].
    - repeat constructor. intros [].
    - eapply Forall_impl; [apply page_not_file|exact H1]. }
  destruct (for_each (urls config) _ [] _) as [[domain_results|e] tr1];
    simpl in E1, Hnil; subst tr1.
  - subst domain_results. simpl in H. rewrite H. exact Hpre.
  - rewrite H. apply Forall_app. split; [exact Hpre|].
    repeat constructor. intros [].
Qed.

(** X23. Nothing is written until every page is processed: a run is made
    of a first part in which no file is written, and a second part in which
    no page is fetched and no call is made. *)
Theorem saving_comes_last :
  exists before after,
    main F A E = before ++ after
    /\ Forall (fun ev => ~ is_file ev) before
    /\ Forall (fun ev => ~ is_network ev) after.
Proof.
  pose proof main_cases as H.
  destruct (new_Config_emits []) as (new0 & E0 & H0).
  assert (Hcfg : Forall (fun ev : event F => ~ is_file ev) new0).
  { eapply Forall_impl; [apply config_not_file|exact H0]. }
  assert (Hmsg : forall m, Forall (fun ev : event F => ~ is_file ev) [Printed m]).
  { intros m. repeat constructor. intros []. }
  destruct (new_Config F E []) as [[config|e] tr0]; simpl in E0; subst tr0.
  2:{ exists (main F A E), []. rewrite app_nil_r. split; [reflexivity|].
      split; [|constructor]. rewrite H. apply Forall_app. split; [exact Hcfg|apply Hmsg]. }
  destruct (negb (truthy (urls config)) || negb (truthy (fields config))).
  { exists (main F A E), []. rewrite app_nil_r. split; [reflexivity|].
    split; [|constructor]. rewrite H. apply Forall_app. split; [exact Hcfg|apply Hmsg]. }
  destruct (url_loop_emits config (new0 ++ [MadeDir base_output_folder]))
    as (new1 & E1 & H1).
  assert (Hpre : Forall (fun ev : event F => ~ is_file ev)
                   ((new0 ++ [MadeDir base_output_folder]) ++ new1)).
  { repeat (apply Forall_app; split).
    - exact Hcfg.
    - repeat constructor. intros [].
    - eapply Forall_impl; [apply page_not_file|exact H1]. }
  destruct (for_each (urls config) _ [] _) as [[domain_results|e] tr1];
    simpl in E1; subst tr1.
  - destruct (save_loop config domain_results
                ((new0 ++ [MadeDir base_output_folder]) ++ new1))
      as (new2 & E2 & H2 & _).
    rewrite E2 in H. simpl in H.
    exists ((new0 ++ [MadeDir base_output_folder]) ++ new1), new2.
    split; [exact H|]. split; [exact Hpre|].
    eapply Forall_impl; [apply saving_not_network|exact H2].
  - exists (main F A E), []. rewrite app_nil_r. split; [reflexivity|].
    split; [|constructor]. rewrite H. apply Forall_app. split; [exact Hpre|apply Hmsg].
Qed.

End WithEnv.
End WithFloats.

Import Examples LostRuns.

Lemma chunk_round_raises_on_scalar_witness :
  chunk_round literal_floats scalar_listings one_url_config 1
    (1%nat, txt "Alpha beta.") [] []
  = (Raise TypeError,
     [Printed (ProcessingChunk 1 1);
      Posted (build_request (txt "Alpha beta.") [txt "name"] one_url_config)]).
Proof.
  apply (chunk_round_raises_on_scalar literal_floats scalar_listings one_url_config
           1 1 (txt "Alpha beta.") [] []
           [(txt "listings", JInt 5)] (JInt 5)).
  - vm_compute. reflexivity.
  - reflexivity.
  - reflexivity.
  - reflexivity.
Defined.

Lemma error_in_a_page_saves_nothing_witness :
  Forall (fun ev => ~ is_file ev) (main literal_floats decimal scalar_listings).
Proof.
  eapply proj2.
  eapply (error_in_a_page_saves_nothing literal_floats decimal scalar_listings
            one_url_config [Printed ConfigFileNotFound] _ TypeError).
  - vm_compute. reflexivity.
  - discriminate.
  - discriminate.
  - vm_compute. reflexivity.
Defined.

Lemma each_domain_is_saved_once_witness :
  NoDup (completed (main literal_floats decimal two_domains)).
Proof.
  eapply proj1.
  apply (each_domain_is_saved_once literal_floats decimal two_domains
           two_domains_config []).
  vm_compute. reflexivity.
Defined.

Lemma failed_calls_save_nothing_witness :
  Forall (fun ev => ~ is_file ev) (main literal_floats decimal endpoint_down).
Proof.
  apply (failed_calls_save_nothing literal_floats decimal endpoint_down).
  intros now r. vm_compute. right. discriminate.
Defined.

End RunFacts.

(** ** The prompt *)

Module PromptFacts.
Import PyFacts Json Scraper ScraperFacts ParserFacts.

Lemma contains_refl (p : str) : contains p p = true.
Proof.
  pose proof (contains_here p [] []) as H. rewrite app_nil_r in H. exact H.
Qed.

Lemma contains_join (sep f : str) (parts : list str) :
  In f parts -> contains f (join sep parts) = true.
Proof.
  induction parts as [|p parts IH]; [intros []|].
  intros [->|Hin].
  - destruct parts as [|q parts]; [apply contains_refl|].
    change (join sep (f :: q :: parts)) with (f ++ sep ++ join sep (q :: parts)).
    apply contains_before, contains_refl.
  - destruct parts as [|q parts]; [destruct Hin|].
    change (join sep (p :: q :: parts)) with (p ++ sep ++ join sep (q :: parts)).
    apply contains_after, contains_after, IH, Hin.
Qed.

(** X24. The prompt sent for a chunk begins with the line that lists the
    fields to extract, by name, in order and separated by commas; it ends
    with the chunk, whole, after the word [Content]; and between the two
    stands the pattern of a listing, which holds every field between
    quotes, followed by a quoted [value]. *)
Theorem prompt_carries_content_and_fields (content : str) (fields : list str)
  (config : Config) :
  let prompt := user_content (build_request content fields config) in
  exists pattern,
    prompt = txt "Extract the following fields from the content: "
             ++ join (txt ", ") fields ++ [10%N]
             ++ pattern
             ++ txt "        Content: " ++ content
    /\ forall field, In field fields ->
         contains ([34%N] ++ field ++ [34%N] ++ txt ": "
                   ++ [34%N] ++ txt "value" ++ [34%N])
                  pattern = true.
Proof.
  intros prompt.
  assert (Hp : prompt = user_prompt content fields).
  { unfold prompt, build_request.
    destruct (str_eqb (api_provider config) (txt "together")); reflexivity. }
  rewrite Hp. clear prompt Hp. unfold user_prompt.
  exists (txt "        Format the output EXACTLY as:" ++ [10%N]
          ++ txt "        {" ++ [10%N]
          ++ txt "            " ++ [34%N] ++ txt "listings" ++ [34%N]
          ++ txt ": [" ++ [10%N]
          ++ txt "                {"
          ++ join (txt ", ")
               (map (fun field => [34%N] ++ field ++ [34%N] ++ txt ": "
                                  ++ [34%N] ++ txt "value" ++ [34%N]) fields)
          ++ txt "}" ++ [10%N]
          ++ txt "            ]" ++ [10%N]
          ++ txt "        }" ++ [10%N]
          ++ txt "        " ++ [10%N]).
  split.
  - rewrite <- !app_assoc. reflexivity.
  - intros field Hin.
    do 11 apply contains_after. apply contains_before, contains_join.
    apply (in_map (fun field => [34%N] ++ field ++ [34%N] ++ txt ": "
                                ++ [34%N] ++ txt "value" ++ [34%N])), Hin.
Qed.

Lemma prompt_carries_content_and_fields_witness :
  exists pattern,
    user_content (build_request (txt "Alpha beta.") [txt "name"]
                    Examples.default_config)
    = txt "Extract the following fields from the content: "
      ++ join (txt ", ") [txt "name"] ++ [10%N]
      ++ pattern
      ++ txt "        Content: " ++ txt "Alpha beta."
    /\ contains (qtxt "'name': 'value'") pattern = true.
Proof.
  destruct (prompt_carries_content_and_fields (txt "Alpha beta.") [txt "name"]
              Examples.default_config) as (pattern & Heq & Hin).
  exists pattern. split; [exact Heq|].
  apply (Hin (txt "name")). left. reflexivity.
Defined.

End PromptFacts.

(** ** Pages that come back empty, answers that are read *)

Module PageFacts.
Import PyFacts Json JsonFacts Scraper ScraperFacts ParserFacts Traces RunFacts
       EmptyPages.

Section WithFloats.
Variable F : float_codec.
Variable A : arith.
Variable E : env.

Local Abbreviation value := (Json.value F).

Lemma url_round_skips config url (domain_results : list (str * list value))
  (tr : list (event F)) :
  (forall now u, fetch_page_content E now u = Ok []) ->
  url_round F A E config url domain_results tr
  = (Ok domain_results, tr ++ skipped_page E url).
Proof.
  intros Hf. unfold url_round, bindM, emit, clock, lift. rewrite Hf.
  cbn [truthy negb ret]. unfold skipped_page. rewrite <- !app_assoc. reflexivity.
Qed.

Lemma url_loop_skips config (l : list str) (domain_results : list (str * list value))
  (tr : list (event F)) :
  (forall now u, fetch_page_content E now u = Ok []) ->
  for_each l (url_round F A E config) domain_results tr
  = (Ok domain_results, tr ++ concat (map (skipped_page E) l)).
Proof.
  intros Hf. revert tr. induction l as [|url l IH]; intros tr.
  - simpl. rewrite app_nil_r. reflexivity.
  - cbn [for_each]. unfold bindM at 1. rewrite url_round_skips by exact Hf.
    rewrite IH. cbn [map concat]. rewrite app_assoc. reflexivity.
Qed.

(** X25. When every page comes back empty from [fetch_page_content], as
    it does when the page cannot be loaded, the run calls the endpoint for
    no chunk and writes no file. *)
Theorem empty_pages_are_skipped :
  (forall now u, fetch_page_content E now u = Ok []) ->
  Forall (fun ev => ~ is_call ev /\ ~ is_file ev) (main F A E).
Proof.
  intros Hf. pose proof (main_cases F A E) as H.
  destruct (new_Config_emits F E []) as (new0 & E0 & H0).
  assert (Hcfg : Forall (fun ev : event F => ~ is_call ev /\ ~ is_file ev) new0).
  { eapply Forall_impl; [|exact H0]. intros ev. destruct ev; simpl; tauto. }
  assert (Hmsg : forall m, Forall (fun ev : event F => ~ is_call ev /\ ~ is_file ev)
                             [Printed m]).
  { intros m. constructor; [|constructor]. split; intros []. }
  destruct (new_Config F E []) as [[config|e] tr0]; simpl in E0; subst tr0.
  2:{ rewrite H. apply Forall_app. split; [exact Hcfg|apply Hmsg]. }
  destruct (negb (truthy (urls config)) || negb (truthy (fields config))).
  { rewrite H. apply Forall_app. split; [exact Hcfg|apply Hmsg]. }
  rewrite url_loop_skips in H by exact Hf. simpl in H. rewrite H.
  repeat (apply Forall_app; split).
  - exact Hcfg.
  - constructor; [|constructor]. split; intros [].
  - apply Forall_forall. intros ev Hin. apply in_concat in Hin as (evs & Hevs & Hin).
    apply in_map_iff in Hevs as (url & <- & _).
    destruct Hin as [<-|[<-|[<-|[]]]]; split; intros [].
Qed.

(** X26. An answer of status 200 whose message is a text is handed,
    trimmed, to [parse_api_response]: [process_with_api] returns what it
    returns, and the empty listings when it raises. *)
Theorem process_with_api_parses_message
  (post : request -> http_outcome) (content : str) (fields : list str)
  (config : Config) (text s : str) (response_data choices choice message : value) :
  post (build_request content fields config) = Responded 200 text ->
  loads F text = Ok response_data ->
  subscript F response_data (txt "choices") = Ok choices ->
  item F choices 0 = Ok choice ->
  subscript F choice (txt "message") = Ok message ->
  subscript F message (txt "content") = Ok (JStr s) ->
  process_with_api F post content fields config
  = match parse_api_response F (strip s) with
    | Ok result => Ok result
    | Raise _ => Ok (empty_listings F)
    end.
Proof.
  intros Hp Hl H1 H2 H3 H4.
  unfold process_with_api, handle_outcome. rewrite Hp. cbn [Z.eqb Pos.eqb].
  rewrite Hl. cbn [bind]. rewrite H1. cbn [bind]. rewrite H2. cbn [bind].
  rewrite H3. cbn [bind]. rewrite H4. cbn [bind strip_method].
  destruct (parse_api_response F (strip s)); reflexivity.
Qed.

(** X27. In the loop over the chunks, an answer whose [listings] is a list
    adds its items, in order, after those of the chunks before; the call
    is followed by a sleep of one second. *)
Theorem chunk_round_collects (config : Config) (total i : nat)
  (chunk : str) (chunk_results : list value) (tr : list (event F))
  (d : list (str * value)) (items : list value) :
  process_with_api F (Scraper.post E (S (length tr))) chunk (fields config) config
  = Ok (JDict d) ->
  dict_get (txt "listings") d = Some (JList items) ->
  chunk_round F E config total (i, chunk) chunk_results tr
  = (Ok (chunk_results ++ items),
     tr ++ [Printed (ProcessingChunk i total);
            Posted (build_request chunk (fields config) config);
            Slept 1]).
Proof.
  intros Hp Hd. unfold chunk_round, bindM, emit, clock, lift.
  rewrite length_app. cbn [length]. rewrite Nat.add_1_r, Hp.
  assert (truth F (JDict d) = true) as ->.
  { destruct d; [discriminate|reflexivity]. }
  cbn [get subscript bind]. rewrite Hd. cbn [bind truth].
  destruct items as [|x items]; cbn [truthy iterate bind ret];
    rewrite <- ?app_assoc, ?app_nil_r; reflexivity.
Qed.

End WithFloats.

Import Examples LostRuns.

Lemma empty_pages_are_skipped_witness :
  Forall (fun ev => ~ is_call ev /\ ~ is_file ev)
         (main literal_floats decimal pages_down).
Proof.
  apply (empty_pages_are_skipped literal_floats decimal pages_down).
  intros now u. reflexivity.
Defined.

Lemma process_with_api_parses_message_witness :
  process_with_api literal_floats (fun _ => Responded 200 completion)
    (txt "Alpha beta.") [txt "name"] default_config
  = Ok (JDict [(txt "listings", JList [JDict [(txt "name", JStr (txt "n"))]])]).
Proof.
  etransitivity.
  - eapply (process_with_api_parses_message literal_floats
              (fun _ => Responded 200 completion)
              (txt "Alpha beta.") [txt "name"] default_config completion
              (qtxt "{'listings':[{'name':'n'}]}")).
    + reflexivity.
    + vm_compute. reflexivity.
    + vm_compute. reflexivity.
    + vm_compute. reflexivity.
    + vm_compute. reflexivity.
    + vm_compute. reflexivity.
  - vm_compute. reflexivity.
Defined.

Lemma chunk_round_collects_witness :
  chunk_round literal_floats pages_down one_url_config 1
    (1%nat, txt "Alpha beta.") [] []
  = (Ok [JDict [(txt "name", JStr (txt "n"))]],
     [Printed (ProcessingChunk 1 1);
      Posted (build_request (txt "Alpha beta.") [txt "name"] one_url_config);
      Slept 1]).
Proof.
  apply (chunk_round_collects literal_floats pages_down one_url_config
           1 1 (txt "Alpha beta.") [] []
           [(txt "listings", JList [JDict [(txt "name", JStr (txt "n"))]])]
           [JDict [(txt "name", JStr (txt "n"))]]).
  - vm_compute. reflexivity.
  - reflexivity.
Defined.

End PageFacts.

(** ** The provenance of the records that are saved *)

Module Provenance.
Import PyFacts Json JsonFacts Scraper ScraperFacts SavingFacts Traces RunFacts
       Buckets.

Section WithFloats.
Variable F : float_codec.
Variable A : arith.
Variable E : env.

Local Abbreviation value := (Json.value F).


(** *** Steps that make an event *)











End WithFloats.

Import Examples.


End Provenance.
